(** * Logging and lifecycle bootstrap of [server.py]

    A shallow embedding of the launcher script [src/server.py]: the
    module-level construction of the process-wide logging pipeline, the
    command-line schema, the reconciliation of the parsed configuration
    against the pipeline, the signal handler and the guarded call of the
    external server.

    Modelling conventions.
    - Python objects with identity (the logging handlers) live in a heap,
      a list indexed by allocation order; the root logger holds references
      (indices) to them, as [root_logger.handlers] holds object references.
    - Every primitive the script calls on the [logging], [signal], [argparse]
      and [uvicorn] modules appends an event to an instrumentation trace, so
      that the order of effects can be stated.
    - Exceptions are values of an error monad over the state: a raised
      exception keeps the mutations done so far.
    - The file system, the environment and the external server are oracles
      collected in the record [Env].  The server is a black box that
      returns, raises, or is interrupted by a signal that reaches the
      handler of the script; it does not touch the logging state itself. *)

From Stdlib Require Import ZArith String Ascii List Bool Lia DecimalString.
From stdpp Require Import base option list gmap strings.

Local Open Scope string_scope.
Local Open Scope Z_scope.
Local Open Scope list_scope.

(** ** Strings: ASCII case mapping, integer literals *)

Module Str.

Definition is_upper (c : ascii) : bool :=
  let n := nat_of_ascii c in (65 <=? n)%nat && (n <=? 90)%nat.

Definition is_lower (c : ascii) : bool :=
  let n := nat_of_ascii c in (97 <=? n)%nat && (n <=? 122)%nat.

Definition ascii_lower (c : ascii) : ascii :=
  if is_upper c then ascii_of_nat (nat_of_ascii c + 32) else c.

Definition ascii_upper (c : ascii) : ascii :=
  if is_lower c then ascii_of_nat (nat_of_ascii c - 32) else c.

(** [str.lower()] and [str.upper()] on a string of ASCII characters. *)
Fixpoint lower (s : string) : string :=
  match s with
  | EmptyString => EmptyString
  | String c r => String (ascii_lower c) (lower r)
  end.

Fixpoint upper (s : string) : string :=
  match s with
  | EmptyString => EmptyString
  | String c r => String (ascii_upper c) (upper r)
  end.

(** Two characters that differ at most by the case of a letter. *)
Definition ascii_eq_ci (a b : ascii) : bool :=
  Ascii.eqb a b
  || (is_upper a && (nat_of_ascii a + 32 =? nat_of_ascii b)%nat)
  || (is_upper b && (nat_of_ascii b + 32 =? nat_of_ascii a)%nat).

(** Case-insensitive equality of two strings, character by character. *)
Fixpoint eq_ci (s t : string) : bool :=
  match s, t with
  | EmptyString, EmptyString => true
  | String a s', String b t' => ascii_eq_ci a b && eq_ci s' t'
  | _, _ => false
  end.

Fixpoint no_upper (s : string) : bool :=
  match s with
  | EmptyString => true
  | String c r => negb (is_upper c) && no_upper r
  end.

(** Membership in a tuple of strings, [x in (a, b, c)]. *)
Fixpoint str_in (x : string) (l : list string) : bool :=
  match l with
  | [] => false
  | y :: r => String.eqb x y || str_in x r
  end.

(** [str(n)] for an integer. *)
Definition str_of_Z (n : Z) : string := NilZero.string_of_int (Z.to_int n).

(** *** [int(s)] on a string

    A [string] holds the UTF-8 encoding of the Python [str].  [int] first
    maps the string to ASCII ([_PyUnicode_TransformDecimalAndSpaceToASCII]):
    an ASCII string is taken as it is; otherwise every character below 127
    is kept, every other white-space character becomes a space and every
    other decimal digit its ASCII digit, and any other character makes the
    literal invalid.  The ASCII literal is then read in base ten
    ([PyLong_FromString]): white space ([Py_ISSPACE]: tab to carriage return
    and the space, not the separators 28 to 31) around an optional sign and
    digits with single underscores between them, at most
    [int_max_str_digits] digits.  [None] stands for the [ValueError]. *)

(** [Py_ISSPACE] *)
Definition is_space (c : ascii) : bool :=
  let n := nat_of_ascii c in
  ((9 <=? n)%nat && (n <=? 13)%nat) || (n =? 32)%nat.

Definition digit_val (c : ascii) : option Z :=
  let n := nat_of_ascii c in
  if (48 <=? n)%nat && (n <=? 57)%nat then Some (Z.of_nat (n - 48)) else None.

Fixpoint lstrip (s : string) : string :=
  match s with
  | String c r => if is_space c then lstrip r else s
  | EmptyString => EmptyString
  end.

Definition byte_val (c : ascii) : Z := Z.of_N (N_of_ascii c).

Definition ascii_of_Z (n : Z) : ascii := ascii_of_N (Z.to_N n).

Fixpoint is_ascii (s : string) : bool :=
  match s with
  | EmptyString => true
  | String c r => Z.ltb (byte_val c) 128 && is_ascii r
  end.

(** A continuation byte of UTF-8 and its six bits. *)
Definition is_cont (c : ascii) : bool :=
  Z.leb 128 (byte_val c) && Z.ltb (byte_val c) 192.

Definition cont_bits (c : ascii) : Z := byte_val c - 128.

(** The code points of a UTF-8 string.  The decoding is strict (no overlong
    form, no surrogate, nothing above U+10FFFF); [None] stands for a byte
    sequence that is not UTF-8, which Python holds as a [str] with lone
    surrogates. *)
Fixpoint utf8_decode (s : string) : option (list Z) :=
  match s with
  | EmptyString => Some []
  | String b0 r0 =>
      let n0 := byte_val b0 in
      if Z.ltb n0 128 then cons n0 <$> utf8_decode r0
      else if Z.ltb n0 194 then None
      else if Z.ltb n0 224 then
        match r0 with
        | String b1 r1 =>
            if is_cont b1
            then cons ((n0 - 192) * 64 + cont_bits b1) <$> utf8_decode r1
            else None
        | EmptyString => None
        end
      else if Z.ltb n0 240 then
        match r0 with
        | String b1 (String b2 r2) =>
            let c := ((n0 - 224) * 64 + cont_bits b1) * 64 + cont_bits b2 in
            if is_cont b1 && is_cont b2 && Z.leb 2048 c
               && negb (Z.leb 55296 c && Z.leb c 57343)
            then cons c <$> utf8_decode r2
            else None
        | _ => None
        end
      else if Z.ltb n0 245 then
        match r0 with
        | String b1 (String b2 (String b3 r3)) =>
            let c := (((n0 - 240) * 64 + cont_bits b1) * 64 + cont_bits b2) * 64
                     + cont_bits b3 in
            if is_cont b1 && is_cont b2 && is_cont b3 && Z.leb 65536 c
               && Z.leb c 1114111
            then cons c <$> utf8_decode r3
            else None
        | _ => None
        end
      else None
  end.

(** The white-space characters from 127 on ([Py_UNICODE_ISSPACE]). *)
Definition unicode_spaces : list Z :=
  [133; 160; 5760; 8192; 8193; 8194; 8195; 8196; 8197; 8198;
   8199; 8200; 8201; 8202; 8232; 8233; 8239; 8287; 12288].

(** The digit zero of every run of ten decimal digits outside ASCII
    ([Py_UNICODE_TODECIMAL], Unicode 14.0 as in CPython 3.11): a character
    [z + d] with [d] from 0 to 9 is the decimal digit [d]. *)
Definition decimal_zeros : list Z :=
  [1632; 1776; 1984; 2406; 2534; 2662; 2790; 2918; 3046; 3174;
   3302; 3430; 3558; 3664; 3792; 3872; 4160; 4240; 6112; 6160;
   6470; 6608; 6784; 6800; 6992; 7088; 7232; 7248; 42528; 43216;
   43264; 43472; 43504; 43600; 44016; 65296; 66720; 68912; 69734; 69872;
   69942; 70096; 70384; 70736; 70864; 71248; 71360; 71472; 71904; 72016;
   72784; 73040; 73120; 92768; 92864; 93008; 120782; 120792; 120802; 120812;
   120822; 123200; 123632; 125264; 130032].

Definition is_unicode_space (c : Z) : bool := existsb (Z.eqb c) unicode_spaces.

Definition to_decimal (c : Z) : option Z :=
  (fun z => c - z) <$> List.find (fun z => Z.leb z c && Z.leb c (z + 9)) decimal_zeros.

Definition to_ascii_char (c : Z) : option ascii :=
  if Z.ltb c 127 then Some (ascii_of_Z c)
  else if is_unicode_space c then Some " "%char
  else (fun d => ascii_of_Z (48 + d)) <$> to_decimal c.

Fixpoint to_ascii (cs : list Z) : option string :=
  match cs with
  | [] => Some EmptyString
  | c :: r =>
      match to_ascii_char c with
      | Some a => String a <$> to_ascii r
      | None => None
      end
  end.

Definition transform_decimal_and_space (s : string) : option string :=
  if is_ascii s then Some s
  else match utf8_decode s with
       | Some cs => to_ascii cs
       | None => None
       end.

(** The default of [sys.get_int_max_str_digits()]; the script does not
    change it. *)
Definition int_max_str_digits : Z := 4300.

(** The loop over digits and underscores: [prev_us] tells that the previous
    character was an underscore.  It gives the value, the number of digits
    and what follows them. *)
Fixpoint int_scan (prev_us : bool) (acc digits : Z) (s : string)
    : option (Z * Z * string) :=
  match s with
  | String c r =>
      match digit_val c with
      | Some d => int_scan false (10 * acc + d) (digits + 1) r
      | None =>
          if Ascii.eqb c "_" then
            if prev_us then None else int_scan true acc digits r
          else if prev_us then None else Some (acc, digits, s)
      end
  | EmptyString => if prev_us then None else Some (acc, digits, s)
  end.

Definition int_unsigned (s : string) : option Z :=
  match s with
  | String "_" _ => None
  | _ =>
      match int_scan false 0 0 s with
      | Some (v, digits, rest) =>
          if Z.eqb digits 0 then None
          else if Z.ltb int_max_str_digits digits then None
          else match lstrip rest with EmptyString => Some v | _ => None end
      | None => None
      end
  end.

(** The literal of an ASCII string. *)
Definition int_literal (s : string) : option Z :=
  match lstrip s with
  | String "-" r => Z.opp <$> int_unsigned r
  | String "+" r => int_unsigned r
  | t => int_unsigned t
  end.

(** [int(s)] *)
Definition py_int (s : string) : option Z :=
  match transform_decimal_and_space s with
  | Some t => int_literal t
  | None => None
  end.

End Str.

(** ** The [logging] module: handlers, the root logger, the trace *)

(** A reference to a handler object: its index in the heap. *)
Abbreviation hid := nat.

Inductive handler_class := StreamHandler | RotatingFileHandler | OtherHandler.

Record Formatter := { fmt : string; datefmt : string }.

Record Handler := {
  h_class : handler_class;
  h_level : Z;
  h_formatter : option Formatter;
  h_target : string;        (* the stream's name, or [baseFilename] *)
  h_maxBytes : Z;
  h_backupCount : Z;
  h_encoding : option string;
  h_closed : bool
}.

Inductive signum := SIGINT | SIGTERM.

Inductive sig_action := SigDefault | SigHandleShutdown.

Inductive exc_class :=
| OSError                      (* a subclass of Exception *)
| OtherException               (* any other subclass of Exception *)
| SystemExit (code : Z)        (* raised by sys.exit(code) *)
| OtherBaseException           (* a BaseException outside Exception *)
| Killed.                      (* no exception: the default action of SIGTERM *)

Record pyexc := { exc_cls : exc_class; exc_msg : string }.

Definition is_Exception (e : pyexc) : bool :=
  match exc_cls e with
  | OSError | OtherException => true
  | SystemExit _ | OtherBaseException | Killed => false
  end.

Record serve_args := {
  sv_app : string;
  sv_host : string;
  sv_port : Z;
  sv_reload : bool;
  sv_log_level : string
}.

(** What the instrumented primitives record, in the order they happen. *)
Inductive event :=
| EvMkdir (path : string)
| EvSetRootLevel (l : Z)
| EvClear
| EvNewHandler (h : hid)
| EvSetHandlerLevel (h : hid) (l : Z)
| EvSetFormatter (h : hid)
| EvAddHandler (h : hid)
| EvRemoveHandler (h : hid)
| EvClose (h : hid)
| EvSetLoggerLevel (name : string) (l : Z)
| EvLogCall (name : string) (level : Z) (msg : string)
| EvEmit (h : hid) (name : string) (level : Z) (msg : string)
| EvSetEventLoopPolicy
| EvSignal (s : signum)
| EvUsage (opt value : string)
| EvHelp
| EvServe (a : serve_args).

Record State := {
  root_level : Z;
  root_handlers : list hid;
  heap : list Handler;
  logger_levels : gmap string Z;
  on_sigterm : sig_action;
  on_sigint : sig_action;
  trace : list event
}.

Definition NOTSET : Z := 0.
Definition DEBUG : Z := 10.
Definition INFO : Z := 20.
Definition WARNING : Z := 30.
Definition ERROR : Z := 40.
Definition CRITICAL : Z := 50.

(** *** Field updates *)

Definition with_root_level (l : Z) (st : State) : State :=
  {| root_level := l; root_handlers := root_handlers st; heap := heap st;
     logger_levels := logger_levels st; on_sigterm := on_sigterm st;
     on_sigint := on_sigint st; trace := trace st |}.

Definition with_root_handlers (hs : list hid) (st : State) : State :=
  {| root_level := root_level st; root_handlers := hs; heap := heap st;
     logger_levels := logger_levels st; on_sigterm := on_sigterm st;
     on_sigint := on_sigint st; trace := trace st |}.

Definition with_heap (hp : list Handler) (st : State) : State :=
  {| root_level := root_level st; root_handlers := root_handlers st; heap := hp;
     logger_levels := logger_levels st; on_sigterm := on_sigterm st;
     on_sigint := on_sigint st; trace := trace st |}.

Definition with_logger_levels (m : gmap string Z) (st : State) : State :=
  {| root_level := root_level st; root_handlers := root_handlers st; heap := heap st;
     logger_levels := m; on_sigterm := on_sigterm st;
     on_sigint := on_sigint st; trace := trace st |}.

Definition with_signal (s : signum) (a : sig_action) (st : State) : State :=
  {| root_level := root_level st; root_handlers := root_handlers st; heap := heap st;
     logger_levels := logger_levels st;
     on_sigterm := match s with SIGTERM => a | SIGINT => on_sigterm st end;
     on_sigint := match s with SIGINT => a | SIGTERM => on_sigint st end;
     trace := trace st |}.

Definition record_event (e : event) (st : State) : State :=
  {| root_level := root_level st; root_handlers := root_handlers st; heap := heap st;
     logger_levels := logger_levels st; on_sigterm := on_sigterm st;
     on_sigint := on_sigint st; trace := trace st ++ [e] |}.

Definition record_events (es : list event) (st : State) : State :=
  {| root_level := root_level st; root_handlers := root_handlers st; heap := heap st;
     logger_levels := logger_levels st; on_sigterm := on_sigterm st;
     on_sigint := on_sigint st; trace := trace st ++ es |}.

(** *** The state-and-exception monad of the script *)

Inductive result (A : Type) :=
| Ok (a : A)
| Raise (e : pyexc).
Arguments Ok {A} a.
Arguments Raise {A} e.

Definition M (A : Type) : Type := State -> State * result A.

Definition ret {A} (a : A) : M A := fun st => (st, Ok a).

Definition bind {A B} (m : M A) (k : A -> M B) : M B :=
  fun st =>
    match m st with
    | (st', Ok a) => k a st'
    | (st', Raise e) => (st', Raise e)
    end.

Definition raise {A} (e : pyexc) : M A := fun st => (st, Raise e).

Definition get : M State := fun st => (st, Ok st).

Definition modify (f : State -> State) : M unit := fun st => (f st, Ok tt).

(** A property of the state that a computation is left in, relative to the
    state it starts from. *)
Definition stable {A} (R : State -> State -> Prop) (m : M A) : Prop :=
  forall st, R st (m st).1.

Declare Scope py_scope.
Delimit Scope py_scope with py.
Notation "x ← y ; z" := (bind y (fun x => z))
  (at level 20, y at level 100, z at level 200, only parsing) : py_scope.
Notation "x ;; z" := (bind x (fun _ => z))
  (at level 100, z at level 200, only parsing, right associativity) : py_scope.
Local Open Scope py_scope.

(** [try: body  except Exception as e: handler e]: only the classes below
    [Exception] are caught; [SystemExit] and the other [BaseException]s
    pass through. *)
Definition try_except_Exception (body : M unit) (handler : pyexc -> M unit) : M unit :=
  fun st =>
    match body st with
    | (st', Ok tt) => (st', Ok tt)
    | (st', Raise e) => if is_Exception e then handler e st' else (st', Raise e)
    end.

(** [sys.exit(code)] *)
Definition sys_exit {A} (code : Z) : M A :=
  raise {| exc_cls := SystemExit code; exc_msg := Str.str_of_Z code |}.

(** How the interpreter ends the process for the outcome of the script. *)
Inductive proc_result :=
| Exit (code : Z)
| Traceback (e : pyexc)
| Terminated.

Definition finish (r : result unit) : proc_result :=
  match r with
  | Ok _ => Exit 0
  | Raise e =>
      match exc_cls e with
      | SystemExit c => Exit c
      | Killed => Terminated
      | OSError | OtherException | OtherBaseException => Traceback e
      end
  end.

(** *** Primitives of [logging] used by the script *)

Definition emit (e : event) : M unit := modify (record_event e).

(** [root_logger.setLevel(l)] *)
Definition root_setLevel (l : Z) : M unit :=
  modify (fun st => record_event (EvSetRootLevel l) (with_root_level l st)).

(** [root_logger.handlers.clear()] *)
Definition handlers_clear : M unit :=
  modify (fun st => record_event EvClear (with_root_handlers [] st)).

(** Allocation of a handler object. *)
Definition new_handler (H : Handler) : M hid :=
  fun st =>
    let h := length (heap st) in
    (record_event (EvNewHandler h) (with_heap (heap st ++ [H]) st), Ok h).

Definition set_h_level (l : Z) (H : Handler) : Handler :=
  {| h_class := h_class H; h_level := l; h_formatter := h_formatter H;
     h_target := h_target H; h_maxBytes := h_maxBytes H;
     h_backupCount := h_backupCount H; h_encoding := h_encoding H;
     h_closed := h_closed H |}.

Definition set_h_formatter (f : Formatter) (H : Handler) : Handler :=
  {| h_class := h_class H; h_level := h_level H; h_formatter := Some f;
     h_target := h_target H; h_maxBytes := h_maxBytes H;
     h_backupCount := h_backupCount H; h_encoding := h_encoding H;
     h_closed := h_closed H |}.

Definition set_h_closed (H : Handler) : Handler :=
  {| h_class := h_class H; h_level := h_level H; h_formatter := h_formatter H;
     h_target := h_target H; h_maxBytes := h_maxBytes H;
     h_backupCount := h_backupCount H; h_encoding := h_encoding H;
     h_closed := true |}.

Definition update_handler (h : hid) (f : Handler -> Handler) (st : State) : State :=
  with_heap (alter f h (heap st)) st.

(** [h.setLevel(l)], [h.setFormatter(f)], [h.close()] *)
Definition Handler_setLevel (h : hid) (l : Z) : M unit :=
  modify (fun st => record_event (EvSetHandlerLevel h l) (update_handler h (set_h_level l) st)).

Definition Handler_setFormatter (h : hid) (f : Formatter) : M unit :=
  modify (fun st => record_event (EvSetFormatter h) (update_handler h (set_h_formatter f) st)).

Definition Handler_close (h : hid) : M unit :=
  modify (fun st => record_event (EvClose h) (update_handler h set_h_closed st)).

(** [list.remove(x)] where [x] is known to occur: the first occurrence goes. *)
Fixpoint remove_first (h : hid) (l : list hid) : list hid :=
  match l with
  | [] => []
  | x :: r => if Nat.eqb x h then r else x :: remove_first h r
  end.

Fixpoint mem (h : hid) (l : list hid) : bool :=
  match l with
  | [] => false
  | x :: r => Nat.eqb x h || mem h r
  end.

(** [Logger.addHandler]: [if not (hdlr in self.handlers): self.handlers.append(hdlr)] *)
Definition add_to (h : hid) (l : list hid) : list hid :=
  if mem h l then l else l ++ [h].

Definition addHandler (h : hid) : M unit :=
  modify (fun st =>
    record_event (EvAddHandler h) (with_root_handlers (add_to h (root_handlers st)) st)).

(** [Logger.removeHandler]: [if hdlr in self.handlers: self.handlers.remove(hdlr)] *)
Definition removeHandler (h : hid) : M unit :=
  modify (fun st =>
    record_event (EvRemoveHandler h)
      (with_root_handlers (remove_first h (root_handlers st)) st)).

(** [isinstance(h, RotatingFileHandler)] *)
Definition is_rotating (hp : list Handler) (h : hid) : bool :=
  match hp !! h with
  | Some H =>
      match h_class H with
      | RotatingFileHandler => true
      | StreamHandler | OtherHandler => false
      end
  | None => false
  end.

(** [logging.getLogger(name).setLevel(l)] for a named logger. *)
Definition Logger_setLevel (name : string) (l : Z) : M unit :=
  modify (fun st =>
    record_event (EvSetLoggerLevel name l)
      (with_logger_levels (<[name := l]> (logger_levels st)) st)).

(** [Logger.getEffectiveLevel] for a logger whose parent is the root (a name
    without dots): its own level unless that is NOTSET, else the root's. *)
Definition getEffectiveLevel (name : string) (st : State) : Z :=
  match logger_levels st !! name with
  | Some l => if Z.eqb l NOTSET then root_level st else l
  | None => root_level st
  end.

(** [Logger.callHandlers] for a record that propagates to the root: every
    handler of the root whose own level the record reaches emits it.  The
    named loggers of the script have no handlers of their own; the handler
    of last resort, which only serves a logger hierarchy without handlers,
    is left out. *)
Definition callHandlers (name : string) (level : Z) (msg : string) (st : State) : list event :=
  flat_map (fun h =>
    match heap st !! h with
    | Some H => if Z.leb (h_level H) level then [EvEmit h name level msg] else []
    | None => []
    end) (root_handlers st).

(** [Logger.isEnabledFor(level)], with [logging.disable] and the
    [disabled] flag of the logger at their defaults. *)
Definition isEnabledFor (name : string) (level : Z) (st : State) : bool :=
  Z.leb (getEffectiveLevel name st) level.

(** [logging.getLogger(name).log(level, msg)]: the call is recorded, and the
    record is handed to the handlers when the logger is enabled for it. *)
Definition log (name : string) (level : Z) (msg : string) : M unit :=
  modify (fun st =>
    record_events
      (EvLogCall name level msg ::
       (if isEnabledFor name level st then callHandlers name level msg st else []))
      st).

(** [getattr(logging, name, default)] on the names of the level constants;
    the script only passes the upper-cased [--log-level] choices. *)
Definition getattr_logging (name : string) (default : Z) : Z :=
  if String.eqb name "CRITICAL" then CRITICAL
  else if String.eqb name "FATAL" then CRITICAL
  else if String.eqb name "ERROR" then ERROR
  else if String.eqb name "WARNING" then WARNING
  else if String.eqb name "WARN" then WARNING
  else if String.eqb name "INFO" then INFO
  else if String.eqb name "DEBUG" then DEBUG
  else if String.eqb name "NOTSET" then NOTSET
  else default.

(** ** The environment of the process *)

Inductive serve_outcome :=
| ServeReturns                 (* an ordinary shutdown of the server *)
| ServeRaises (e : pyexc)      (* the call raises *)
| ServeSignal (s : signum).    (* a signal reaches the process while it serves *)

(** The two places where the script touches the file system. *)
Inductive site := AtImport | AtReconcile.

Record Env := {
  os_name : string;                               (* os.name *)
  getenv_DEBUG : option string;                   (* the variable DEBUG, if set *)
  mkdir_error : site -> string -> option string;  (* message of the OSError, if mkdir fails *)
  open_error : site -> string -> option string;   (* message of the OSError, if open fails *)
  abspath : string -> string;                     (* os.path.abspath *)
  path_parent : string -> string;                 (* Path(p).parent *)
  serve : serve_args -> serve_outcome             (* uvicorn.run *)
}.

(** [Path(p).mkdir(...)] with [exist_ok=True] *)
Definition mkdir (E : Env) (at_ : site) (path : string) : M unit :=
  match mkdir_error E at_ path with
  | Some m => raise {| exc_cls := OSError; exc_msg := m |}
  | None => emit (EvMkdir path)
  end.

(** [logging.StreamHandler(stream)] *)
Definition new_StreamHandler (stream : string) : M hid :=
  new_handler {| h_class := StreamHandler; h_level := NOTSET; h_formatter := None;
                 h_target := stream; h_maxBytes := 0; h_backupCount := 0;
                 h_encoding := None; h_closed := false |}.

(** [RotatingFileHandler(path, maxBytes=, backupCount=, encoding=)]: the
    file is opened by the constructor, which raises when that fails. *)
Definition new_RotatingFileHandler (E : Env) (at_ : site) (path : string)
    (maxBytes backupCount : Z) (encoding : string) : M hid :=
  match open_error E at_ path with
  | Some m => raise {| exc_cls := OSError; exc_msg := m |}
  | None =>
      new_handler {| h_class := RotatingFileHandler; h_level := NOTSET;
                     h_formatter := None; h_target := abspath E path;
                     h_maxBytes := maxBytes; h_backupCount := backupCount;
                     h_encoding := Some encoding; h_closed := false |}
  end.

(** ** The script *)

Definition log_dir : string := "logs".
Definition log_format : string := "%(asctime)s - %(name)s - %(levelname)s - %(message)s".
Definition date_format : string := "%Y-%m-%d %H:%M:%S".
(** [log_dir / "academic-agent.log"] *)
Definition log_file : string := log_dir +:+ "/academic-agent.log".
(** [__name__] when the file runs as a script. *)
Definition logger : string := "__main__".

Definition the_formatter : Formatter := {| fmt := log_format; datefmt := date_format |}.

(** [handle_shutdown(signum, frame)] *)
Definition handle_shutdown (s : signum) : M unit :=
  log logger INFO "Received shutdown signal. Starting graceful shutdown..." ;;
  sys_exit 0.

(** [signal.signal(s, handle_shutdown)] *)
Definition signal_signal (s : signum) : M unit :=
  modify (with_signal s SigHandleShutdown).

(** The delivery of a signal to the process in state [st]. *)
Definition deliver (s : signum) : M unit :=
  emit (EvSignal s) ;;
  st ← get ;
  match s, (match s with SIGTERM => on_sigterm st | SIGINT => on_sigint st end) with
  | _, SigHandleShutdown => handle_shutdown s
  | SIGINT, SigDefault =>
      raise {| exc_cls := OtherBaseException; exc_msg := "KeyboardInterrupt" |}
  | SIGTERM, SigDefault =>
      raise {| exc_cls := Killed; exc_msg := "SIGTERM" |}
  end.

(** Lines 19 to 50: the log directory, the root logger and its two sinks. *)
Definition setup_logging (E : Env) : M unit :=
  mkdir E AtImport log_dir ;;
  root_setLevel INFO ;;
  handlers_clear ;;
  console_handler ← new_StreamHandler "<stdout>" ;
  Handler_setLevel console_handler INFO ;;
  Handler_setFormatter console_handler the_formatter ;;
  addHandler console_handler ;;
  file_handler ← new_RotatingFileHandler E AtImport log_file (10 * 1024 * 1024) 5 "utf-8" ;
  Handler_setLevel file_handler INFO ;;
  Handler_setFormatter file_handler the_formatter ;;
  addHandler file_handler.

(** Lines 61 to 63. *)
Definition windows_policy (E : Env) : M unit :=
  if String.eqb (os_name E) "nt"
  then log logger INFO "Setting Windows event loop policy for asyncio" ;;
       emit EvSetEventLoopPolicy
  else ret tt.

(** Lines 73 and 74. *)
Definition register_signals : M unit :=
  signal_signal SIGTERM ;;
  signal_signal SIGINT.

(** Lines 19 to 74: everything the module does before the main block. *)
Definition module_level (E : Env) : M unit :=
  setup_logging E ;;
  windows_policy E ;;
  register_signals.

(** *** The command line

    [argparse] recognises the option strings (also abbreviated, or joined to
    their value by [=]); what the script declares is the type, the default
    and the choices of each option.  The command line is therefore taken as
    the sequence of its arguments as [argparse] classifies them: a declared
    option with its raw value; [Malformed], an argument that [argparse]
    refuses when it comes to it (an option without its value, a value
    joined to a flag); [Unrecognized], an option that is not declared or a
    stray positional argument, which [argparse] sets aside and reports only
    after the whole command line has been taken.  An abbreviation that
    matches several options, which [argparse] reports at a point that
    depends on its version, is not represented. *)

Inductive cli_item :=
| OptHelp
| OptReload
| OptHost (v : string)
| OptPort (v : string)
| OptLogLevel (v : string)
| OptLogFile (v : string)
| Malformed (what : string)
| Unrecognized (what : string).

Record Args := {
  reload : bool;
  host : string;
  port : Z;
  log_level : string;
  log_file_arg : option string
}.

Definition default_args : Args :=
  {| reload := false; host := "localhost"; port := 8000; log_level := "info";
     log_file_arg := None |}.

Definition log_level_choices : list string :=
  ["debug"; "info"; "warning"; "error"; "critical"].

Inductive parsed :=
| Parsed (a : Args)
| UsageError (opt value : string)
| HelpExit.

(** [parse_known_args]: the arguments are taken in order; the help and an
    error end the parsing where they occur; an unrecognised argument is set
    aside. *)
Fixpoint parse_known_items (items : list cli_item) (a : Args) : parsed :=
  match items with
  | [] => Parsed a
  | OptHelp :: _ => HelpExit
  | OptReload :: r =>
      parse_known_items r {| reload := true; host := host a; port := port a;
                             log_level := log_level a; log_file_arg := log_file_arg a |}
  | OptHost v :: r =>
      parse_known_items r {| reload := reload a; host := v; port := port a;
                             log_level := log_level a; log_file_arg := log_file_arg a |}
  | OptPort v :: r =>
      match Str.py_int v with
      | Some p =>
          parse_known_items r {| reload := reload a; host := host a; port := p;
                                 log_level := log_level a;
                                 log_file_arg := log_file_arg a |}
      | None => UsageError "--port" v
      end
  | OptLogLevel v :: r =>
      if Str.str_in v log_level_choices
      then parse_known_items r {| reload := reload a; host := host a; port := port a;
                                  log_level := v; log_file_arg := log_file_arg a |}
      else UsageError "--log-level" v
  | OptLogFile v :: r =>
      parse_known_items r {| reload := reload a; host := host a; port := port a;
                             log_level := log_level a; log_file_arg := Some v |}
  | Malformed what :: _ => UsageError what EmptyString
  | Unrecognized _ :: r => parse_known_items r a
  end.

(** The arguments that were set aside. *)
Fixpoint extras (items : list cli_item) : list string :=
  match items with
  | [] => []
  | Unrecognized what :: r => what :: extras r
  | _ :: r => extras r
  end.

(** What [parse_args] makes of the command line: [parse_known_args], then
    the error for the arguments that were set aside, if any. *)
Definition parse_items (items : list cli_item) (a : Args) : parsed :=
  match parse_known_items items a with
  | Parsed a' =>
      match extras items with
      | [] => Parsed a'
      | ws => UsageError "unrecognized arguments" (String.concat " " ws)
      end
  | r => r
  end.

(** [parser.parse_args()]: an error prints the usage and exits with status 2,
    [--help] prints the help and exits with status 0. *)
Definition parse_args (argv : list cli_item) : M Args :=
  match parse_items argv default_args with
  | Parsed a => ret a
  | UsageError opt v => emit (EvUsage opt v) ;; sys_exit 2
  | HelpExit => emit EvHelp ;; sys_exit 0
  end.

(** The loop of lines 127-130 and 136-139 over the copy [root_logger.handlers[:]]. *)
Fixpoint remove_file_handlers (copy : list hid) : M unit :=
  match copy with
  | [] => ret tt
  | handler :: rest =>
      st ← get ;
      (if is_rotating (heap st) handler
       then removeHandler handler ;; Handler_close handler
       else ret tt) ;;
      remove_file_handlers rest
  end.

(** Lines 124 to 149. *)
Definition reconcile_log_file (E : Env) (arg : option string) : M unit :=
  match arg with
  | None => ret tt
  | Some path =>
      if String.eqb path EmptyString then
        st ← get ;
        remove_file_handlers (root_handlers st)
      else
        mkdir E AtReconcile (path_parent E path) ;;
        st ← get ;
        remove_file_handlers (root_handlers st) ;;
        custom_file_handler ←
          new_RotatingFileHandler E AtReconcile path (10 * 1024 * 1024) 5 "utf-8" ;
        Handler_setLevel custom_file_handler INFO ;;
        Handler_setFormatter custom_file_handler the_formatter ;;
        addHandler custom_file_handler
  end.

(** Lines 117 to 121. *)
Definition effective_log_level (E : Env) (args : Args) : string :=
  if Str.str_in (Str.lower (default EmptyString (getenv_DEBUG E))) ["true"; "1"; "yes"]
  then "debug"
  else log_level args.

(** Lines 152 to 157. *)
Definition log_startup_lines (args : Args) (level : string) : M unit :=
  log logger INFO
    ("Starting DeerFlow API server on " +:+ host args +:+ ":" +:+ Str.str_of_Z (port args)) ;;
  log logger INFO ("Log level: " +:+ Str.upper level) ;;
  st ← get ;
  match List.filter (is_rotating (heap st)) (root_handlers st) with
  | h :: _ =>
      log logger INFO ("Log file: " +:+ default EmptyString (h_target <$> heap st !! h))
  | [] => ret tt
  end.

(** The loop of lines 163-164. *)
Fixpoint set_handler_levels (hs : list hid) (l : Z) : M unit :=
  match hs with
  | [] => ret tt
  | handler :: rest => Handler_setLevel handler l ;; set_handler_levels rest l
  end.

(** Lines 160 to 164. *)
Definition apply_level (level : string) : M unit :=
  let numeric_level := getattr_logging (Str.upper level) INFO in
  root_setLevel numeric_level ;;
  st ← get ;
  set_handler_levels (root_handlers st) numeric_level.

(** Lines 167 to 171. *)
Definition enable_debug_packages (level : string) : M unit :=
  if String.eqb (Str.lower level) "debug" then
    Logger_setLevel "src" DEBUG ;;
    Logger_setLevel "langchain" DEBUG ;;
    Logger_setLevel "langgraph" DEBUG ;;
    log logger INFO "DEBUG logging enabled for src, langchain, and langgraph packages - detailed diagnostic information will be logged"
  else ret tt.

(** Lines 173 to 179: the call is recorded, then the server decides. *)
Definition uvicorn_run (E : Env) (a : serve_args) : M unit :=
  emit (EvServe a) ;;
  match serve E a with
  | ServeReturns => ret tt
  | ServeRaises e => raise e
  | ServeSignal s => deliver s
  end.

(** The arguments of the call of lines 173 to 179; [reload] is the local
    variable of lines 113 to 115. *)
Definition serve_args_of (args : Args) (level : string) : serve_args :=
  let reload := if reload args then true else false in
  {| sv_app := "src.server:app"; sv_host := host args; sv_port := port args;
     sv_reload := reload; sv_log_level := level |}.

(** Lines 151 to 182. *)
Definition start_server (E : Env) (args : Args) (level : string) : M unit :=
  try_except_Exception
    (log_startup_lines args level ;;
     apply_level level ;;
     enable_debug_packages level ;;
     uvicorn_run E (serve_args_of args level))
    (fun e =>
       log logger ERROR ("Failed to start server: " +:+ exc_msg e) ;;
       sys_exit 1).

(** The main block, lines 76 to 182. *)
Definition main (E : Env) (argv : list cli_item) : M unit :=
  args ← parse_args argv ;
  let level := effective_log_level E args in
  reconcile_log_file E (log_file_arg args) ;;
  start_server E args level.

(** The whole script, and how the process ends. *)
Definition script (E : Env) (argv : list cli_item) : M unit :=
  module_level E ;;
  main E argv.

Definition run (E : Env) (argv : list cli_item) (st : State) : State * proc_result :=
  let (st', r) := script E argv st in (st', finish r).

(** ** A fresh interpreter and a plain environment, for examples *)

(** The state of [logging] and [signal] in a fresh interpreter: the root
    logger at WARNING without handlers, no named logger configured. *)
Definition fresh_state : State :=
  {| root_level := WARNING; root_handlers := []; heap := []; logger_levels := ∅;
     on_sigterm := SigDefault; on_sigint := SigDefault; trace := [] |}.

(** A POSIX host where every directory and file can be created, the
    variable DEBUG is unset and the server returns normally. *)
Definition plain_env : Env :=
  {| os_name := "posix"; getenv_DEBUG := None;
     mkdir_error := fun _ _ => None; open_error := fun _ _ => None;
     abspath := fun p => "/srv/" +:+ p; path_parent := fun _ => ".";
     serve := fun _ => ServeReturns |}.

(** ** Vocabulary of the specification *)

(** The debug variable is truthy: it equals one of the three words up to
    the case of its letters. *)
Definition env_debug_truthy (v : option string) : bool :=
  match v with
  | Some s => existsb (Str.eq_ci s) ["true"; "1"; "yes"]
  | None => false
  end.

(** The severity that a [--log-level] choice names. *)
Definition severity_of_choice (v : string) : option Z :=
  if String.eqb v "debug" then Some DEBUG
  else if String.eqb v "info" then Some INFO
  else if String.eqb v "warning" then Some WARNING
  else if String.eqb v "error" then Some ERROR
  else if String.eqb v "critical" then Some CRITICAL
  else None.

(** The events that a computation appended to the trace. *)
Definition new_events (st st' : State) : list event :=
  drop (length (trace st)) (trace st').

(** The log calls among some events, as (logger, level, message). *)
Fixpoint log_calls (es : list event) : list (string * Z * string) :=
  match es with
  | [] => []
  | EvLogCall name level msg :: r => (name, level, msg) :: log_calls r
  | _ :: r => log_calls r
  end.

(** The records that reached the sink [h], as (level, message). *)
Fixpoint emitted_to (h : hid) (es : list event) : list (Z * string) :=
  match es with
  | [] => []
  | EvEmit h' _ level msg :: r =>
      if Nat.eqb h' h then (level, msg) :: emitted_to h r else emitted_to h r
  | _ :: r => emitted_to h r
  end.

(** The effect of one event on the list of handlers of the root logger. *)
Definition apply_event (e : event) (hs : list hid) : list hid :=
  match e with
  | EvClear => []
  | EvAddHandler h => add_to h hs
  | EvRemoveHandler h => remove_first h hs
  | _ => hs
  end.


(** The handlers of the root logger after each of some events. *)
Fixpoint history (es : list event) (hs : list hid) : list (list hid) :=
  match es with
  | [] => []
  | e :: r => apply_event e hs :: history r (apply_event e hs)
  end.


(** The number of rotating-file sinks among some handlers. *)
Definition file_sinks (hp : list Handler) (hs : list hid) : nat :=
  length (List.filter (is_rotating hp) hs).

(** The handler object behind [h] is closed. *)
Definition is_closed (hp : list Handler) (h : hid) : bool :=
  match hp !! h with
  | Some H => h_closed H
  | None => false
  end.

(** Events that leave the handlers of the root logger and the set of
    handler objects alone. *)
Definition quiet_event (e : event) : bool :=
  match e with
  | EvClear | EvNewHandler _ | EvAddHandler _ | EvRemoveHandler _ | EvClose _
  | EvSetFormatter _ => false
  | _ => true
  end.

(** Two handler objects that differ at most by their level. *)
Definition same_but_level (H H' : Handler) : Prop :=
  h_class H' = h_class H /\ h_formatter H' = h_formatter H /\
  h_target H' = h_target H /\ h_maxBytes H' = h_maxBytes H /\
  h_backupCount H' = h_backupCount H /\ h_encoding H' = h_encoding H /\
  h_closed H' = h_closed H.

(** A computation that only touches levels and appends quiet events: the
    handlers of the root logger stay, the handler objects stay up to their
    level, and no handler object appears. *)
Definition quiet (st st' : State) : Prop :=
  root_handlers st' = root_handlers st /\
  length (heap st') = length (heap st) /\
  (forall h H, heap st !! h = Some H ->
     exists H', heap st' !! h = Some H' /\ same_but_level H H') /\
  exists es, trace st' = trace st ++ es /\ forallb quiet_event es = true.

(** The named loggers keep their levels. *)
Definition keeps_loggers (st st' : State) : Prop :=
  logger_levels st' = logger_levels st.

(** The root logger and the handler objects keep their levels (and all the
    rest). *)
Definition keeps_levels (st st' : State) : Prop :=
  root_level st' = root_level st /\ heap st' = heap st /\
  root_handlers st' = root_handlers st.

(** The signal dispositions stay. *)
Definition keeps_signals (st st' : State) : Prop :=
  on_sigterm st' = on_sigterm st /\ on_sigint st' = on_sigint st.

(** The computation returns, whatever the state. *)
Definition returns {A} (m : M A) : Prop :=
  forall st, exists a, (m st).2 = Ok a.

(** ** The pipeline that the import builds *)

Definition console_obj : Handler :=
  {| h_class := StreamHandler; h_level := INFO; h_formatter := Some the_formatter;
     h_target := "<stdout>"; h_maxBytes := 0; h_backupCount := 0;
     h_encoding := None; h_closed := false |}.

Definition rotating_obj (E : Env) (path : string) : Handler :=
  {| h_class := RotatingFileHandler; h_level := INFO; h_formatter := Some the_formatter;
     h_target := abspath E path; h_maxBytes := 10485760; h_backupCount := 5;
     h_encoding := Some "utf-8"; h_closed := false |}.

(** What the construction of a sink with reference [h] records. *)
Definition sink_events (h : hid) : list event :=
  [EvNewHandler h; EvSetHandlerLevel h INFO; EvSetFormatter h; EvAddHandler h].

(** The state after lines 19 to 38 when the default log file cannot be opened. *)
Definition console_state (st : State) : State :=
  let n := length (heap st) in
  {| root_level := INFO; root_handlers := [n];
     heap := heap st ++ [console_obj];
     logger_levels := logger_levels st;
     on_sigterm := on_sigterm st; on_sigint := on_sigint st;
     trace := trace st ++ [EvMkdir log_dir; EvSetRootLevel INFO; EvClear] ++ sink_events n |}.

(** The state after lines 19 to 50 when nothing fails. *)
Definition attached_state (E : Env) (st : State) : State :=
  let n := length (heap st) in
  {| root_level := INFO; root_handlers := [n; S n];
     heap := heap st ++ [console_obj; rotating_obj E log_file];
     logger_levels := logger_levels st;
     on_sigterm := on_sigterm st; on_sigint := on_sigint st;
     trace := trace st ++ [EvMkdir log_dir; EvSetRootLevel INFO; EvClear]
                ++ sink_events n ++ sink_events (S n) |}.

(** What the loop of lines 127-130 records for a copy of the handlers. *)
Definition detach_events (hp : list Handler) (copy : list hid) : list event :=
  flat_map (fun h => if is_rotating hp h then [EvRemoveHandler h; EvClose h] else []) copy.

(** The handlers that are not rotating-file sinks, in order. *)
Definition other_sinks (hp : list Handler) (hs : list hid) : list hid :=
  List.filter (fun h => negb (is_rotating hp h)) hs.

(** [st'] is [st] with every rotating-file sink of the root logger detached
    and closed, and nothing else touched but the trace. *)
Definition detached (st st' : State) : Prop :=
  root_handlers st' = other_sinks (heap st) (root_handlers st) /\
  root_level st' = root_level st /\
  length (heap st') = length (heap st) /\
  (forall h, heap st' !! h =
             if is_rotating (heap st) h && mem h (root_handlers st)
             then set_h_closed <$> heap st !! h else heap st !! h).

(** [st'] is [st] with a new rotating-file sink for [path] attached. *)
Definition attached (E : Env) (path : string) (st st' : State) : Prop :=
  root_handlers st' = add_to (length (heap st)) (root_handlers st) /\
  root_level st' = root_level st /\
  heap st' = heap st ++ [rotating_obj E path] /\
  trace st' = trace st ++ sink_events (length (heap st)).

(** ** Example environments *)

(** As [plain_env], but the custom log file cannot be opened. *)
Definition denied_env : Env :=
  {| os_name := "posix"; getenv_DEBUG := None;
     mkdir_error := fun _ _ => None;
     open_error := fun s _ =>
       match s with AtReconcile => Some "Permission denied" | AtImport => None end;
     abspath := fun p => "/srv/" +:+ p; path_parent := fun _ => ".";
     serve := fun _ => ServeReturns |}.

(** The reading of the specification: when the new sink cannot be opened,
    every file sink that the import attached is still attached and open at
    the end of the script. *)
Definition previous_sink_intact (E : Env) (argv : list cli_item) (st : State) : Prop :=
  let st1 := (module_level E st).1 in
  let st' := (script E argv st).1 in
  forall h, In h (root_handlers st1) -> is_rotating (heap st1) h = true ->
    In h (root_handlers st') /\ is_closed (heap st') h = false.

(** ** Vocabulary for the start of the server *)

(** The script reaches the guarded block of lines 151 to 182: the import
    returns, the command line parses to [args], and the reconciliation of
    [--log-file] returns, leaving the state [st2]. *)
Definition reaches_server (E : Env) (argv : list cli_item) (st0 : State)
    (args : Args) (st2 : State) : Prop :=
  exists st_b,
    module_level E st0 = (st_b, Ok tt) /\
    parse_items argv default_args = Parsed args /\
    reconcile_log_file E (log_file_arg args) st_b = (st2, Ok tt).

(** The numeric level that the script applies for a level name. *)
Definition numeric_level (level : string) : Z :=
  getattr_logging (Str.upper level) INFO.

(** The log calls of lines 152 to 157 in the state [st]. *)
Definition startup_lines (args : Args) (level : string) (st : State)
    : list (string * Z * string) :=
  [(logger, INFO,
    "Starting DeerFlow API server on " +:+ host args +:+ ":" +:+ Str.str_of_Z (port args));
   (logger, INFO, "Log level: " +:+ Str.upper level)] ++
  match List.filter (is_rotating (heap st)) (root_handlers st) with
  | h :: _ =>
      [(logger, INFO, "Log file: " +:+ default EmptyString (h_target <$> heap st !! h))]
  | [] => []
  end.

(** Log calls and what they emit. *)
Definition is_log_event (e : event) : bool :=
  match e with
  | EvLogCall _ _ _ | EvEmit _ _ _ _ => true
  | _ => false
  end.

(** The events of setting the level of the handlers [hs]. *)
Definition level_events (l : Z) (hs : list hid) : list event :=
  map (fun h => EvSetHandlerLevel h l) hs.

(** The three packages of lines 168 to 170. *)
Definition debug_packages : list string := ["src"; "langchain"; "langgraph"].

(** The message of the handler of lines 66 to 69. *)
Definition shutdown_message : string :=
  "Received shutdown signal. Starting graceful shutdown...".

(** What [handle_shutdown] logs for a signal, in the state [st]. *)
Definition shutdown_log_calls (s : signum) (st : State) : list (string * Z * string) :=
  log_calls (new_events st (handle_shutdown s st).1).

(** The reading of the specification: the logged message tells the two
    signals apart. *)
Definition handler_identifies_signal (st : State) : Prop :=
  forall s1 s2, s1 <> s2 -> shutdown_log_calls s1 st <> shutdown_log_calls s2 st.

(** As [plain_env], but the server cannot bind its port. *)
Definition failing_env : Env :=
  {| os_name := "posix"; getenv_DEBUG := None;
     mkdir_error := fun _ _ => None; open_error := fun _ _ => None;
     abspath := fun p => "/srv/" +:+ p; path_parent := fun _ => ".";
     serve := fun _ =>
       ServeRaises {| exc_cls := OSError;
                      exc_msg := "[Errno 98] address already in use" |} |}.

(** As [plain_env], but a signal arrives while the server runs. *)
Definition signalled_env (s : signum) : Env :=
  {| os_name := "posix"; getenv_DEBUG := None;
     mkdir_error := fun _ _ => None; open_error := fun _ _ => None;
     abspath := fun p => "/srv/" +:+ p; path_parent := fun _ => ".";
     serve := fun _ => ServeSignal s |}.

(** As [plain_env], with the variable DEBUG set. *)
Definition debug_env (v : string) : Env :=
  {| os_name := "posix"; getenv_DEBUG := Some v;
     mkdir_error := fun _ _ => None; open_error := fun _ _ => None;
     abspath := fun p => "/srv/" +:+ p; path_parent := fun _ => ".";
     serve := fun _ => ServeReturns |}.

(** The first startup line, line 152. *)
Definition bind_address_line (args : Args) : string :=
  "Starting DeerFlow API server on " +:+ host args +:+ ":" +:+ Str.str_of_Z (port args).

(** The reading of the specification: in the events of the script, the log
    call of the first startup line comes after the effective level has been
    set on the root logger. *)
Definition level_applied_before_startup_lines (E : Env) (argv : list cli_item)
    (st0 : State) : Prop :=
  forall args i,
    parse_items argv default_args = Parsed args ->
    let tr := new_events st0 (script E argv st0).1 in
    tr !! i = Some (EvLogCall logger INFO (bind_address_line args)) ->
    exists j, (j < i)%nat /\
      tr !! j = Some (EvSetRootLevel (numeric_level (effective_log_level E args))).

(** ** Vocabulary for the port *)

(** The range that the specification gives for a port. *)
Definition port_in_range (p : Z) : bool := (1 <=? p) && (p <=? 65535).

Definition set_port (p : Z) (a : Args) : Args :=
  {| reload := reload a; host := host a; port := p;
     log_level := log_level a; log_file_arg := log_file_arg a |}.

(** The reading of the specification: a [--port] value that is an integer
    outside the range ends the process with a non-zero status while no sink
    is attached to the root logger. *)
Definition out_of_range_port_rejected (E : Env) (v : string) (st0 : State) : Prop :=
  forall p, Str.py_int v = Some p -> port_in_range p = false ->
    (exists c, (run E [OptPort v] st0).2 = Exit c /\ c <> 0) /\
    root_handlers (run E [OptPort v] st0).1 = [].

(** ** Vocabulary for what the sinks receive *)

(** The emission of one record to each handler of [hs], in order. *)
Definition emissions (hs : list hid) (name : string) (level : Z) (msg : string)
    : list event :=
  map (fun h => EvEmit h name level msg) hs.

(** A log call followed by its emission to each handler of [hs]. *)
Definition emitted_call (hs : list hid) (c : string * Z * string) : list event :=
  match c with
  | (name, level, msg) => EvLogCall name level msg :: emissions hs name level msg
  end.

(** The state in which the server is called: after the startup lines, the
    levels and the debug packages. *)
Definition before_serve (args : Args) (level : string) (st : State) : State :=
  (enable_debug_packages level
     (apply_level level (log_startup_lines args level st).1).1).1.

(** The calls of the server among some events. *)
Fixpoint serve_calls (es : list event) : list serve_args :=
  match es with
  | [] => []
  | EvServe a :: r => a :: serve_calls r
  | _ :: r => serve_calls r
  end.

(** A computation that appends events without a call of the server. *)
Definition no_serve (st st' : State) : Prop :=
  exists es, trace st' = trace st ++ es /\ serve_calls es = [].

(** The message of line 171. *)
Definition debug_enabled_message : string :=
  "DEBUG logging enabled for src, langchain, and langgraph packages - detailed diagnostic information will be logged".

(** The message of line 62. *)
Definition windows_policy_message : string :=
  "Setting Windows event loop policy for asyncio".

(** As [plain_env], on Windows. *)
Definition windows_env : Env :=
  {| os_name := "nt"; getenv_DEBUG := None;
     mkdir_error := fun _ _ => None; open_error := fun _ _ => None;
     abspath := fun p => "C:/srv/" +:+ p; path_parent := fun _ => ".";
     serve := fun _ => ServeReturns |}.

(** As [plain_env], but the log directory cannot be made. *)
Definition readonly_env : Env :=
  {| os_name := "posix"; getenv_DEBUG := None;
     mkdir_error := fun _ _ => Some "Read-only file system";
     open_error := fun _ _ => None;
     abspath := fun p => "/srv/" +:+ p; path_parent := fun _ => ".";
     serve := fun _ => ServeReturns |}.

(** As [plain_env], but the default log file cannot be opened. *)
Definition locked_env : Env :=
  {| os_name := "posix"; getenv_DEBUG := None;
     mkdir_error := fun _ _ => None;
     open_error := fun s _ =>
       match s with AtImport => Some "Permission denied" | AtReconcile => None end;
     abspath := fun p => "/srv/" +:+ p; path_parent := fun _ => ".";
     serve := fun _ => ServeReturns |}.

(** As [plain_env], but the server is interrupted from the keyboard while
    the default disposition of SIGINT would apply: the call raises
    KeyboardInterrupt, which is not an instance of Exception. *)
Definition interrupted_env : Env :=
  {| os_name := "posix"; getenv_DEBUG := None;
     mkdir_error := fun _ _ => None; open_error := fun _ _ => None;
     abspath := fun p => "/srv/" +:+ p; path_parent := fun _ => ".";
     serve := fun _ =>
       ServeRaises {| exc_cls := OtherBaseException; exc_msg := "KeyboardInterrupt" |} |}.

(** As [plain_env], but the parent directory of a custom log file cannot
    be made. *)
Definition nodir_env : Env :=
  {| os_name := "posix"; getenv_DEBUG := None;
     mkdir_error := fun s _ =>
       match s with AtReconcile => Some "Not a directory" | AtImport => None end;
     open_error := fun _ _ => None;
     abspath := fun p => "/srv/" +:+ p; path_parent := fun _ => "/etc/passwd";
     serve := fun _ => ServeReturns |}.

(** As [plain_env], but the server ends the process itself: the call raises
    SystemExit(3), which is not an instance of Exception. *)
Definition exiting_env : Env :=
  {| os_name := "posix"; getenv_DEBUG := None;
     mkdir_error := fun _ _ => None; open_error := fun _ _ => None;
     abspath := fun p => "/srv/" +:+ p; path_parent := fun _ => ".";
     serve := fun _ => ServeRaises {| exc_cls := SystemExit 3; exc_msg := "3" |} |}.

(** The reading of the specification: whatever exception the call of the
    server raises, the script logs it at ERROR and the process exits with
    status 1. *)
Definition any_exception_logged_and_exits_1 (E : Env) (argv : list cli_item)
    (st0 : State) : Prop :=
  forall args st2 e,
    reaches_server E argv st0 args st2 ->
    serve E (serve_args_of args (effective_log_level E args)) = ServeRaises e ->
    (run E argv st0).2 = Exit 1 /\
    exists msg, In (logger, ERROR, msg) (log_calls (new_events st0 (run E argv st0).1)).

(** * Properties *)

(** ** Sanity checks of the string functions *)

Example py_int_99999 : Str.py_int "99999" = Some 99999.
Proof. reflexivity. Qed.

Example py_int_samples :
  Str.py_int " -1_000 " = Some (-1000) /\ Str.py_int "007" = Some 7 /\
  Str.py_int "0" = Some 0 /\ Str.py_int "8o" = None /\
  Str.py_int "1__0" = None /\ Str.py_int EmptyString = None /\
  Str.py_int "+" = None /\ Str.py_int "1 2" = None.
Proof. repeat split; reflexivity. Qed.

(** The separators 28 to 31 are not skipped; digits and white space outside
    ASCII are taken (here ARABIC-INDIC DIGIT THREE and ZERO, and a no-break
    space after 12); bytes that are not UTF-8 are refused. *)
Example py_int_beyond_ascii :
  Str.py_int (String (ascii_of_nat 31) "12") = None /\
  Str.py_int (string_of_list_ascii (map ascii_of_nat [217; 163; 217; 160]%nat)) = Some 30 /\
  Str.py_int (string_of_list_ascii (map ascii_of_nat [49; 50; 194; 160]%nat)) = Some 12 /\
  Str.py_int (string_of_list_ascii (map ascii_of_nat [49; 255]%nat)) = None.
Proof. repeat split; vm_compute; reflexivity. Qed.

(** The bound on the number of digits counts leading zeros. *)
Example py_int_digit_bound :
  Str.py_int (string_of_list_ascii (repeat "0"%char 4300)) = Some 0 /\
  Str.py_int (string_of_list_ascii (repeat "0"%char 4301)) = None.
Proof. split; vm_compute; reflexivity. Qed.

Example str_of_Z_samples :
  Str.str_of_Z 8000 = "8000" /\ Str.str_of_Z 0 = "0" /\ Str.str_of_Z (-5) = "-5".
Proof. repeat split; reflexivity. Qed.

Example lower_upper_samples :
  Str.lower "TrUe" = "true" /\ Str.upper "warning" = "WARNING" /\
  Str.lower "Yes1_" = "yes1_".
Proof. repeat split; reflexivity. Qed.


(** ** Sanity checks of the command line

    The help wins over an argument that is not recognised, wherever it
    stands; an error of a declared option is reported where it occurs; the
    arguments that are not recognised are reported together, at the end. *)
Example parse_items_samples :
  parse_items [Unrecognized "--bogus"; OptHelp] default_args = HelpExit /\
  parse_items [OptHelp; Unrecognized "--bogus"] default_args = HelpExit /\
  parse_items [Unrecognized "--bogus"; OptPort "x"] default_args
    = UsageError "--port" "x" /\
  parse_items [Malformed "--port"; OptHelp] default_args
    = UsageError "--port" EmptyString /\
  parse_items [Unrecognized "--bogus"; Unrecognized "5"; OptPort "7"] default_args
    = UsageError "unrecognized arguments" "--bogus 5".
Proof. repeat split; reflexivity. Qed.


(** ** Case-insensitive comparison *)

Module StrFacts.
Import Str.

Lemma nat_of_ascii_inj a b : nat_of_ascii a = nat_of_ascii b -> a = b.
Proof.
  intros H. rewrite <- (ascii_nat_embedding a), <- (ascii_nat_embedding b).
  now rewrite H.
Qed.

Lemma is_upper_bounds c :
  is_upper c = true <-> (65 <= nat_of_ascii c <= 90)%nat.
Proof.
  unfold is_upper. cbv zeta.
  rewrite andb_true_iff, !Nat.leb_le. tauto.
Qed.

Lemma nat_of_lower_upper c :
  is_upper c = true -> nat_of_ascii (ascii_lower c) = (nat_of_ascii c + 32)%nat.
Proof.
  intros Hu. unfold ascii_lower. rewrite Hu.
  apply is_upper_bounds in Hu.
  apply nat_ascii_embedding. lia.
Qed.

(** Folding the left character to lower case and comparing with a character
    that is not an upper-case letter is comparing up to case. *)
Lemma ascii_lower_eq_ci a b :
  is_upper b = false -> (ascii_lower a = b <-> ascii_eq_ci a b = true).
Proof.
  intros Hb. unfold ascii_eq_ci. rewrite Hb, andb_false_l, orb_false_r.
  destruct (is_upper a) eqn:Ha.
  - rewrite andb_true_l, orb_true_iff, Ascii.eqb_eq, Nat.eqb_eq. split.
    + intros <-. right. symmetry. now apply nat_of_lower_upper.
    + intros [-> | Hn]; [congruence |].
      apply nat_of_ascii_inj. rewrite nat_of_lower_upper by assumption. lia.
  - rewrite andb_false_l, orb_false_r, Ascii.eqb_eq.
    unfold ascii_lower. now rewrite Ha.
Qed.

Lemma lower_eq_ci t : no_upper t = true -> forall s, lower s = t <-> eq_ci s t = true.
Proof.
  induction t as [| b t IH]; intros Hn s.
  - destruct s; simpl; split; intros; congruence.
  - simpl in Hn. apply andb_true_iff in Hn as [Hb Ht].
    apply negb_true_iff in Hb.
    destruct s as [| a s]; simpl; [split; intros; congruence |].
    rewrite andb_true_iff, <- (IH Ht s), <- (ascii_lower_eq_ci a b Hb).
    split; [intros [= -> ->]; auto | intros [-> ->]; reflexivity].
Qed.

Lemma str_in_spec x l : str_in x l = true <-> In x l.
Proof.
  induction l as [| y l IH]; simpl; [split; [discriminate | tauto] |].
  rewrite orb_true_iff, String.eqb_eq, IH. split; intros [H | H]; auto.
Qed.

(** The test of line 118 decides case-insensitive membership. *)
Lemma lower_in_truthy s :
  str_in (lower s) ["true"; "1"; "yes"] = existsb (eq_ci s) ["true"; "1"; "yes"].
Proof.
  apply eq_true_iff_eq.
  rewrite str_in_spec, existsb_exists. split.
  - intros Hin. exists (lower s). split; [exact Hin |].
    simpl in Hin.
    destruct Hin as [H | [H | [H | []]]];
      (apply lower_eq_ci; [rewrite <- H |]; reflexivity).
  - intros (t & Hin & Hci).
    assert (Hl : lower s = t).
    { simpl in Hin. destruct Hin as [<- | [<- | [<- | []]]];
        apply lower_eq_ci; (reflexivity || exact Hci). }
    now rewrite Hl.
Qed.

End StrFacts.

(** ** Reasoning about computations *)

Lemma bind_ok {A B} (m : M A) (k : A -> M B) st st1 a :
  m st = (st1, Ok a) -> bind m k st = k a st1.
Proof. intros H. unfold bind. now rewrite H. Qed.

Lemma bind_fail {A B} (m : M A) (k : A -> M B) st st1 e :
  m st = (st1, Raise e) -> bind m k st = (st1, Raise e).
Proof. intros H. unfold bind. now rewrite H. Qed.

Lemma bind_returns {A B} (m : M A) (k : A -> M B) :
  returns m -> (forall a, returns (k a)) -> returns (bind m k).
Proof.
  intros Hm Hk st. destruct (Hm st) as [a Ha].
  destruct (m st) as [st1 r] eqn:E. simpl in Ha. subst r.
  rewrite (bind_ok _ _ _ _ _ E). apply Hk.
Qed.

Lemma modify_returns f : returns (modify f).
Proof. intros st. now exists tt. Qed.

Lemma ret_returns {A} (a : A) : returns (ret a).
Proof. intros st. now exists a. Qed.

Lemma get_returns : returns get.
Proof. intros st. now exists st. Qed.

(** When the first computation returns, the sequence continues from the
    state it leaves. *)
Lemma bind_unit_returns {B} (m : M unit) (k : unit -> M B) st :
  returns m -> bind m k st = k tt (m st).1.
Proof.
  intros Hm. destruct (Hm st) as [[] Ha].
  destruct (m st) as [st1 r] eqn:E. simpl in Ha. subst r.
  now rewrite (bind_ok _ _ _ _ _ E).
Qed.

Section Stable.
Context (R : State -> State -> Prop) {HR : PreOrder R}.

Lemma stable_ret {A} (a : A) : stable R (ret a).
Proof. intros st. simpl. reflexivity. Qed.

Lemma stable_raise {A} e : stable R (@raise A e).
Proof. intros st. simpl. reflexivity. Qed.

Lemma stable_sys_exit {A} c : stable R (@sys_exit A c).
Proof. apply stable_raise. Qed.

Lemma stable_get : stable R get.
Proof. intros st. simpl. reflexivity. Qed.

Lemma stable_modify f : (forall st, R st (f st)) -> stable R (modify f).
Proof. intros H st. apply H. Qed.

Lemma stable_bind {A B} (m : M A) (k : A -> M B) :
  stable R m -> (forall a, stable R (k a)) -> stable R (bind m k).
Proof.
  intros Hm Hk st. unfold bind.
  specialize (Hm st). destruct (m st) as [st1 [a | e]]; simpl in *.
  - etransitivity; [exact Hm | apply Hk].
  - exact Hm.
Qed.

Lemma stable_try body handler :
  stable R body -> (forall e, stable R (handler e)) ->
  stable R (try_except_Exception body handler).
Proof.
  intros Hb Hh st. unfold try_except_Exception.
  specialize (Hb st). destruct (body st) as [st1 [[] | e]]; simpl in *.
  - exact Hb.
  - destruct (is_Exception e); simpl; [| exact Hb].
    etransitivity; [exact Hb | apply Hh].
Qed.
End Stable.

(** ** The four frame relations are preorders *)

Lemma same_but_level_refl H : same_but_level H H.
Proof. repeat split. Qed.

Lemma same_but_level_trans H1 H2 H3 :
  same_but_level H1 H2 -> same_but_level H2 H3 -> same_but_level H1 H3.
Proof.
  unfold same_but_level. intros (a1 & a2 & a3 & a4 & a5 & a6 & a7)
    (b1 & b2 & b3 & b4 & b5 & b6 & b7).
  repeat split; congruence.
Qed.

Lemma same_but_level_set l H : same_but_level H (set_h_level l H).
Proof. repeat split. Qed.

#[local] Instance quiet_preorder : PreOrder quiet.
Proof.
  split.
  - intros st. unfold quiet. repeat split.
    + intros h H Hh. exists H. split; [exact Hh | apply same_but_level_refl].
    + exists []. split; [now rewrite app_nil_r | reflexivity].
  - intros s1 s2 s3 (Ha & La & Pa & ea & Ta & Qa) (Hb & Lb & Pb & eb & Tb & Qb).
    unfold quiet. repeat split; [congruence | congruence | |].
    + intros h H Hh. destruct (Pa h H Hh) as (H2 & Hh2 & S12).
      destruct (Pb h H2 Hh2) as (H3 & Hh3 & S23).
      exists H3. split; [exact Hh3 | eapply same_but_level_trans; eassumption].
    + exists (ea ++ eb). split.
      * now rewrite Tb, Ta, app_assoc.
      * rewrite forallb_app, Qa, Qb. reflexivity.
Qed.

#[local] Instance keeps_loggers_preorder : PreOrder keeps_loggers.
Proof.
  split; [intros st; reflexivity |].
  intros s1 s2 s3 Ha Hb. unfold keeps_loggers in *. congruence.
Qed.

#[local] Instance keeps_levels_preorder : PreOrder keeps_levels.
Proof.
  split; [intros st; repeat split |].
  intros s1 s2 s3 (a1 & a2 & a3) (b1 & b2 & b3). repeat split; congruence.
Qed.

#[local] Instance keeps_signals_preorder : PreOrder keeps_signals.
Proof.
  split; [intros st; repeat split |].
  intros s1 s2 s3 (a1 & a2) (b1 & b2). repeat split; congruence.
Qed.

(** ** The primitives against the frame relations *)

Create HintDb stable.

Lemma callHandlers_quiet name level msg st :
  forallb quiet_event (callHandlers name level msg st) = true.
Proof.
  unfold callHandlers. induction (root_handlers st) as [| h hs IH]; [reflexivity |].
  simpl. rewrite forallb_app, IH, andb_true_r.
  destruct (heap st !! h) as [H |]; [| reflexivity].
  now destruct (Z.leb (h_level H) level).
Qed.

Lemma log_events_quiet name level msg st :
  forallb quiet_event
    (EvLogCall name level msg ::
     (if isEnabledFor name level st then callHandlers name level msg st else [])) = true.
Proof.
  simpl. destruct (isEnabledFor name level st); [apply callHandlers_quiet | reflexivity].
Qed.

(** A state change that keeps the handlers and the heap and appends quiet
    events. *)
Lemma quiet_intro st st' es :
  root_handlers st' = root_handlers st -> heap st' = heap st ->
  trace st' = trace st ++ es -> forallb quiet_event es = true ->
  quiet st st'.
Proof.
  intros Hh Hp Ht Hq. unfold quiet. rewrite Hh, Hp. repeat split.
  - intros h H Hl. exists H. split; [exact Hl | apply same_but_level_refl].
  - now exists es.
Qed.

Lemma quiet_log name level msg : stable quiet (log name level msg).
Proof.
  apply stable_modify. intros st.
  eapply quiet_intro; [reflexivity | reflexivity | reflexivity | apply log_events_quiet].
Qed.

Lemma quiet_emit e : quiet_event e = true -> stable quiet (emit e).
Proof.
  intros He. apply stable_modify. intros st.
  eapply quiet_intro; [reflexivity | reflexivity | reflexivity |].
  simpl. now rewrite He.
Qed.

Lemma quiet_root_setLevel l : stable quiet (root_setLevel l).
Proof.
  apply stable_modify. intros st.
  eapply quiet_intro; reflexivity.
Qed.

Lemma quiet_Logger_setLevel name l : stable quiet (Logger_setLevel name l).
Proof.
  apply stable_modify. intros st.
  eapply quiet_intro; reflexivity.
Qed.

Lemma quiet_signal_signal s : stable quiet (signal_signal s).
Proof.
  apply stable_modify. intros st.
  apply (quiet_intro _ _ []); [reflexivity | reflexivity | | reflexivity].
  simpl. now rewrite app_nil_r.
Qed.

Lemma quiet_Handler_setLevel h l : stable quiet (Handler_setLevel h l).
Proof.
  apply stable_modify. intros st. unfold quiet. simpl. repeat split.
  - apply length_alter.
  - intros h' H Hl. destruct (decide (h = h')) as [<- | Hne].
    + exists (set_h_level l H). rewrite list_lookup_alter_eq, Hl.
      split; [reflexivity | apply same_but_level_set].
    + exists H. rewrite list_lookup_alter_ne by assumption.
      split; [exact Hl | apply same_but_level_refl].
  - exists [EvSetHandlerLevel h l]. split; reflexivity.
Qed.

Lemma quiet_set_handler_levels hs l : stable quiet (set_handler_levels hs l).
Proof.
  induction hs as [| h hs IH]; simpl.
  - apply stable_ret; apply _.
  - apply stable_bind; [apply _ | apply quiet_Handler_setLevel | intros _; exact IH].
Qed.

#[local] Hint Resolve quiet_log quiet_emit quiet_root_setLevel quiet_Logger_setLevel
  quiet_signal_signal quiet_Handler_setLevel quiet_set_handler_levels : stable.

(** One step of the decomposition of a computation along its syntax. *)
Ltac stable_step :=
  first
    [ apply stable_ret; apply _
    | apply stable_raise; apply _
    | apply stable_sys_exit; apply _
    | apply stable_get; apply _
    | apply stable_bind; [apply _ | | intros ?]
    | apply stable_try; [apply _ | | intros ?]
    | solve [auto with stable]
    | match goal with
      | |- stable _ (if ?c then _ else _) => destruct c
      | |- stable _ (match ?x with _ => _ end) => destruct x
      end ].

Ltac stable_auto := repeat stable_step.

Lemma quiet_handle_shutdown s : stable quiet (handle_shutdown s).
Proof. unfold handle_shutdown. stable_auto. Qed.

Lemma quiet_deliver s : stable quiet (deliver s).
Proof. pose proof quiet_handle_shutdown. unfold deliver. stable_auto. Qed.

Lemma quiet_windows_policy E : stable quiet (windows_policy E).
Proof. unfold windows_policy. stable_auto. Qed.

Lemma quiet_register_signals : stable quiet register_signals.
Proof. unfold register_signals. stable_auto. Qed.

Lemma quiet_parse_args argv : stable quiet (parse_args argv).
Proof. unfold parse_args. stable_auto. Qed.

Lemma quiet_log_startup_lines args level : stable quiet (log_startup_lines args level).
Proof. unfold log_startup_lines. stable_auto. Qed.

Lemma quiet_apply_level level : stable quiet (apply_level level).
Proof. unfold apply_level. stable_auto. Qed.

Lemma quiet_enable_debug_packages level : stable quiet (enable_debug_packages level).
Proof. unfold enable_debug_packages. stable_auto. Qed.

Lemma quiet_uvicorn_run E a : stable quiet (uvicorn_run E a).
Proof. pose proof quiet_deliver. unfold uvicorn_run. stable_auto. Qed.

Lemma quiet_start_server E args level : stable quiet (start_server E args level).
Proof.
  pose proof quiet_log_startup_lines. pose proof quiet_apply_level.
  pose proof quiet_enable_debug_packages. pose proof quiet_uvicorn_run.
  unfold start_server. stable_auto.
Qed.

(** The other three relations hold of a primitive by computation. *)
Ltac by_modify :=
  intros; apply stable_modify; intros ?; repeat split; reflexivity.

Lemma loggers_log name level msg : stable keeps_loggers (log name level msg).
Proof. by_modify. Qed.
Lemma loggers_emit e : stable keeps_loggers (emit e).
Proof. by_modify. Qed.
Lemma loggers_root_setLevel l : stable keeps_loggers (root_setLevel l).
Proof. by_modify. Qed.
Lemma loggers_handlers_clear : stable keeps_loggers handlers_clear.
Proof. by_modify. Qed.
Lemma loggers_Handler_setLevel h l : stable keeps_loggers (Handler_setLevel h l).
Proof. by_modify. Qed.
Lemma loggers_Handler_setFormatter h f : stable keeps_loggers (Handler_setFormatter h f).
Proof. by_modify. Qed.
Lemma loggers_Handler_close h : stable keeps_loggers (Handler_close h).
Proof. by_modify. Qed.
Lemma loggers_addHandler h : stable keeps_loggers (addHandler h).
Proof. by_modify. Qed.
Lemma loggers_removeHandler h : stable keeps_loggers (removeHandler h).
Proof. by_modify. Qed.
Lemma loggers_signal_signal s : stable keeps_loggers (signal_signal s).
Proof. by_modify. Qed.
Lemma loggers_new_handler H : stable keeps_loggers (new_handler H).
Proof. intros st. reflexivity. Qed.

#[local] Hint Resolve loggers_log loggers_emit loggers_root_setLevel loggers_handlers_clear
  loggers_Handler_setLevel loggers_Handler_setFormatter loggers_Handler_close
  loggers_addHandler loggers_removeHandler loggers_signal_signal loggers_new_handler : stable.

Lemma levels_log name level msg : stable keeps_levels (log name level msg).
Proof. by_modify. Qed.
Lemma levels_emit e : stable keeps_levels (emit e).
Proof. by_modify. Qed.
Lemma levels_Logger_setLevel name l : stable keeps_levels (Logger_setLevel name l).
Proof. by_modify. Qed.
Lemma levels_signal_signal s : stable keeps_levels (signal_signal s).
Proof. by_modify. Qed.

#[local] Hint Resolve levels_log levels_emit levels_Logger_setLevel levels_signal_signal : stable.

Lemma signals_log name level msg : stable keeps_signals (log name level msg).
Proof. by_modify. Qed.
Lemma signals_emit e : stable keeps_signals (emit e).
Proof. by_modify. Qed.
Lemma signals_root_setLevel l : stable keeps_signals (root_setLevel l).
Proof. by_modify. Qed.
Lemma signals_handlers_clear : stable keeps_signals handlers_clear.
Proof. by_modify. Qed.
Lemma signals_Handler_setLevel h l : stable keeps_signals (Handler_setLevel h l).
Proof. by_modify. Qed.
Lemma signals_Handler_setFormatter h f : stable keeps_signals (Handler_setFormatter h f).
Proof. by_modify. Qed.
Lemma signals_Handler_close h : stable keeps_signals (Handler_close h).
Proof. by_modify. Qed.
Lemma signals_addHandler h : stable keeps_signals (addHandler h).
Proof. by_modify. Qed.
Lemma signals_removeHandler h : stable keeps_signals (removeHandler h).
Proof. by_modify. Qed.
Lemma signals_Logger_setLevel name l : stable keeps_signals (Logger_setLevel name l).
Proof. by_modify. Qed.
Lemma signals_new_handler H : stable keeps_signals (new_handler H).
Proof. intros st. split; reflexivity. Qed.

#[local] Hint Resolve signals_log signals_emit signals_root_setLevel signals_handlers_clear
  signals_Handler_setLevel signals_Handler_setFormatter signals_Handler_close
  signals_addHandler signals_removeHandler signals_Logger_setLevel signals_new_handler : stable.

Lemma loggers_set_handler_levels hs l : stable keeps_loggers (set_handler_levels hs l).
Proof. induction hs; simpl; stable_auto. Qed.

Lemma signals_set_handler_levels hs l : stable keeps_signals (set_handler_levels hs l).
Proof. induction hs; simpl; stable_auto. Qed.

Lemma loggers_remove_file_handlers copy : stable keeps_loggers (remove_file_handlers copy).
Proof. induction copy; simpl; stable_auto. Qed.

Lemma signals_remove_file_handlers copy : stable keeps_signals (remove_file_handlers copy).
Proof. induction copy; simpl; stable_auto. Qed.

#[local] Hint Resolve loggers_set_handler_levels signals_set_handler_levels
  loggers_remove_file_handlers signals_remove_file_handlers : stable.

Lemma loggers_mkdir E s p : stable keeps_loggers (mkdir E s p).
Proof. unfold mkdir. stable_auto. Qed.

Lemma signals_mkdir E s p : stable keeps_signals (mkdir E s p).
Proof. unfold mkdir. stable_auto. Qed.

Lemma loggers_new_RotatingFileHandler E s p a b c :
  stable keeps_loggers (new_RotatingFileHandler E s p a b c).
Proof. unfold new_RotatingFileHandler. stable_auto. Qed.

Lemma signals_new_RotatingFileHandler E s p a b c :
  stable keeps_signals (new_RotatingFileHandler E s p a b c).
Proof. unfold new_RotatingFileHandler. stable_auto. Qed.

#[local] Hint Resolve loggers_mkdir signals_mkdir loggers_new_RotatingFileHandler
  signals_new_RotatingFileHandler : stable.

(** The import and the reconciliation leave the named loggers alone. *)
Lemma loggers_module_level E : stable keeps_loggers (module_level E).
Proof.
  unfold module_level, setup_logging, windows_policy, register_signals, new_StreamHandler.
  stable_auto.
Qed.

Lemma loggers_parse_args argv : stable keeps_loggers (parse_args argv).
Proof. unfold parse_args. stable_auto. Qed.

Lemma loggers_reconcile_log_file E arg : stable keeps_loggers (reconcile_log_file E arg).
Proof. unfold reconcile_log_file. stable_auto. Qed.

Lemma loggers_log_startup_lines args level : stable keeps_loggers (log_startup_lines args level).
Proof. unfold log_startup_lines. stable_auto. Qed.

Lemma loggers_apply_level level : stable keeps_loggers (apply_level level).
Proof. unfold apply_level. stable_auto. Qed.

Lemma loggers_uvicorn_run E a : stable keeps_loggers (uvicorn_run E a).
Proof. unfold uvicorn_run, deliver, handle_shutdown. stable_auto. Qed.

(** After the level is applied, nothing changes the level of the root
    logger or of a handler. *)
Lemma levels_enable_debug_packages level : stable keeps_levels (enable_debug_packages level).
Proof. unfold enable_debug_packages. stable_auto. Qed.

Lemma levels_uvicorn_run E a : stable keeps_levels (uvicorn_run E a).
Proof. unfold uvicorn_run, deliver, handle_shutdown. stable_auto. Qed.

(** ** The import, exactly *)

Lemma alter_last (hp : list Handler) f H :
  alter f (length hp) (hp ++ [H]) = hp ++ [f H].
Proof.
  rewrite <- (Nat.add_0_r (length hp)). now rewrite alter_app_r.
Qed.

Lemma length_snoc (hp : list Handler) H : length (hp ++ [H]) = S (length hp).
Proof. rewrite length_app. simpl. lia. Qed.

Lemma heap_at_0 (hp : list Handler) x l : (hp ++ x :: l) !! length hp = Some x.
Proof. now rewrite list_lookup_middle. Qed.

Lemma heap_at_1 (hp : list Handler) x y l : (hp ++ x :: y :: l) !! S (length hp) = Some y.
Proof.
  change (hp ++ x :: y :: l) with (hp ++ [x] ++ y :: l).
  rewrite app_assoc. rewrite list_lookup_middle; [reflexivity |].
  now rewrite length_snoc.
Qed.

Lemma heap_at_2 (hp : list Handler) x y z l :
  (hp ++ x :: y :: z :: l) !! S (S (length hp)) = Some z.
Proof.
  change (hp ++ x :: y :: z :: l) with (hp ++ [x; y] ++ z :: l).
  rewrite app_assoc. rewrite list_lookup_middle; [reflexivity |].
  rewrite length_app. simpl. lia.
Qed.

Lemma setup_logging_mkdir_fails E st m :
  mkdir_error E AtImport log_dir = Some m ->
  setup_logging E st = (st, Raise {| exc_cls := OSError; exc_msg := m |}).
Proof.
  intros Hm. unfold setup_logging, mkdir. rewrite Hm. reflexivity.
Qed.

(** Evaluation of the state updates, arguments first, leaving the list
    functions alone. *)
Ltac eval_state :=
  cbv beta iota zeta delta
    [bind modify ret raise get emit sys_exit
     record_event record_events with_root_level with_root_handlers with_heap
     with_logger_levels with_signal update_handler
     root_setLevel handlers_clear new_handler Handler_setLevel Handler_setFormatter
     Handler_close addHandler removeHandler Logger_setLevel signal_signal log
     root_level root_handlers heap logger_levels on_sigterm on_sigint trace
     fst snd].

(** The four lines that build and attach a sink from a fresh handler object. *)
Lemma attach_sink H0 st :
  (h ← new_handler H0 ;
   Handler_setLevel h INFO ;;
   Handler_setFormatter h the_formatter ;;
   addHandler h) st =
  ({| root_level := root_level st;
      root_handlers := add_to (length (heap st)) (root_handlers st);
      heap := heap st ++ [set_h_formatter the_formatter (set_h_level INFO H0)];
      logger_levels := logger_levels st;
      on_sigterm := on_sigterm st; on_sigint := on_sigint st;
      trace := trace st ++ sink_events (length (heap st)) |}, Ok tt).
Proof.
  destruct st as [rl rh hp ll st_ si tr]. eval_state.
  rewrite !alter_last. rewrite <- !app_assoc. reflexivity.
Qed.

Lemma attach_sink_then {B} H0 (k : hid -> M B) st :
  (h ← new_handler H0 ;
   Handler_setLevel h INFO ;;
   Handler_setFormatter h the_formatter ;;
   addHandler h ;;
   k h) st =
  k (length (heap st))
    {| root_level := root_level st;
       root_handlers := add_to (length (heap st)) (root_handlers st);
       heap := heap st ++ [set_h_formatter the_formatter (set_h_level INFO H0)];
       logger_levels := logger_levels st;
       on_sigterm := on_sigterm st; on_sigint := on_sigint st;
       trace := trace st ++ sink_events (length (heap st)) |}.
Proof.
  destruct st as [rl rh hp ll st_ si tr]. eval_state.
  rewrite !alter_last. rewrite <- !app_assoc. reflexivity.
Qed.

Lemma bind_modify {B} f (k : unit -> M B) st : bind (modify f) k st = k tt (f st).
Proof. reflexivity. Qed.

Lemma bind_assoc {A B C} (m : M A) (k : A -> M B) (k' : B -> M C) st :
  bind (bind m k) k' st = bind m (fun a => bind (k a) k') st.
Proof. unfold bind. destruct (m st) as [st1 [a | e]]; reflexivity. Qed.

Lemma bind_get {B} (k : State -> M B) st : bind get k st = k st st.
Proof. reflexivity. Qed.

Lemma bind_ret {A B} (a : A) (k : A -> M B) st : bind (ret a) k st = k a st.
Proof. reflexivity. Qed.

Lemma bind_raise {A B} e (k : A -> M B) st : bind (raise e) k st = (st, Raise e).
Proof. reflexivity. Qed.

Lemma mem_succ n : mem (S n) [n] = false.
Proof. simpl. rewrite orb_false_r. apply Nat.eqb_neq. lia. Qed.

Lemma setup_logging_open_fails E st m :
  mkdir_error E AtImport log_dir = None ->
  open_error E AtImport log_file = Some m ->
  setup_logging E st = (console_state st, Raise {| exc_cls := OSError; exc_msg := m |}).
Proof.
  intros Hm Ho. unfold setup_logging, mkdir, new_StreamHandler, new_RotatingFileHandler.
  rewrite Hm, Ho. unfold emit, root_setLevel, handlers_clear.
  rewrite !bind_modify, attach_sink_then, bind_raise.
  destruct st as [rl rh hp ll st_ si tr]. eval_state.
  unfold console_state. cbn [heap root_handlers trace logger_levels on_sigterm on_sigint].
  rewrite <- !app_assoc. reflexivity.
Qed.

Lemma setup_logging_ok E st :
  mkdir_error E AtImport log_dir = None ->
  open_error E AtImport log_file = None ->
  setup_logging E st = (attached_state E st, Ok tt).
Proof.
  intros Hm Ho. unfold setup_logging, mkdir, new_StreamHandler, new_RotatingFileHandler.
  rewrite Hm, Ho. unfold emit, root_setLevel, handlers_clear.
  rewrite !bind_modify, attach_sink_then, attach_sink.
  destruct st as [rl rh hp ll st_ si tr]. eval_state.
  unfold attached_state. cbn [heap root_handlers trace logger_levels on_sigterm on_sigint].
  rewrite length_snoc. unfold add_to at 2. cbn [mem app].
  unfold add_to. rewrite mem_succ.
  rewrite <- !app_assoc. reflexivity.
Qed.

(** ** The loop that detaches the file sinks *)

Lemma remove_first_app_cons h pre rest :
  ~ In h pre -> remove_first h (pre ++ h :: rest) = pre ++ rest.
Proof.
  induction pre as [| x pre IH]; intros Hn; simpl.
  - now rewrite Nat.eqb_refl.
  - destruct (Nat.eqb x h) eqn:Hx.
    + apply Nat.eqb_eq in Hx. subst. exfalso. apply Hn. now left.
    + f_equal. apply IH. intros Hin. apply Hn. now right.
Qed.

Lemma is_rotating_alter_closed hp h h' :
  is_rotating (alter set_h_closed h hp) h' = is_rotating hp h'.
Proof.
  unfold is_rotating. destruct (decide (h = h')) as [<- | Hne].
  - rewrite list_lookup_alter_eq. destruct (hp !! h); reflexivity.
  - now rewrite list_lookup_alter_ne.
Qed.

Lemma is_rotating_alter_level l hp h h' :
  is_rotating (alter (set_h_level l) h hp) h' = is_rotating hp h'.
Proof.
  unfold is_rotating. destruct (decide (h = h')) as [<- | Hne].
  - rewrite list_lookup_alter_eq. destruct (hp !! h); reflexivity.
  - now rewrite list_lookup_alter_ne.
Qed.

Lemma set_h_closed_idem (o : option Handler) :
  set_h_closed <$> (set_h_closed <$> o) = set_h_closed <$> o.
Proof. now destruct o. Qed.

(** The loop over a copy [copy] of the handlers, started when the handlers
    are [pre ++ copy] and no handler of [pre] is a rotating-file sink: it
    always returns, every rotating-file sink of the copy is detached and
    closed, and nothing else changes. *)
Lemma remove_file_handlers_loop copy :
  forall st pre,
    root_handlers st = pre ++ copy ->
    (forall h, In h pre -> is_rotating (heap st) h = false) ->
    exists st',
      remove_file_handlers copy st = (st', Ok tt) /\
      root_handlers st' = pre ++ other_sinks (heap st) copy /\
      root_level st' = root_level st /\
      length (heap st') = length (heap st) /\
      (forall h, heap st' !! h =
                 if is_rotating (heap st) h && mem h copy
                 then set_h_closed <$> heap st !! h else heap st !! h) /\
      trace st' = trace st ++ detach_events (heap st) copy.
Proof.
  induction copy as [| h rest IH]; intros st pre Hhs Hpre.
  - exists st. simpl. repeat split.
    + now rewrite Hhs.
    + intros h. now rewrite andb_false_r.
    + now rewrite app_nil_r.
  - simpl remove_file_handlers. rewrite bind_get.
    destruct (is_rotating (heap st) h) eqn:Hr.
    + unfold removeHandler, Handler_close. rewrite bind_assoc, !bind_modify.
      match goal with |- context [remove_file_handlers rest ?s] => set (st1 := s) end.
      assert (Hrot : forall h', is_rotating (heap st1) h' = is_rotating (heap st) h').
      { intros h'. subst st1. simpl. apply is_rotating_alter_closed. }
      assert (Hh1 : root_handlers st1 = pre ++ rest).
      { subst st1. simpl. rewrite Hhs. apply remove_first_app_cons.
        intros Hin. apply Hpre in Hin. congruence. }
      destruct (IH st1 pre Hh1) as (st' & Hrun & Hhs' & Hrl & Hlen & Hheap & Htr).
      { intros h' Hin. rewrite Hrot. now apply Hpre. }
      exists st'. split; [exact Hrun |]. repeat split.
      * rewrite Hhs'. unfold other_sinks. simpl. rewrite Hr. simpl. f_equal.
        apply List.filter_ext. intros h'. now rewrite Hrot.
      * rewrite Hrl. reflexivity.
      * rewrite Hlen. subst st1. simpl. apply length_alter.
      * intros h'. rewrite Hheap, Hrot. subst st1. simpl.
        destruct (Nat.eqb h h') eqn:Heq.
        -- apply Nat.eqb_eq in Heq. subst h'. rewrite Hr. simpl.
           rewrite list_lookup_alter_eq.
           destruct (mem h rest); [apply set_h_closed_idem | reflexivity].
        -- apply Nat.eqb_neq in Heq. simpl.
           now rewrite list_lookup_alter_ne.
      * rewrite Htr. subst st1. simpl. unfold detach_events. simpl. rewrite Hr.
        rewrite <- !app_assoc. simpl. f_equal. f_equal. f_equal.
        apply flat_map_ext. intros h'.
        now rewrite is_rotating_alter_closed.
    + rewrite bind_ret.
      destruct (IH st (pre ++ [h])) as (st' & Hrun & Hhs' & Hrl & Hlen & Hheap & Htr).
      { rewrite Hhs, <- app_assoc. reflexivity. }
      { intros h' Hin. apply in_app_or in Hin as [Hin | [<- | []]]; auto. }
      exists st'. split; [exact Hrun |]. repeat split; try assumption.
      * rewrite Hhs'. unfold other_sinks. simpl. rewrite Hr. simpl.
        now rewrite <- app_assoc.
      * intros h'. rewrite Hheap. simpl.
        destruct (Nat.eqb h h') eqn:Heq; [| reflexivity].
        apply Nat.eqb_eq in Heq. subst h'. now rewrite Hr.
      * rewrite Htr. unfold detach_events. simpl. now rewrite Hr.
Qed.

Lemma remove_all_file_handlers st :
  exists st',
    (s ← get ; remove_file_handlers (root_handlers s)) st = (st', Ok tt) /\
    detached st st' /\
    trace st' = trace st ++ detach_events (heap st) (root_handlers st).
Proof.
  rewrite bind_get.
  destruct (remove_file_handlers_loop (root_handlers st) st [])
    as (st' & Hrun & Hhs & Hrl & Hlen & Hheap & Htr); [reflexivity | intros h [] |].
  exists st'. repeat split; assumption.
Qed.

(** ** The reconciliation of [--log-file], case by case *)

Lemma reconcile_absent E st : reconcile_log_file E None st = (st, Ok tt).
Proof. reflexivity. Qed.

Lemma reconcile_disable E st :
  exists st',
    reconcile_log_file E (Some EmptyString) st = (st', Ok tt) /\
    detached st st' /\
    trace st' = trace st ++ detach_events (heap st) (root_handlers st).
Proof. apply remove_all_file_handlers. Qed.

Lemma nonempty_eqb path : path <> EmptyString -> String.eqb path EmptyString = false.
Proof. intros H. now apply String.eqb_neq. Qed.

Lemma reconcile_mkdir_fails E path st m :
  path <> EmptyString ->
  mkdir_error E AtReconcile (path_parent E path) = Some m ->
  reconcile_log_file E (Some path) st = (st, Raise {| exc_cls := OSError; exc_msg := m |}).
Proof.
  intros Hp Hm. unfold reconcile_log_file, mkdir.
  rewrite (nonempty_eqb _ Hp), Hm. reflexivity.
Qed.

Lemma reconcile_open_fails E path st m :
  path <> EmptyString ->
  mkdir_error E AtReconcile (path_parent E path) = None ->
  open_error E AtReconcile path = Some m ->
  exists st',
    reconcile_log_file E (Some path) st =
      (st', Raise {| exc_cls := OSError; exc_msg := m |}) /\
    detached st st' /\
    trace st' = trace st ++ EvMkdir (path_parent E path)
                  :: detach_events (heap st) (root_handlers st).
Proof.
  intros Hp Hm Ho. unfold reconcile_log_file, mkdir, new_RotatingFileHandler.
  rewrite (nonempty_eqb _ Hp), Hm, Ho. unfold emit. rewrite bind_modify.
  rewrite <- bind_assoc.
  destruct (remove_all_file_handlers (record_event (EvMkdir (path_parent E path)) st))
    as (st' & Hrun & Hdet & Htr).
  rewrite (bind_ok _ _ _ _ _ Hrun), bind_raise.
  exists st'. split; [reflexivity |]. split; [exact Hdet |].
  rewrite Htr. simpl. now rewrite <- app_assoc.
Qed.

Lemma reconcile_custom_ok E path st :
  path <> EmptyString ->
  mkdir_error E AtReconcile (path_parent E path) = None ->
  open_error E AtReconcile path = None ->
  exists st1 st',
    reconcile_log_file E (Some path) st = (st', Ok tt) /\
    detached st st1 /\
    trace st1 = trace st ++ EvMkdir (path_parent E path)
                  :: detach_events (heap st) (root_handlers st) /\
    attached E path st1 st'.
Proof.
  intros Hp Hm Ho. unfold reconcile_log_file, mkdir, new_RotatingFileHandler.
  rewrite (nonempty_eqb _ Hp), Hm, Ho. unfold emit. rewrite bind_modify.
  rewrite <- bind_assoc.
  destruct (remove_all_file_handlers (record_event (EvMkdir (path_parent E path)) st))
    as (st1 & Hrun & Hdet & Htr).
  rewrite (bind_ok _ _ _ _ _ Hrun), attach_sink.
  eexists st1, _. split; [reflexivity |]. split; [exact Hdet |]. split.
  - rewrite Htr. simpl. now rewrite <- app_assoc.
  - repeat split.
Qed.

(** ** Consequences of the frame relations *)

Lemma mem_In h l : mem h l = true <-> In h l.
Proof.
  induction l as [| x l IH]; simpl; [split; [discriminate | tauto] |].
  rewrite orb_true_iff, Nat.eqb_eq, IH. reflexivity.
Qed.

Lemma is_rotating_Some hp h :
  is_rotating hp h = true -> exists H, hp !! h = Some H /\ h_class H = RotatingFileHandler.
Proof.
  unfold is_rotating. destruct (hp !! h) as [H |]; [| discriminate].
  intros Hc. exists H. split; [reflexivity |]. now destruct (h_class H).
Qed.

Lemma quiet_lookup_None st st' h :
  quiet st st' -> heap st !! h = None -> heap st' !! h = None.
Proof.
  intros (_ & Hlen & _ & _) Hn. apply lookup_ge_None. rewrite Hlen.
  now apply lookup_ge_None.
Qed.

Lemma quiet_is_rotating st st' h :
  quiet st st' -> is_rotating (heap st') h = is_rotating (heap st) h.
Proof.
  intros Hq. unfold is_rotating. destruct (heap st !! h) as [H |] eqn:Hl.
  - destruct Hq as (_ & _ & Hp & _). destruct (Hp h H Hl) as (H' & -> & Hc & _).
    now rewrite Hc.
  - now rewrite (quiet_lookup_None _ _ _ Hq Hl).
Qed.

Lemma quiet_is_closed st st' h :
  quiet st st' -> is_closed (heap st') h = is_closed (heap st) h.
Proof.
  intros Hq. unfold is_closed. destruct (heap st !! h) as [H |] eqn:Hl.
  - destruct Hq as (_ & _ & Hp & _).
    destruct (Hp h H Hl) as (H' & -> & _ & _ & _ & _ & _ & _ & Hc). exact Hc.
  - now rewrite (quiet_lookup_None _ _ _ Hq Hl).
Qed.

Lemma quiet_file_sinks st st' hs :
  quiet st st' -> file_sinks (heap st') hs = file_sinks (heap st) hs.
Proof.
  intros Hq. unfold file_sinks. f_equal. apply List.filter_ext.
  intros h. now apply quiet_is_rotating.
Qed.

Lemma detached_is_rotating st st' h :
  detached st st' -> is_rotating (heap st') h = is_rotating (heap st) h.
Proof.
  intros (_ & _ & _ & Hp). unfold is_rotating at 1. rewrite Hp.
  destruct (is_rotating (heap st) h && mem h (root_handlers st));
    unfold is_rotating; destruct (heap st !! h); reflexivity.
Qed.

Lemma detached_no_file_sinks st st' :
  detached st st' -> file_sinks (heap st') (root_handlers st') = 0%nat.
Proof.
  intros Hd. unfold file_sinks.
  assert (Hrot : forall h, is_rotating (heap st') h = is_rotating (heap st) h)
    by (intros h; now apply detached_is_rotating).
  destruct Hd as (-> & _). unfold other_sinks.
  generalize (root_handlers st) as hs.
  induction hs as [| h hs IH]; [reflexivity |]. simpl.
  destruct (is_rotating (heap st) h) eqn:Hr; simpl; [exact IH |].
  rewrite Hrot, Hr. exact IH.
Qed.

Lemma detached_file_sink st st' h :
  detached st st' -> In h (root_handlers st) -> is_rotating (heap st) h = true ->
  ~ In h (root_handlers st') /\ is_closed (heap st') h = true.
Proof.
  intros (Hh & _ & _ & Hp) Hin Hr. split.
  - rewrite Hh. unfold other_sinks. rewrite filter_In, Hr. intros [_ Hf]. discriminate.
  - unfold is_closed. rewrite Hp, Hr. apply mem_In in Hin. rewrite Hin. simpl.
    destruct (is_rotating_Some _ _ Hr) as (H & -> & _). reflexivity.
Qed.

Lemma detached_other_sink st st' h :
  detached st st' -> In h (root_handlers st) -> is_rotating (heap st) h = false ->
  In h (root_handlers st') /\ heap st' !! h = heap st !! h.
Proof.
  intros (Hh & _ & _ & Hp) Hin Hr. split.
  - rewrite Hh. unfold other_sinks. rewrite filter_In, Hr. now split.
  - now rewrite Hp, Hr.
Qed.

Lemma add_to_In h x l : In h l -> In h (add_to x l).
Proof.
  intros Hin. unfold add_to. destruct (mem x l); [exact Hin |].
  apply in_or_app. now left.
Qed.

Lemma attached_other_sink E path st st' h H :
  attached E path st st' -> In h (root_handlers st) -> heap st !! h = Some H ->
  In h (root_handlers st') /\ heap st' !! h = Some H.
Proof.
  intros (Hh & _ & Hp & _) Hin Hl. split.
  - rewrite Hh. now apply add_to_In.
  - rewrite Hp. rewrite lookup_app_l; [exact Hl |]. now apply lookup_lt_Some in Hl.
Qed.

(** ** The main block after a successful parse *)

Lemma parse_args_parsed argv args st :
  parse_items argv default_args = Parsed args -> parse_args argv st = (st, Ok args).
Proof. intros H. unfold parse_args. now rewrite H. Qed.

Lemma main_parsed E argv args st :
  parse_items argv default_args = Parsed args ->
  main E argv st =
  bind (reconcile_log_file E (log_file_arg args))
    (fun _ => start_server E args (effective_log_level E args)) st.
Proof.
  intros H. unfold main. now rewrite (bind_ok _ _ _ _ _ (parse_args_parsed _ _ st H)).
Qed.

Lemma main_quiet_after_reconcile E argv args st :
  parse_items argv default_args = Parsed args ->
  quiet (reconcile_log_file E (log_file_arg args) st).1 (main E argv st).1.
Proof.
  intros Hp. rewrite (main_parsed _ _ _ _ Hp). unfold bind.
  destruct (reconcile_log_file E (log_file_arg args) st) as [st1 [[] | e]]; simpl.
  - apply quiet_start_server.
  - reflexivity.
Qed.

(** ** Disabling and replacing the file sink *)

(** C9.  Whatever handlers the root logger holds when the main block starts,
    with [--log-file] given as the empty string no rotating-file sink is
    attached after the reconciliation, nor at the end of the main block, and
    every rotating-file sink that was attached has been detached and closed. *)
Theorem log_file_empty_disables_file_logging E argv args st :
  parse_items argv default_args = Parsed args ->
  log_file_arg args = Some EmptyString ->
  let st1 := (reconcile_log_file E (log_file_arg args) st).1 in
  let st' := (main E argv st).1 in
  file_sinks (heap st1) (root_handlers st1) = 0%nat /\
  file_sinks (heap st') (root_handlers st') = 0%nat /\
  forall h, In h (root_handlers st) -> is_rotating (heap st) h = true ->
    ~ In h (root_handlers st') /\ is_closed (heap st') h = true.
Proof.
  intros Hp Harg st1 st'.
  pose proof (main_quiet_after_reconcile E argv args st Hp) as Hq.
  fold st1 st' in Hq. subst st1. rewrite Harg in *.
  destruct (reconcile_disable E st) as (s1 & Hrun & Hdet & _).
  rewrite Hrun in *. simpl in *.
  pose proof (detached_no_file_sinks _ _ Hdet) as H0.
  split; [exact H0 |]. split.
  - destruct Hq as (Hh & Hq'). rewrite Hh.
    rewrite (quiet_file_sinks s1 st'); [exact H0 |]. split; assumption.
  - intros h Hin Hr. destruct (detached_file_sink _ _ _ Hdet Hin Hr) as [Hn Hc].
    split.
    + destruct Hq as (-> & _). exact Hn.
    + now rewrite (quiet_is_closed _ _ _ Hq).
Qed.

Lemma log_file_empty_disables_file_logging_witness :
  let st := (module_level plain_env fresh_state).1 in
  let st1 := (reconcile_log_file plain_env (Some EmptyString) st).1 in
  let st' := (main plain_env [OptLogFile EmptyString] st).1 in
  file_sinks (heap st1) (root_handlers st1) = 0%nat /\
  file_sinks (heap st') (root_handlers st') = 0%nat /\
  forall h, In h (root_handlers st) -> is_rotating (heap st) h = true ->
    ~ In h (root_handlers st') /\ is_closed (heap st') h = true.
Proof.
  apply (log_file_empty_disables_file_logging plain_env [OptLogFile EmptyString]
           {| reload := false; host := "localhost"; port := 8000; log_level := "info";
              log_file_arg := Some EmptyString |}); reflexivity.
Defined.

(** C2, as the script behaves.  When the parent directory can be made but
    the new rotating sink cannot be opened, the OSError leaves the main block
    uncaught (the process ends with a traceback); by then every rotating-file
    sink that was attached has been detached and closed, no handler object
    has been created, no file sink is attached, and the other sinks are
    attached and untouched. *)
Theorem failed_open_detaches_previous_sink E argv args st path m :
  parse_items argv default_args = Parsed args ->
  log_file_arg args = Some path ->
  path <> EmptyString ->
  mkdir_error E AtReconcile (path_parent E path) = None ->
  open_error E AtReconcile path = Some m ->
  let st' := (main E argv st).1 in
  let exn := {| exc_cls := OSError; exc_msg := m |} in
  (main E argv st).2 = Raise exn /\
  finish (main E argv st).2 = Traceback exn /\
  file_sinks (heap st') (root_handlers st') = 0%nat /\
  length (heap st') = length (heap st) /\
  (forall h, In h (root_handlers st) -> is_rotating (heap st) h = true ->
     ~ In h (root_handlers st') /\ is_closed (heap st') h = true) /\
  (forall h, In h (root_handlers st) -> is_rotating (heap st) h = false ->
     In h (root_handlers st') /\ heap st' !! h = heap st !! h).
Proof.
  intros Hp Harg Hne Hm Ho st' exn. subst st'.
  rewrite (main_parsed _ _ _ _ Hp), Harg.
  destruct (reconcile_open_fails E path st m Hne Hm Ho) as (s1 & Hrun & Hdet & _).
  rewrite (bind_fail _ _ _ _ _ Hrun). simpl.
  split; [reflexivity |]. split; [reflexivity |].
  split; [now apply (detached_no_file_sinks st) |].
  split; [apply Hdet |]. split.
  - intros h Hin Hr. now apply (detached_file_sink st).
  - intros h Hin Hr. now apply detached_other_sink.
Qed.

Lemma failed_open_detaches_previous_sink_witness :
  let st := (module_level denied_env fresh_state).1 in
  let st' := (main denied_env [OptLogFile "/var/log/agent.log"] st).1 in
  let exn := {| exc_cls := OSError; exc_msg := "Permission denied" |} in
  (main denied_env [OptLogFile "/var/log/agent.log"] st).2 = Raise exn /\
  finish (main denied_env [OptLogFile "/var/log/agent.log"] st).2 = Traceback exn /\
  file_sinks (heap st') (root_handlers st') = 0%nat /\
  length (heap st') = length (heap st) /\
  (forall h, In h (root_handlers st) -> is_rotating (heap st) h = true ->
     ~ In h (root_handlers st') /\ is_closed (heap st') h = true) /\
  (forall h, In h (root_handlers st) -> is_rotating (heap st) h = false ->
     In h (root_handlers st') /\ heap st' !! h = heap st !! h).
Proof.
  apply (failed_open_detaches_previous_sink denied_env [OptLogFile "/var/log/agent.log"]
           {| reload := false; host := "localhost"; port := 8000; log_level := "info";
              log_file_arg := Some "/var/log/agent.log" |}
           _ "/var/log/agent.log" "Permission denied");
    [reflexivity | reflexivity | discriminate | reflexivity | reflexivity].
Defined.

(** C2, as the specification words it, fails: with a custom log file that
    cannot be opened, the default file sink of the import is neither attached
    nor open when the script ends. *)
Lemma previous_sink_not_intact :
  ~ previous_sink_intact denied_env [OptLogFile "/var/log/agent.log"] fresh_state.
Proof.
  intros H. specialize (H 1%nat).
  vm_compute in H.
  destruct H as [Hin _]; [right; now left | reflexivity |].
  destruct Hin as [Hin | []]. discriminate.
Qed.

(** ** The frame of the reconciliation *)

Lemma not_rotating hp h H :
  hp !! h = Some H -> h_class H <> RotatingFileHandler -> is_rotating hp h = false.
Proof.
  intros Hl Hc. unfold is_rotating. rewrite Hl. now destruct (h_class H).
Qed.

(** A sink that is not a rotating-file sink stays attached, and its object
    stays as it is, whatever the value of [--log-file] and whether the
    reconciliation returns or raises. *)
Lemma reconcile_other_sink E arg st h H :
  In h (root_handlers st) -> heap st !! h = Some H ->
  h_class H <> RotatingFileHandler ->
  let st1 := (reconcile_log_file E arg st).1 in
  In h (root_handlers st1) /\ heap st1 !! h = Some H.
Proof.
  intros Hin Hl Hc st1. subst st1.
  pose proof (not_rotating _ _ _ Hl Hc) as Hr.
  destruct arg as [path |]; [| now split].
  destruct (string_dec path EmptyString) as [-> | Hne].
  - destruct (reconcile_disable E st) as (s1 & -> & Hdet & _). simpl.
    destruct (detached_other_sink _ _ _ Hdet Hin Hr) as [Hi Hh]. split; congruence.
  - destruct (mkdir_error E AtReconcile (path_parent E path)) as [m |] eqn:Hm.
    { rewrite (reconcile_mkdir_fails E path st m Hne Hm). now split. }
    destruct (open_error E AtReconcile path) as [m |] eqn:Ho.
    + destruct (reconcile_open_fails E path st m Hne Hm Ho) as (s1 & -> & Hdet & _).
      simpl. destruct (detached_other_sink _ _ _ Hdet Hin Hr) as [Hi Hh].
      split; congruence.
    + destruct (reconcile_custom_ok E path st Hne Hm Ho) as (s1 & s2 & -> & Hdet & _ & Hat).
      simpl. destruct (detached_other_sink _ _ _ Hdet Hin Hr) as [Hi Hh].
      apply (attached_other_sink _ _ _ _ _ _ Hat Hi). congruence.
Qed.

(** C10.  For every value of [--log-file], a sink attached to the root
    logger that is not a rotating-file sink (the console sink of the import)
    is still attached after the reconciliation with its object unchanged, and
    is still attached at the end of the main block with the same formatter,
    stream and open state: only its level may have changed. *)
Theorem reconcile_keeps_other_sinks E argv args st h H :
  parse_items argv default_args = Parsed args ->
  In h (root_handlers st) ->
  heap st !! h = Some H ->
  h_class H <> RotatingFileHandler ->
  let st1 := (reconcile_log_file E (log_file_arg args) st).1 in
  let st' := (main E argv st).1 in
  (In h (root_handlers st1) /\ heap st1 !! h = Some H) /\
  (In h (root_handlers st') /\
   exists H', heap st' !! h = Some H' /\ same_but_level H H').
Proof.
  intros Hp Hin Hl Hc st1 st'.
  destruct (reconcile_other_sink E (log_file_arg args) st h H Hin Hl Hc) as [Hi Hh].
  fold st1 in Hi, Hh. split; [now split |].
  destruct (main_quiet_after_reconcile E argv args st Hp) as (Hhs & _ & Hobj & _).
  fold st1 st' in Hhs, Hobj. split.
  - now rewrite Hhs.
  - now apply Hobj.
Qed.

Lemma reconcile_keeps_other_sinks_witness :
  let st := (module_level plain_env fresh_state).1 in
  let st1 := (reconcile_log_file plain_env (Some "custom.log") st).1 in
  let st' := (main plain_env [OptLogLevel "error"; OptLogFile "custom.log"] st).1 in
  (In 0%nat (root_handlers st1) /\ heap st1 !! 0%nat = Some console_obj) /\
  (In 0%nat (root_handlers st') /\
   exists H', heap st' !! 0%nat = Some H' /\ same_but_level console_obj H').
Proof.
  apply (reconcile_keeps_other_sinks plain_env
           [OptLogLevel "error"; OptLogFile "custom.log"]
           {| reload := false; host := "localhost"; port := 8000; log_level := "error";
              log_file_arg := Some "custom.log" |});
    [reflexivity | left; reflexivity | reflexivity | discriminate].
Defined.

(** ** The import as a whole *)

Lemma log_returns name level msg : returns (log name level msg).
Proof. apply modify_returns. Qed.

Lemma windows_policy_returns E : returns (windows_policy E).
Proof.
  unfold windows_policy. destruct (String.eqb (os_name E) "nt").
  - apply bind_returns; [apply log_returns | intros _; apply modify_returns].
  - apply ret_returns.
Qed.

Lemma register_signals_returns : returns register_signals.
Proof.
  unfold register_signals.
  apply bind_returns; [apply modify_returns | intros _; apply modify_returns].
Qed.

Lemma levels_windows_policy E : stable keeps_levels (windows_policy E).
Proof. unfold windows_policy. stable_auto. Qed.

Lemma levels_register_signals : stable keeps_levels register_signals.
Proof. unfold register_signals. stable_auto. Qed.

Lemma register_signals_installs st :
  let st' := (register_signals st).1 in
  on_sigterm st' = SigHandleShutdown /\ on_sigint st' = SigHandleShutdown.
Proof. split; reflexivity. Qed.

(** When the log directory and the default log file can be made, the
    import returns and leaves the pipeline of [attached_state], with both
    signals bound to [handle_shutdown]; the only other events are quiet. *)
Lemma module_level_ok E st0 :
  mkdir_error E AtImport log_dir = None ->
  open_error E AtImport log_file = None ->
  exists st_b,
    module_level E st0 = (st_b, Ok tt) /\
    quiet (attached_state E st0) st_b /\
    keeps_levels (attached_state E st0) st_b /\
    on_sigterm st_b = SigHandleShutdown /\ on_sigint st_b = SigHandleShutdown.
Proof.
  intros Hm Ho. unfold module_level.
  rewrite (bind_ok _ _ _ _ _ (setup_logging_ok E st0 Hm Ho)).
  set (st_a := attached_state E st0).
  rewrite (bind_unit_returns _ _ _ (windows_policy_returns E)).
  set (st_w := (windows_policy E st_a).1).
  destruct (register_signals_returns st_w) as [[] Hr].
  exists (register_signals st_w).1. split; [| split; [| split]].
  - destruct (register_signals st_w) as [s r]. simpl in *. now subst r.
  - transitivity st_w; [apply quiet_windows_policy | apply quiet_register_signals].
  - transitivity st_w; [apply levels_windows_policy | apply levels_register_signals].
  - apply register_signals_installs.
Qed.

Lemma module_level_mkdir_fails E st0 m :
  mkdir_error E AtImport log_dir = Some m ->
  module_level E st0 = (st0, Raise {| exc_cls := OSError; exc_msg := m |}).
Proof.
  intros Hm. unfold module_level.
  now rewrite (bind_fail _ _ _ _ _ (setup_logging_mkdir_fails E st0 m Hm)).
Qed.

Lemma module_level_open_fails E st0 m :
  mkdir_error E AtImport log_dir = None ->
  open_error E AtImport log_file = Some m ->
  module_level E st0 = (console_state st0, Raise {| exc_cls := OSError; exc_msg := m |}).
Proof.
  intros Hm Ho. unfold module_level.
  now rewrite (bind_fail _ _ _ _ _ (setup_logging_open_fails E st0 m Hm Ho)).
Qed.

(** ** The main block, by what happens to the file sink *)

Lemma main_usage_error E argv st opt v :
  parse_items argv default_args = UsageError opt v ->
  main E argv st =
  (record_event (EvUsage opt v) st,
   Raise {| exc_cls := SystemExit 2; exc_msg := Str.str_of_Z 2 |}).
Proof. intros Hp. unfold main, parse_args. rewrite Hp. reflexivity. Qed.

Lemma main_help E argv st :
  parse_items argv default_args = HelpExit ->
  main E argv st =
  (record_event EvHelp st,
   Raise {| exc_cls := SystemExit 0; exc_msg := Str.str_of_Z 0 |}).
Proof. intros Hp. unfold main, parse_args. rewrite Hp. reflexivity. Qed.


(** ** Replaying the trace *)





Section History.
Context (P : list hid -> Prop).


End History.





Lemma new_events_app st st' es : trace st' = trace st ++ es -> new_events st st' = es.
Proof. intros H. unfold new_events. rewrite H. apply drop_app_length. Qed.



(** ** At most one file sink, at every point *)

(** The pipeline when the main block starts. *)
Lemma import_pipeline E st0 st_b :
  quiet (attached_state E st0) st_b ->
  keeps_levels (attached_state E st0) st_b ->
  let n := length (heap st0) in
  root_handlers st_b = [n; S n] /\
  heap st_b = heap st0 ++ [console_obj; rotating_obj E log_file] /\
  is_rotating (heap st_b) n = false /\
  is_rotating (heap st_b) (S n) = true /\
  length (heap st_b) = S (S n) /\
  exists Q1,
    trace st_b = trace st0 ++ [EvMkdir log_dir; EvSetRootLevel INFO; EvClear]
                   ++ sink_events n ++ sink_events (S n) ++ Q1 /\
    forallb quiet_event Q1 = true.
Proof.
  intros (_ & _ & _ & Q1 & Htr & Hq) (_ & Hheap & Hhs) n. subst n.
  simpl in Hheap, Hhs, Htr. repeat split.
  - exact Hhs.
  - exact Hheap.
  - rewrite Hheap. unfold is_rotating. now rewrite heap_at_0.
  - rewrite Hheap. unfold is_rotating. now rewrite heap_at_1.
  - rewrite Hheap, length_app. simpl. lia.
  - exists Q1. split; [| exact Hq]. rewrite Htr.
    rewrite <- !app_assoc. reflexivity.
Qed.

Lemma eqb_succ_false n : Nat.eqb n (S n) = false.
Proof. apply Nat.eqb_neq. lia. Qed.

Lemma detach_events_pipeline hp n :
  is_rotating hp n = false -> is_rotating hp (S n) = true ->
  detach_events hp [n; S n] = [EvRemoveHandler (S n); EvClose (S n)] /\
  other_sinks hp [n; S n] = [n].
Proof.
  intros Hc Hf. unfold detach_events, other_sinks. simpl. now rewrite Hc, Hf.
Qed.

Lemma script_import_fails E argv st0 st1 e :
  module_level E st0 = (st1, Raise e) -> script E argv st0 = (st1, Raise e).
Proof. intros H. unfold script. now rewrite (bind_fail _ _ _ _ _ H). Qed.

Lemma script_import_ok E argv st0 st_b :
  module_level E st0 = (st_b, Ok tt) -> script E argv st0 = main E argv st_b.
Proof. intros H. unfold script. now rewrite (bind_ok _ _ _ _ _ H). Qed.

Lemma remove_first_pipeline n : remove_first (S n) [n; S n] = [n].
Proof. simpl. now rewrite eqb_succ_false, Nat.eqb_refl. Qed.

Lemma add_to_pipeline n : add_to (S (S n)) [n] = [n; S (S n)].
Proof.
  unfold add_to. simpl. replace (Nat.eqb n (S (S n))) with false; [reflexivity |].
  symmetry. apply Nat.eqb_neq. lia.
Qed.

Lemma attached_old_object E path st st' h :
  attached E path st st' -> (h < length (heap st))%nat ->
  heap st' !! h = heap st !! h.
Proof. intros (_ & _ & -> & _) Hlt. now apply lookup_app_l. Qed.




(** ** The guarded block, phase by phase *)

Lemma set_h_level_idem l (o : option Handler) :
  set_h_level l <$> (set_h_level l <$> o) = set_h_level l <$> o.
Proof. now destruct o. Qed.

(** The loop of lines 163-164 returns; it sets the level of the listed
    handlers and nothing else. *)
Lemma set_handler_levels_spec hs l :
  forall st,
  exists st',
    set_handler_levels hs l st = (st', Ok tt) /\
    root_level st' = root_level st /\
    root_handlers st' = root_handlers st /\
    trace st' = trace st ++ level_events l hs /\
    (forall h, heap st' !! h =
               if mem h hs then set_h_level l <$> heap st !! h else heap st !! h).
Proof.
  induction hs as [| h0 hs IH]; intros st.
  - exists st. simpl. repeat split. now rewrite app_nil_r.
  - simpl set_handler_levels. unfold Handler_setLevel. rewrite bind_modify.
    match goal with |- context [set_handler_levels hs l ?s] => set (st1 := s) end.
    destruct (IH st1) as (st' & Hrun & Hrl & Hhs & Htr & Hheap).
    exists st'. split; [exact Hrun |]. repeat split.
    + now rewrite Hrl.
    + now rewrite Hhs.
    + rewrite Htr. subst st1. simpl. now rewrite <- app_assoc.
    + intros h. rewrite Hheap. subst st1. simpl.
      destruct (Nat.eqb h0 h) eqn:Heq; simpl.
      * apply Nat.eqb_eq in Heq. subst h0. rewrite list_lookup_alter_eq.
        destruct (mem h hs); [apply set_h_level_idem | reflexivity].
      * apply Nat.eqb_neq in Heq. now rewrite list_lookup_alter_ne.
Qed.

Lemma set_handler_levels_returns hs l : returns (set_handler_levels hs l).
Proof.
  intros st. destruct (set_handler_levels_spec hs l st) as (st' & -> & _).
  now exists tt.
Qed.

(** Lines 160 to 164: the root logger and every attached handler get the
    numeric level, in this order, and nothing else changes. *)
Lemma apply_level_spec level st :
  exists st',
    apply_level level st = (st', Ok tt) /\
    root_level st' = numeric_level level /\
    root_handlers st' = root_handlers st /\
    trace st' = trace st ++ EvSetRootLevel (numeric_level level)
                  :: level_events (numeric_level level) (root_handlers st) /\
    (forall h, heap st' !! h =
               if mem h (root_handlers st)
               then set_h_level (numeric_level level) <$> heap st !! h
               else heap st !! h).
Proof.
  unfold apply_level, root_setLevel. rewrite bind_modify, bind_get.
  match goal with |- context [set_handler_levels _ _ ?s] => set (st1 := s) end.
  destruct (set_handler_levels_spec (root_handlers st1) (numeric_level level) st1)
    as (st' & Hrun & Hrl & Hhs & Htr & Hheap).
  exists st'. split; [exact Hrun |]. repeat split.
  - now rewrite Hrl.
  - now rewrite Hhs.
  - rewrite Htr. subst st1. simpl. now rewrite <- app_assoc.
  - intros h. now rewrite Hheap.
Qed.

Lemma apply_level_returns level : returns (apply_level level).
Proof.
  intros st. destruct (apply_level_spec level st) as (st' & -> & _). now exists tt.
Qed.

Lemma log_calls_app a b : log_calls (a ++ b) = log_calls a ++ log_calls b.
Proof.
  induction a as [| e a IH]; [reflexivity |].
  destruct e; simpl; rewrite ?IH; reflexivity.
Qed.

Lemma callHandlers_log_events name level msg st :
  forallb is_log_event (callHandlers name level msg st) = true /\
  log_calls (callHandlers name level msg st) = [].
Proof.
  unfold callHandlers. induction (root_handlers st) as [| h hs [IH1 IH2]]; [now split |].
  simpl. rewrite forallb_app, log_calls_app, IH1, IH2, andb_true_r, app_nil_r.
  destruct (heap st !! h) as [H |]; [| now split].
  destruct (Z.leb (h_level H) level); now split.
Qed.

(** What one log call appends to the trace. *)
Lemma log_state name level msg st :
  exists emits,
    log name level msg st =
      (record_events (EvLogCall name level msg :: emits) st, Ok tt) /\
    forallb is_log_event emits = true /\ log_calls emits = [].
Proof.
  exists (if isEnabledFor name level st then callHandlers name level msg st else []).
  split; [reflexivity |].
  destruct (isEnabledFor name level st); [apply callHandlers_log_events | now split].
Qed.

(** Lines 152 to 157 return, change nothing but the trace, and append the
    startup lines, each followed by what it emits. *)
Lemma log_startup_lines_spec args level st :
  exists st' lines,
    log_startup_lines args level st = (st', Ok tt) /\
    keeps_levels st st' /\
    trace st' = trace st ++ lines /\
    forallb is_log_event lines = true /\
    log_calls lines = startup_lines args level st.
Proof.
  unfold log_startup_lines, startup_lines.
  destruct (log_state logger INFO
              ("Starting DeerFlow API server on " +:+ host args +:+ ":" +:+
               Str.str_of_Z (port args)) st) as (e1 & H1 & F1 & L1).
  rewrite (bind_ok _ _ _ _ _ H1).
  match goal with |- context [bind _ _ ?s] => set (st1 := s) end.
  destruct (log_state logger INFO ("Log level: " +:+ Str.upper level) st1)
    as (e2 & H2 & F2 & L2).
  rewrite (bind_ok _ _ _ _ _ H2), bind_get.
  match goal with |- context [_ (record_events ?l st1)] => set (st2 := record_events l st1) end.
  change (heap st2) with (heap st). change (root_handlers st2) with (root_handlers st).
  destruct (List.filter (is_rotating (heap st)) (root_handlers st)) as [| h rest].
  - exists st2, ((EvLogCall logger INFO
                    ("Starting DeerFlow API server on " +:+ host args +:+ ":" +:+
                     Str.str_of_Z (port args)) :: e1) ++
                 (EvLogCall logger INFO ("Log level: " +:+ Str.upper level) :: e2)).
    split; [reflexivity |]. split; [repeat split |]. split.
    + subst st2 st1. simpl. now rewrite <- app_assoc.
    + split.
      * rewrite forallb_app. simpl. now rewrite F1, F2.
      * rewrite log_calls_app. simpl. now rewrite L1, L2.
  - destruct (log_state logger INFO
                ("Log file: " +:+ default EmptyString (h_target <$> heap st !! h)) st2)
      as (e3 & H3 & F3 & L3).
    rewrite H3.
    exists (record_events
              (EvLogCall logger INFO
                 ("Log file: " +:+ default EmptyString (h_target <$> heap st !! h)) :: e3) st2),
      ((EvLogCall logger INFO
          ("Starting DeerFlow API server on " +:+ host args +:+ ":" +:+
           Str.str_of_Z (port args)) :: e1) ++
       (EvLogCall logger INFO ("Log level: " +:+ Str.upper level) :: e2) ++
       (EvLogCall logger INFO
          ("Log file: " +:+ default EmptyString (h_target <$> heap st !! h)) :: e3)).
    split; [reflexivity |]. split; [repeat split |]. split.
    + subst st2 st1. simpl. now rewrite <- !app_assoc.
    + split.
      * rewrite !forallb_app. simpl. now rewrite F1, F2, F3.
      * rewrite !log_calls_app. simpl. now rewrite L1, L2, L3.
Qed.

Lemma log_startup_lines_returns args level : returns (log_startup_lines args level).
Proof.
  intros st. destruct (log_startup_lines_spec args level st) as (st' & l & -> & _).
  now exists tt.
Qed.

Lemma enable_debug_packages_returns level : returns (enable_debug_packages level).
Proof.
  unfold enable_debug_packages. destruct (String.eqb (Str.lower level) "debug").
  - repeat (apply bind_returns; [apply modify_returns | intros _]). apply modify_returns.
  - apply ret_returns.
Qed.

Lemma start_server_unfold E args level st :
  let st1 := (log_startup_lines args level st).1 in
  let st2 := (apply_level level st1).1 in
  let st3 := (enable_debug_packages level st2).1 in
  start_server E args level st =
  match uvicorn_run E (serve_args_of args level) st3 with
  | (st4, Ok _) => (st4, Ok tt)
  | (st4, Raise e) =>
      if is_Exception e
      then (log logger ERROR ("Failed to start server: " +:+ exc_msg e) ;; sys_exit 1) st4
      else (st4, Raise e)
  end.
Proof.
  intros st1 st2 st3. unfold start_server, try_except_Exception.
  rewrite (bind_unit_returns _ _ _ (log_startup_lines_returns args level)).
  rewrite (bind_unit_returns _ _ _ (apply_level_returns level)).
  rewrite (bind_unit_returns _ _ _ (enable_debug_packages_returns level)).
  fold st1 st2 st3.
  destruct (uvicorn_run E (serve_args_of args level) st3) as [st4 [[] | e]]; reflexivity.
Qed.

(** The call of the server, by its outcome. *)
Lemma uvicorn_run_returns E a st :
  serve E a = ServeReturns ->
  uvicorn_run E a st = (record_event (EvServe a) st, Ok tt).
Proof. intros H. unfold uvicorn_run, emit. rewrite bind_modify, H. reflexivity. Qed.

Lemma uvicorn_run_raises E a st e :
  serve E a = ServeRaises e ->
  uvicorn_run E a st = (record_event (EvServe a) st, Raise e).
Proof. intros H. unfold uvicorn_run, emit. rewrite bind_modify, H. reflexivity. Qed.

Lemma uvicorn_run_signal E a st s :
  serve E a = ServeSignal s ->
  uvicorn_run E a st = deliver s (record_event (EvServe a) st).
Proof. intros H. unfold uvicorn_run, emit. rewrite bind_modify, H. reflexivity. Qed.

Lemma deliver_installed s st :
  on_sigterm st = SigHandleShutdown -> on_sigint st = SigHandleShutdown ->
  deliver s st = handle_shutdown s (record_event (EvSignal s) st).
Proof.
  intros Ht Hi. unfold deliver, emit. rewrite bind_modify, bind_get. simpl.
  destruct s; rewrite ?Ht, ?Hi; reflexivity.
Qed.

(** The handler: one log call with the fixed message, then SystemExit(0). *)
Lemma handle_shutdown_spec s st :
  exists emits,
    handle_shutdown s st =
      (record_events (EvLogCall logger INFO shutdown_message :: emits) st,
       Raise {| exc_cls := SystemExit 0; exc_msg := Str.str_of_Z 0 |}) /\
    forallb is_log_event emits = true /\ log_calls emits = [].
Proof.
  unfold handle_shutdown.
  destruct (log_state logger INFO shutdown_message st) as (e1 & H1 & F1 & L1).
  exists e1. split; [| now split].
  unfold shutdown_message in H1. now rewrite (bind_ok _ _ _ _ _ H1).
Qed.

(** ** The state in which the guarded block starts *)

Lemma module_level_inv E st0 st_b :
  module_level E st0 = (st_b, Ok tt) ->
  quiet (attached_state E st0) st_b /\
  keeps_levels (attached_state E st0) st_b /\
  on_sigterm st_b = SigHandleShutdown /\ on_sigint st_b = SigHandleShutdown.
Proof.
  intros Hrun.
  destruct (mkdir_error E AtImport log_dir) as [m |] eqn:Hm.
  { rewrite (module_level_mkdir_fails E st0 m Hm) in Hrun. discriminate. }
  destruct (open_error E AtImport log_file) as [m |] eqn:Ho.
  { rewrite (module_level_open_fails E st0 m Hm Ho) in Hrun. discriminate. }
  destruct (module_level_ok E st0 Hm Ho) as (s & Hs & Hfacts).
  rewrite Hs in Hrun. injection Hrun as <-. exact Hfacts.
Qed.

Lemma signals_reconcile_log_file E arg : stable keeps_signals (reconcile_log_file E arg).
Proof. unfold reconcile_log_file. stable_auto. Qed.

Lemma signals_log_startup_lines args level : stable keeps_signals (log_startup_lines args level).
Proof. unfold log_startup_lines. stable_auto. Qed.

Lemma signals_apply_level level : stable keeps_signals (apply_level level).
Proof. unfold apply_level. stable_auto. Qed.

Lemma signals_enable_debug_packages level :
  stable keeps_signals (enable_debug_packages level).
Proof. unfold enable_debug_packages. stable_auto. Qed.

Lemma reaches_server_script E argv st0 args st2 :
  reaches_server E argv st0 args st2 ->
  script E argv st0 = start_server E args (effective_log_level E args) st2.
Proof.
  intros (st_b & Him & Hp & Hrec).
  rewrite (script_import_ok _ _ _ _ Him), (main_parsed _ _ _ _ Hp).
  now rewrite (bind_ok _ _ _ _ _ Hrec).
Qed.

Lemma reaches_server_signals E argv st0 args st2 :
  reaches_server E argv st0 args st2 ->
  on_sigterm st2 = SigHandleShutdown /\ on_sigint st2 = SigHandleShutdown.
Proof.
  intros (st_b & Him & Hp & Hrec).
  destruct (module_level_inv _ _ _ Him) as (_ & _ & Ht & Hi).
  pose proof (signals_reconcile_log_file E (log_file_arg args) st_b) as [H1 H2].
  rewrite Hrec in H1, H2. simpl in H1, H2. split; congruence.
Qed.

Lemma run_state E argv st0 : (run E argv st0).1 = (script E argv st0).1.
Proof. unfold run. now destruct (script E argv st0). Qed.

Lemma run_result E argv st0 : (run E argv st0).2 = finish (script E argv st0).2.
Proof. unfold run. now destruct (script E argv st0). Qed.

Lemma new_events_record st l : new_events st (record_events l st) = l.
Proof. now apply new_events_app. Qed.

(** ** The signal handler *)

Lemma shutdown_log_calls_fixed s st :
  shutdown_log_calls s st = [(logger, INFO, shutdown_message)].
Proof.
  unfold shutdown_log_calls.
  destruct (handle_shutdown_spec s st) as (emits & -> & _ & Hl).
  simpl fst. rewrite new_events_record. simpl. now rewrite Hl.
Qed.

(** C3, as the script behaves.  For each of SIGINT and SIGTERM the handler
    makes exactly one log call, at INFO, with one fixed message that does
    not depend on the signal, and raises SystemExit(0).  Both signals are
    bound to it when the guarded block runs, and a signal that arrives while
    the server runs ends the process with status 0: the handler's log call
    follows the delivery and nothing follows it but what it emits. *)
Theorem shutdown_logs_fixed_message_and_exits_0 E argv st0 args st2 s :
  reaches_server E argv st0 args st2 ->
  serve E (serve_args_of args (effective_log_level E args)) = ServeSignal s ->
  (forall st,
     shutdown_log_calls s st = [(logger, INFO, shutdown_message)] /\
     finish (handle_shutdown s st).2 = Exit 0) /\
  on_sigterm st2 = SigHandleShutdown /\ on_sigint st2 = SigHandleShutdown /\
  (run E argv st0).2 = Exit 0 /\
  exists pre emits,
    trace (run E argv st0).1 =
      pre ++ EvSignal s :: EvLogCall logger INFO shutdown_message :: emits /\
    forallb is_log_event emits = true /\ log_calls emits = [].
Proof.
  intros Hreach Hsig.
  destruct (reaches_server_signals _ _ _ _ _ Hreach) as [Ht Hi].
  split; [| split; [exact Ht | split; [exact Hi |]]].
  { intros st. split; [apply shutdown_log_calls_fixed |].
    destruct (handle_shutdown_spec s st) as (emits & -> & _). reflexivity. }
  rewrite run_result, run_state.
  rewrite (reaches_server_script _ _ _ _ _ Hreach), start_server_unfold. cbv zeta.
  match goal with |- context [uvicorn_run E _ ?s] => set (st3 := s) end.
  assert (Hs3 : on_sigterm st3 = SigHandleShutdown /\ on_sigint st3 = SigHandleShutdown).
  { subst st3.
    pose proof (signals_log_startup_lines args (effective_log_level E args) st2) as [a1 a2].
    pose proof (signals_apply_level (effective_log_level E args)
                  (log_startup_lines args (effective_log_level E args) st2).1) as [b1 b2].
    pose proof (signals_enable_debug_packages (effective_log_level E args)
                  (apply_level (effective_log_level E args)
                     (log_startup_lines args (effective_log_level E args) st2).1).1)
      as [c1 c2].
    split; congruence. }
  destruct Hs3 as [Ht3 Hi3].
  rewrite (uvicorn_run_signal _ _ _ _ Hsig).
  rewrite deliver_installed by assumption.
  match goal with |- context [handle_shutdown s ?x] => set (st4 := x) end.
  destruct (handle_shutdown_spec s st4) as (emits & -> & Hf & Hl).
  split; [reflexivity |].
  exists (trace st3 ++ [EvServe (serve_args_of args (effective_log_level E args))]), emits.
  split; [| now split]. subst st4. simpl. now rewrite <- !app_assoc.
Qed.

Lemma shutdown_logs_fixed_message_and_exits_0_witness :
  (forall st,
     shutdown_log_calls SIGTERM st = [(logger, INFO, shutdown_message)] /\
     finish (handle_shutdown SIGTERM st).2 = Exit 0) /\
  on_sigterm (module_level (signalled_env SIGTERM) fresh_state).1 = SigHandleShutdown /\
  on_sigint (module_level (signalled_env SIGTERM) fresh_state).1 = SigHandleShutdown /\
  (run (signalled_env SIGTERM) [] fresh_state).2 = Exit 0 /\
  exists pre emits,
    trace (run (signalled_env SIGTERM) [] fresh_state).1 =
      pre ++ EvSignal SIGTERM :: EvLogCall logger INFO shutdown_message :: emits /\
    forallb is_log_event emits = true /\ log_calls emits = [].
Proof.
  apply (shutdown_logs_fixed_message_and_exits_0 (signalled_env SIGTERM) [] fresh_state
           default_args (module_level (signalled_env SIGTERM) fresh_state).1 SIGTERM
           (ex_intro _ (module_level (signalled_env SIGTERM) fresh_state).1
              (conj eq_refl (conj eq_refl eq_refl)))).
  reflexivity.
Defined.

(** C3, as the specification words it, fails: the handler logs the same
    for SIGINT and for SIGTERM. *)
Lemma handler_does_not_identify_signal : ~ handler_identifies_signal fresh_state.
Proof.
  intros H. apply (H SIGINT SIGTERM); [discriminate | reflexivity].
Qed.

(** ** The debug allow-list *)

Lemma enable_debug_packages_loggers level st :
  logger_levels (enable_debug_packages level st).1 =
  if String.eqb (Str.lower level) "debug"
  then <["langgraph" := DEBUG]> (<["langchain" := DEBUG]> (<["src" := DEBUG]> (logger_levels st)))
  else logger_levels st.
Proof.
  unfold enable_debug_packages. destruct (String.eqb (Str.lower level) "debug"); [| reflexivity].
  unfold Logger_setLevel. rewrite !bind_modify. reflexivity.
Qed.

Lemma start_server_tail_loggers E args level st3 :
  let r := match uvicorn_run E (serve_args_of args level) st3 with
           | (st4, Ok _) => (st4, Ok tt)
           | (st4, Raise e) =>
               if is_Exception e
               then (log logger ERROR ("Failed to start server: " +:+ exc_msg e) ;;
                     sys_exit 1) st4
               else (st4, Raise e)
           end in
  logger_levels r.1 = logger_levels st3.
Proof.
  intros r. subst r.
  pose proof (loggers_uvicorn_run E (serve_args_of args level) st3) as Hu.
  destruct (uvicorn_run E (serve_args_of args level) st3) as [st4 [[] | e]];
    simpl in Hu; [exact Hu |].
  destruct (is_Exception e); [| exact Hu].
  unfold log. rewrite bind_modify. exact Hu.
Qed.

Lemma start_server_loggers E args level st :
  logger_levels (start_server E args level st).1 =
  if String.eqb (Str.lower level) "debug"
  then <["langgraph" := DEBUG]> (<["langchain" := DEBUG]> (<["src" := DEBUG]> (logger_levels st)))
  else logger_levels st.
Proof.
  rewrite start_server_unfold. cbv zeta.
  rewrite start_server_tail_loggers, enable_debug_packages_loggers.
  now rewrite (loggers_apply_level level _), (loggers_log_startup_lines args level st).
Qed.

Lemma reaches_server_loggers E argv st0 args st2 :
  reaches_server E argv st0 args st2 -> logger_levels st2 = logger_levels st0.
Proof.
  intros (st_b & Him & _ & Hrec).
  pose proof (loggers_module_level E st0) as H1. rewrite Him in H1.
  pose proof (loggers_reconcile_log_file E (log_file_arg args) st_b) as H2.
  rewrite Hrec in H2. unfold keeps_loggers in *. simpl in *. congruence.
Qed.

(** C8.  When the effective level is debug (from [--log-level] or from the
    variable DEBUG) and the guarded block is reached, at the end of the
    script the three loggers src, langchain and langgraph have the level
    DEBUG, and every other named logger has the level it had when the
    process started. *)
Theorem debug_lowers_only_allow_list E argv st0 args st2 :
  reaches_server E argv st0 args st2 ->
  effective_log_level E args = "debug" ->
  let st' := (run E argv st0).1 in
  (forall name, In name debug_packages -> logger_levels st' !! name = Some DEBUG) /\
  (forall name, ~ In name debug_packages ->
     logger_levels st' !! name = logger_levels st0 !! name).
Proof.
  intros Hreach Hdbg st'. subst st'.
  rewrite run_state, (reaches_server_script _ _ _ _ _ Hreach), Hdbg.
  rewrite start_server_loggers, (reaches_server_loggers _ _ _ _ _ Hreach).
  change (String.eqb (Str.lower "debug") "debug") with true. cbv iota.
  split.
  - intros name [<- | [<- | [<- | []]]].
    + rewrite lookup_insert_ne by discriminate.
      rewrite lookup_insert_ne by discriminate. apply lookup_insert_eq.
    + rewrite lookup_insert_ne by discriminate. apply lookup_insert_eq.
    + apply lookup_insert_eq.
  - intros name Hn.
    rewrite !lookup_insert_ne; [reflexivity | | |];
      intros <-; apply Hn; simpl; auto.
Qed.

Lemma debug_lowers_only_allow_list_witness :
  let st' := (run (debug_env "Yes") [OptLogLevel "info"] fresh_state).1 in
  (forall name, In name debug_packages -> logger_levels st' !! name = Some DEBUG) /\
  (forall name, ~ In name debug_packages ->
     logger_levels st' !! name = logger_levels fresh_state !! name).
Proof.
  apply (debug_lowers_only_allow_list (debug_env "Yes") [OptLogLevel "info"] fresh_state
           default_args (module_level (debug_env "Yes") fresh_state).1
           (ex_intro _ (module_level (debug_env "Yes") fresh_state).1
              (conj eq_refl (conj eq_refl eq_refl)))).
  reflexivity.
Defined.

(** ** Levels and the order of events in the guarded block *)

Section Tail.
Context (R : State -> State -> Prop) {HR : PreOrder R}.
Context (E : Env) (args : Args) (level : string).
Hypothesis R_uvicorn_run : forall a, stable R (uvicorn_run E a).
Hypothesis R_log : forall name l msg, stable R (log name l msg).

(** What follows the three returning phases of the guarded block keeps a
    relation that the call of the server and a log call keep. *)
Lemma start_server_tail st3 :
  let r := match uvicorn_run E (serve_args_of args level) st3 with
           | (st4, Ok _) => (st4, Ok tt)
           | (st4, Raise e) =>
               if is_Exception e
               then (log logger ERROR ("Failed to start server: " +:+ exc_msg e) ;;
                     sys_exit 1) st4
               else (st4, Raise e)
           end in
  R st3 r.1.
Proof.
  intros r. subst r.
  pose proof (R_uvicorn_run (serve_args_of args level) st3) as Hu.
  destruct (uvicorn_run E (serve_args_of args level) st3) as [st4 [[] | e]];
    simpl in Hu; [exact Hu |].
  destruct (is_Exception e); [| exact Hu].
  etransitivity; [exact Hu |].
  apply (stable_bind R); [apply R_log | intros _; apply stable_sys_exit; exact HR].
Qed.
End Tail.

Lemma start_server_levels E args level st :
  let st' := (start_server E args level st).1 in
  root_level st' = numeric_level level /\
  root_handlers st' = root_handlers st /\
  (forall h, heap st' !! h =
             if mem h (root_handlers st)
             then set_h_level (numeric_level level) <$> heap st !! h
             else heap st !! h).
Proof.
  intros st'. subst st'. rewrite start_server_unfold. cbv zeta.
  destruct (log_startup_lines_spec args level st) as (st1 & lines & -> & (_ & Hp1 & Hh1) & _).
  simpl fst.
  destruct (apply_level_spec level st1) as (st2 & -> & Hrl & Hhs & _ & Hheap).
  simpl fst.
  pose proof (levels_enable_debug_packages level st2) as (a1 & a2 & a3).
  match goal with |- context [uvicorn_run E _ ?s] => set (st3 := s) in * end.
  pose proof (start_server_tail keeps_levels E args level
                (levels_uvicorn_run E) levels_log st3) as (b1 & b2 & b3).
  cbv zeta in b1, b2, b3. rewrite b1, b2, b3, a1, a2, a3.
  split; [exact Hrl |]. split; [congruence |].
  intros h. now rewrite Hheap, Hh1, Hp1.
Qed.

Lemma start_server_trace E args level st :
  exists lines rest,
    trace (start_server E args level st).1 =
      trace st ++ lines
        ++ EvSetRootLevel (numeric_level level)
           :: level_events (numeric_level level) (root_handlers st) ++ rest /\
    forallb is_log_event lines = true /\
    log_calls lines = startup_lines args level st.
Proof.
  rewrite start_server_unfold. cbv zeta.
  destruct (log_startup_lines_spec args level st)
    as (st1 & lines & -> & (_ & _ & Hh1) & Htr1 & Hf & Hl).
  simpl fst.
  destruct (apply_level_spec level st1) as (st2 & -> & _ & _ & Htr2 & _).
  simpl fst.
  pose proof (quiet_enable_debug_packages level st2) as Hq3.
  match goal with |- context [uvicorn_run E _ ?s] => set (st3 := s) in * end.
  pose proof (start_server_tail quiet E args level
                (quiet_uvicorn_run E) quiet_log st3) as Hq4.
  cbv zeta in Hq4.
  assert (Hq : quiet st2 (match uvicorn_run E (serve_args_of args level) st3 with
           | (st4, Ok _) => (st4, Ok tt)
           | (st4, Raise e) =>
               if is_Exception e
               then (log logger ERROR ("Failed to start server: " +:+ exc_msg e) ;;
                     sys_exit 1) st4
               else (st4, Raise e)
           end).1) by (etransitivity; eassumption).
  destruct Hq as (_ & _ & _ & rest & Htr & _).
  exists lines, rest. split; [| now split].
  rewrite Htr, Htr2, Htr1, Hh1. now rewrite <- !app_assoc.
Qed.

(** When the guarded block starts, the root logger and every attached sink
    still have the level INFO of the import. *)
Lemma reaches_server_pipeline E argv st0 args st2 :
  reaches_server E argv st0 args st2 ->
  root_level st2 = INFO /\
  (forall h, In h (root_handlers st2) -> h_level <$> heap st2 !! h = Some INFO).
Proof.
  intros (st_b & Him & _ & Hrec).
  destruct (module_level_inv _ _ _ Him) as (Hq & Hl & _).
  destruct (import_pipeline E st0 st_b Hq Hl)
    as (Hhs & Hheap & Hc & Hf & Hlen & _).
  assert (Hrl : root_level st_b = INFO) by (destruct Hl as (-> & _); reflexivity).
  set (n := length (heap st0)) in *.
  assert (Hn : heap st_b !! n = Some console_obj) by (rewrite Hheap; apply heap_at_0).
  destruct (log_file_arg args) as [path |].
  2: { rewrite reconcile_absent in Hrec. injection Hrec as <-. split; [exact Hrl |].
       intros h Hin. rewrite Hhs in Hin. destruct Hin as [<- | [<- | []]].
       - now rewrite Hn.
       - rewrite Hheap. subst n. now rewrite heap_at_1. }
  destruct (string_dec path EmptyString) as [-> | Hne].
  - destruct (reconcile_disable E st_b) as (s1 & Hrun & Hd & _).
    rewrite Hrun in Hrec. injection Hrec as <-.
    split; [destruct Hd as (_ & -> & _); exact Hrl |].
    intros h Hin. pose proof Hd as (Hh1 & _). rewrite Hh1, Hhs in Hin.
    destruct (detach_events_pipeline _ n Hc Hf) as [_ Hoth]. rewrite Hoth in Hin.
    destruct Hin as [<- | []].
    destruct (detached_other_sink st_b s1 n Hd) as [_ ->];
      [rewrite Hhs; now left | exact Hc | now rewrite Hn].
  - destruct (mkdir_error E AtReconcile (path_parent E path)) as [m |] eqn:Hm.
    { rewrite (reconcile_mkdir_fails E path st_b m Hne Hm) in Hrec. discriminate. }
    destruct (open_error E AtReconcile path) as [m |] eqn:Ho.
    { destruct (reconcile_open_fails E path st_b m Hne Hm Ho) as (s1 & Hrun & _).
      rewrite Hrun in Hrec. discriminate. }
    destruct (reconcile_custom_ok E path st_b Hne Hm Ho) as (s1 & s2 & Hrun & Hd & _ & Hat).
    rewrite Hrun in Hrec. injection Hrec as <-.
    pose proof Hd as (Hh1 & Hr1 & Hl1 & _).
    pose proof Hat as (Hh2 & Hr2 & Hp2 & _).
    split; [congruence |].
    destruct (detach_events_pipeline _ n Hc Hf) as [_ Hoth].
    rewrite Hh1, Hhs, Hoth, Hl1, Hlen in Hh2. rewrite add_to_pipeline in Hh2.
    intros h Hin. rewrite Hh2 in Hin. destruct Hin as [<- | [<- | []]].
    + rewrite (attached_old_object _ _ _ _ _ Hat) by lia.
      destruct (detached_other_sink st_b s1 n Hd) as [_ ->];
        [rewrite Hhs; now left | exact Hc | now rewrite Hn].
    + rewrite Hp2. rewrite <- Hlen, <- Hl1. now rewrite heap_at_0.
Qed.

(** At the end of the script the root logger and every attached sink have
    the numeric level of the effective level. *)
Lemma reaches_server_final_levels E argv st0 args st2 :
  reaches_server E argv st0 args st2 ->
  let level := effective_log_level E args in
  let st' := (run E argv st0).1 in
  root_level st' = numeric_level level /\
  (forall h, In h (root_handlers st') ->
     h_level <$> heap st' !! h = Some (numeric_level level)).
Proof.
  intros Hreach level st'. subst st'.
  destruct (reaches_server_pipeline _ _ _ _ _ Hreach) as [Hrl Hlv].
  rewrite run_state, (reaches_server_script _ _ _ _ _ Hreach). fold level.
  destruct (start_server_levels E args level st2) as (Hr' & Hh' & Hp').
  split; [exact Hr' |].
  intros h Hin. rewrite Hh' in Hin. rewrite Hp'.
  pose proof (Hlv h Hin) as Hl. apply mem_In in Hin. rewrite Hin.
  destruct (heap st2 !! h) as [H |]; [reflexivity | discriminate].
Qed.

(** C4, as the script behaves.  Once the guarded block is reached, the
    startup lines (bind address, level, and the path of the first file sink
    if one is attached) are logged first, while the root logger and every
    attached sink still have the level INFO of the import; only then is the
    effective level set on the root logger and on every attached sink, in
    this order, and at the end of the script the root logger and every
    attached sink have the effective level. *)
Theorem startup_lines_precede_level E argv st0 args st2 :
  reaches_server E argv st0 args st2 ->
  let level := effective_log_level E args in
  let st' := (run E argv st0).1 in
  root_level st2 = INFO /\
  (forall h, In h (root_handlers st2) -> h_level <$> heap st2 !! h = Some INFO) /\
  (exists lines rest,
     trace st' =
       trace st2 ++ lines
         ++ EvSetRootLevel (numeric_level level)
            :: level_events (numeric_level level) (root_handlers st2) ++ rest /\
     forallb is_log_event lines = true /\
     log_calls lines = startup_lines args level st2) /\
  root_level st' = numeric_level level /\
  (forall h, In h (root_handlers st') ->
     h_level <$> heap st' !! h = Some (numeric_level level)).
Proof.
  intros Hreach level st'.
  destruct (reaches_server_pipeline _ _ _ _ _ Hreach) as [Hrl Hlv].
  split; [exact Hrl |]. split; [exact Hlv |].
  split; [| now apply (reaches_server_final_levels E argv st0 args st2)].
  subst st'. rewrite run_state, (reaches_server_script _ _ _ _ _ Hreach).
  apply start_server_trace.
Qed.

Lemma startup_lines_precede_level_witness :
  let st2 := (module_level plain_env fresh_state).1 in
  let st' := (run plain_env [OptLogLevel "error"] fresh_state).1 in
  root_level st2 = INFO /\
  (forall h, In h (root_handlers st2) -> h_level <$> heap st2 !! h = Some INFO) /\
  (exists lines rest,
     trace st' =
       trace st2 ++ lines
         ++ EvSetRootLevel ERROR :: level_events ERROR (root_handlers st2) ++ rest /\
     forallb is_log_event lines = true /\
     log_calls lines =
       [(logger, INFO, "Starting DeerFlow API server on localhost:8000");
        (logger, INFO, "Log level: ERROR");
        (logger, INFO, "Log file: /srv/logs/academic-agent.log")]) /\
  root_level st' = ERROR /\
  (forall h, In h (root_handlers st') -> h_level <$> heap st' !! h = Some ERROR).
Proof.
  apply (startup_lines_precede_level plain_env [OptLogLevel "error"] fresh_state
           {| reload := false; host := "localhost"; port := 8000; log_level := "error";
              log_file_arg := None |}
           (module_level plain_env fresh_state).1
           (ex_intro _ (module_level plain_env fresh_state).1
              (conj eq_refl (conj eq_refl eq_refl)))).
Defined.

(** C4, as the specification words it, fails: with [--log-level error] the
    first startup line is logged when the only level set on the root logger
    so far is the INFO of the import. *)
Lemma level_not_applied_before_startup_lines :
  ~ level_applied_before_startup_lines plain_env [OptLogLevel "error"] fresh_state.
Proof.
  intros H.
  destruct (H {| reload := false; host := "localhost"; port := 8000;
                 log_level := "error"; log_file_arg := None |} 11%nat eq_refl eq_refl)
    as (j & Hlt & Hj).
  vm_compute in Hj.
  do 11 (destruct j as [| j]; [discriminate |]). lia.
Qed.

(** What the sinks show for it: the console sink received the startup lines
    at INFO although the effective level of the run is ERROR. *)
Example startup_lines_emitted_below_effective_level :
  emitted_to 0 (trace (run plain_env [OptLogLevel "error"] fresh_state).1) =
  [(INFO, "Starting DeerFlow API server on localhost:8000");
   (INFO, "Log level: ERROR");
   (INFO, "Log file: /srv/logs/academic-agent.log")].
Proof. vm_compute. reflexivity. Qed.

(** ** The effective level *)

Lemma effective_log_level_spec E args :
  effective_log_level E args =
  if env_debug_truthy (getenv_DEBUG E) then "debug" else log_level args.
Proof.
  unfold effective_log_level, env_debug_truthy.
  destruct (getenv_DEBUG E) as [s |]; [| reflexivity].
  simpl default. now rewrite StrFacts.lower_in_truthy.
Qed.

Lemma parse_items_known argv a args :
  parse_items argv a = Parsed args -> parse_known_items argv a = Parsed args.
Proof.
  unfold parse_items. destruct (parse_known_items argv a) as [a' | o v |]; try discriminate.
  destruct (extras argv); [trivial | discriminate].
Qed.

Lemma parse_known_items_log_level argv :
  forall a args,
    parse_known_items argv a = Parsed args ->
    In (log_level a) log_level_choices -> In (log_level args) log_level_choices.
Proof.
  induction argv as [| item argv IH]; intros a args Hp Ha.
  - simpl in Hp. injection Hp as <-. exact Ha.
  - destruct item as [| | v | v | v | v | w | w]; cbn [parse_known_items] in Hp;
      try discriminate.
    + apply (IH _ _ Hp). exact Ha.
    + apply (IH _ _ Hp). exact Ha.
    + destruct (Str.py_int v); [| discriminate]. apply (IH _ _ Hp). exact Ha.
    + destruct (Str.str_in v log_level_choices) eqn:Hv; [| discriminate].
      apply (IH _ _ Hp). cbn [log_level]. now apply StrFacts.str_in_spec.
    + apply (IH _ _ Hp). exact Ha.
    + apply (IH _ _ Hp). exact Ha.
Qed.

Lemma parse_items_log_level argv a args :
  parse_items argv a = Parsed args ->
  In (log_level a) log_level_choices -> In (log_level args) log_level_choices.
Proof.
  intros Hp. apply (parse_known_items_log_level argv a args).
  now apply parse_items_known.
Qed.

Lemma parsed_log_level_is_choice argv args :
  parse_items argv default_args = Parsed args -> In (log_level args) log_level_choices.
Proof.
  intros Hp. apply (parse_items_log_level argv default_args args Hp).
  simpl. auto.
Qed.

Lemma severity_of_choice_numeric v :
  In v log_level_choices -> severity_of_choice v = Some (numeric_level v).
Proof.
  intros [<- | [<- | [<- | [<- | [<- | []]]]]]; reflexivity.
Qed.

(** C5.  Once the guarded block is reached: if the variable DEBUG equals
    true, 1 or yes up to the case of its letters, the effective level is
    debug whatever [--log-level] says, and otherwise it is the value of
    [--log-level]; the root logger and every attached sink end with the
    severity that this level names. *)
Theorem env_debug_overrides_cli_level E argv st0 args st2 :
  reaches_server E argv st0 args st2 ->
  let truthy := env_debug_truthy (getenv_DEBUG E) in
  let st' := (run E argv st0).1 in
  effective_log_level E args = (if truthy then "debug" else log_level args) /\
  Some (root_level st') =
    (if truthy then Some DEBUG else severity_of_choice (log_level args)) /\
  (forall h, In h (root_handlers st') ->
     h_level <$> heap st' !! h =
       if truthy then Some DEBUG else severity_of_choice (log_level args)).
Proof.
  intros Hreach truthy st'.
  destruct (reaches_server_final_levels E argv st0 args st2 Hreach) as (Hrl & Hlv).
  fold st' in Hrl, Hlv.
  pose proof (effective_log_level_spec E args) as Heff. fold truthy in Heff.
  assert (Hnum : Some (numeric_level (effective_log_level E args)) =
                 if truthy then Some DEBUG else severity_of_choice (log_level args)).
  { rewrite Heff. destruct truthy; [reflexivity |].
    destruct Hreach as (_ & _ & Hp & _).
    symmetry. apply severity_of_choice_numeric.
    now apply (parsed_log_level_is_choice argv). }
  split; [exact Heff |]. split; [now rewrite Hrl |].
  intros h Hin. now rewrite (Hlv h Hin).
Qed.

Lemma env_debug_overrides_cli_level_witness :
  let st' := (run (debug_env "TRUE") [OptLogLevel "info"] fresh_state).1 in
  effective_log_level (debug_env "TRUE") default_args = "debug" /\
  Some (root_level st') = Some DEBUG /\
  (forall h, In h (root_handlers st') -> h_level <$> heap st' !! h = Some DEBUG).
Proof.
  apply (env_debug_overrides_cli_level (debug_env "TRUE") [OptLogLevel "info"] fresh_state
           default_args (module_level (debug_env "TRUE") fresh_state).1
           (ex_intro _ (module_level (debug_env "TRUE") fresh_state).1
              (conj eq_refl (conj eq_refl eq_refl)))).
Defined.

(** ** The port and the order of parsing and attaching *)

(** Whatever the server does, the call is recorded with its arguments. *)
Lemma start_server_serves E args level st :
  exists pre post,
    trace (start_server E args level st).1 =
      pre ++ EvServe (serve_args_of args level) :: post.
Proof.
  rewrite start_server_unfold. cbv zeta.
  match goal with |- context [uvicorn_run E _ ?s] => set (st3 := s) end.
  unfold uvicorn_run, emit. rewrite bind_modify.
  set (a := serve_args_of args level).
  set (s3 := record_event (EvServe a) st3).
  set (k := match serve E a with
            | ServeReturns => ret tt
            | ServeRaises e => raise e
            | ServeSignal s => deliver s
            end).
  assert (Hq : quiet s3 (k s3).1).
  { subst k. destruct (serve E a); [reflexivity | reflexivity | apply quiet_deliver]. }
  destruct (k s3) as [st4 [[] | e]]; simpl in Hq |- *.
  - destruct Hq as (_ & _ & _ & es & -> & _). exists (trace st3), es.
    subst s3. simpl. now rewrite <- app_assoc.
  - destruct Hq as (_ & _ & _ & es & Htr & _).
    destruct (is_Exception e).
    + unfold log. rewrite bind_modify. simpl. rewrite Htr.
      eexists (trace st3), _. subst s3. simpl. rewrite <- !app_assoc. reflexivity.
    + simpl. rewrite Htr. exists (trace st3), es.
      subst s3. simpl. now rewrite <- app_assoc.
Qed.

(** C1, as the script behaves.  When the import returns, the console sink
    and the default rotating-file sink are attached to the root logger
    before the command line is looked at.  A command line that argparse
    rejects (such as a [--port] value that is not an integer) ends the
    process with status 2 after the usage message, with the pipeline as the
    import left it.  The value of [--port] is converted by int and not
    compared with any bound: every integer is accepted, and the server is
    called with it. *)
Theorem port_unchecked_and_sinks_attached_first E st0 st_b :
  module_level E st0 = (st_b, Ok tt) ->
  let n := length (heap st0) in
  (root_handlers st_b = [n; S n] /\
   heap st_b !! n = Some console_obj /\
   heap st_b !! S n = Some (rotating_obj E log_file)) /\
  (forall argv opt v,
     parse_items argv default_args = UsageError opt v ->
     run E argv st0 = (record_event (EvUsage opt v) st_b, Exit 2)) /\
  (forall v, Str.py_int v = None ->
     parse_items [OptPort v] default_args = UsageError "--port" v) /\
  (forall v p, Str.py_int v = Some p ->
     parse_items [OptPort v] default_args = Parsed (set_port p default_args) /\
     exists pre post,
       trace (run E [OptPort v] st0).1 =
         pre ++ EvServe (serve_args_of (set_port p default_args)
                           (effective_log_level E (set_port p default_args)))
             :: post).
Proof.
  intros Him n.
  destruct (module_level_inv _ _ _ Him) as (Hq & Hl & _).
  destruct (import_pipeline E st0 st_b Hq Hl) as (Hhs & Hheap & _).
  split; [| split; [| split]].
  - split; [exact Hhs |]. rewrite Hheap. subst n. split; [apply heap_at_0 | apply heap_at_1].
  - intros argv opt v Hp. unfold run.
    rewrite (script_import_ok _ _ _ _ Him), (main_usage_error _ _ _ _ _ Hp). reflexivity.
  - intros v Hv. unfold parse_items. cbn [parse_known_items]. now rewrite Hv.
  - intros v p Hv.
    assert (Hp : parse_items [OptPort v] default_args = Parsed (set_port p default_args))
      by (unfold parse_items; cbn [parse_known_items extras]; now rewrite Hv).
    split; [exact Hp |].
    rewrite run_state.
    rewrite (reaches_server_script E [OptPort v] st0 (set_port p default_args) st_b).
    + apply start_server_serves.
    + exists st_b. split; [exact Him |]. split; [exact Hp | reflexivity].
Qed.

Lemma port_unchecked_and_sinks_attached_first_witness :
  let st_b := (module_level plain_env fresh_state).1 in
  (root_handlers st_b = [0%nat; 1%nat] /\
   heap st_b !! 0%nat = Some console_obj /\
   heap st_b !! 1%nat = Some (rotating_obj plain_env log_file)) /\
  run plain_env [OptPort "http"] fresh_state =
    (record_event (EvUsage "--port" "http") st_b, Exit 2) /\
  parse_items [OptPort "99999"] default_args = Parsed (set_port 99999 default_args) /\
  exists pre post,
    trace (run plain_env [OptPort "99999"] fresh_state).1 =
      pre ++ EvServe (serve_args_of (set_port 99999 default_args) "info") :: post.
Proof.
  pose proof (port_unchecked_and_sinks_attached_first plain_env fresh_state
                (module_level plain_env fresh_state).1 eq_refl) as (H1 & H2 & _ & H4).
  split; [exact H1 |].
  split; [exact (H2 [OptPort "http"] "--port" "http" eq_refl) |].
  exact (H4 "99999" 99999 eq_refl).
Defined.

(** C1, as the specification words it, fails: [--port 99999] is accepted,
    the process ends with status 0 after the server returns, and both sinks
    are attached. *)
Lemma out_of_range_port_not_rejected :
  ~ out_of_range_port_rejected plain_env "99999" fresh_state.
Proof.
  intros H. destruct (H 99999 eq_refl eq_refl) as [(c & Hc & Hne) _].
  vm_compute in Hc. injection Hc as <-. now apply Hne.
Qed.


(** ** The bound on file sinks, on a run that replaces the sink *)




(** The number of file sinks after each event since the handlers were
    cleared, when the default sink is replaced by a custom one. *)
Example file_sinks_along_replacement :
  let st' := (script plain_env [OptLogFile "custom.log"] fresh_state).1 in
  map (file_sinks (heap st')) (history (drop 3 (trace st')) []) =
  [0; 0; 0; 0; 0; 0; 0; 1; 1; 0; 0; 0; 0; 0;
   1; 1; 1; 1; 1; 1; 1; 1; 1; 1; 1; 1; 1; 1]%nat.
Proof. vm_compute. reflexivity. Qed.

(** * Further properties of the script *)

(** ** Calls of the server *)

Lemma serve_calls_app a b : serve_calls (a ++ b) = serve_calls a ++ serve_calls b.
Proof.
  induction a as [| e a IH]; [reflexivity |].
  destruct e; simpl; rewrite ?IH; reflexivity.
Qed.

#[local] Instance no_serve_preorder : PreOrder no_serve.
Proof.
  split.
  - intros st. exists []. split; [now rewrite app_nil_r | reflexivity].
  - intros s1 s2 s3 (ea & Ta & Ca) (eb & Tb & Cb). exists (ea ++ eb). split.
    + now rewrite Tb, Ta, app_assoc.
    + now rewrite serve_calls_app, Ca, Cb.
Qed.

Lemma no_serve_intro st st' es :
  trace st' = trace st ++ es -> serve_calls es = [] -> no_serve st st'.
Proof. intros Ht Hc. now exists es. Qed.

Lemma quiet_events_of_log_no_serve l : forallb is_log_event l = true -> serve_calls l = [].
Proof.
  induction l as [| e l IH]; [reflexivity |]. simpl. intros H.
  apply andb_true_iff in H as [He Hl]. destruct e; try discriminate; now apply IH.
Qed.

Lemma no_serve_log name level msg : stable no_serve (log name level msg).
Proof.
  intros st. destruct (log_state name level msg st) as (emits & -> & Hf & _).
  eapply no_serve_intro; [reflexivity |].
  simpl. now apply quiet_events_of_log_no_serve.
Qed.

Ltac by_no_serve :=
  intros; apply stable_modify; intros ?;
  first [ eapply no_serve_intro; [reflexivity | reflexivity]
        | apply (no_serve_intro _ _ []); [simpl; now rewrite app_nil_r | reflexivity] ].

Lemma no_serve_root_setLevel l : stable no_serve (root_setLevel l).
Proof. by_no_serve. Qed.
Lemma no_serve_handlers_clear : stable no_serve handlers_clear.
Proof. by_no_serve. Qed.
Lemma no_serve_Handler_setLevel h l : stable no_serve (Handler_setLevel h l).
Proof. by_no_serve. Qed.
Lemma no_serve_Handler_setFormatter h f : stable no_serve (Handler_setFormatter h f).
Proof. by_no_serve. Qed.
Lemma no_serve_Handler_close h : stable no_serve (Handler_close h).
Proof. by_no_serve. Qed.
Lemma no_serve_addHandler h : stable no_serve (addHandler h).
Proof. by_no_serve. Qed.
Lemma no_serve_removeHandler h : stable no_serve (removeHandler h).
Proof. by_no_serve. Qed.
Lemma no_serve_Logger_setLevel name l : stable no_serve (Logger_setLevel name l).
Proof. by_no_serve. Qed.
Lemma no_serve_signal_signal s : stable no_serve (signal_signal s).
Proof. by_no_serve. Qed.
Lemma no_serve_new_handler H : stable no_serve (new_handler H).
Proof. intros st. eapply no_serve_intro; reflexivity. Qed.
Lemma no_serve_emit e : serve_calls [e] = [] -> stable no_serve (emit e).
Proof.
  intros He. apply stable_modify. intros st. eapply no_serve_intro; [reflexivity | exact He].
Qed.

#[local] Hint Resolve no_serve_log no_serve_root_setLevel no_serve_handlers_clear
  no_serve_Handler_setLevel no_serve_Handler_setFormatter no_serve_Handler_close
  no_serve_addHandler no_serve_removeHandler no_serve_Logger_setLevel
  no_serve_signal_signal no_serve_new_handler no_serve_emit : stable.

Lemma no_serve_set_handler_levels hs l : stable no_serve (set_handler_levels hs l).
Proof. induction hs; simpl; stable_auto. Qed.

Lemma no_serve_remove_file_handlers copy : stable no_serve (remove_file_handlers copy).
Proof. induction copy; simpl; stable_auto. Qed.

#[local] Hint Resolve no_serve_set_handler_levels no_serve_remove_file_handlers : stable.

Lemma no_serve_module_level E : stable no_serve (module_level E).
Proof.
  unfold module_level, setup_logging, windows_policy, register_signals, mkdir,
    new_StreamHandler, new_RotatingFileHandler.
  stable_auto.
Qed.

Lemma no_serve_parse_args argv : stable no_serve (parse_args argv).
Proof. unfold parse_args. stable_auto. Qed.

Lemma no_serve_reconcile_log_file E arg : stable no_serve (reconcile_log_file E arg).
Proof. unfold reconcile_log_file, mkdir, new_RotatingFileHandler. stable_auto. Qed.

Lemma no_serve_log_startup_lines args level : stable no_serve (log_startup_lines args level).
Proof. unfold log_startup_lines. stable_auto. Qed.

Lemma no_serve_apply_level level : stable no_serve (apply_level level).
Proof. unfold apply_level. stable_auto. Qed.

Lemma no_serve_enable_debug_packages level : stable no_serve (enable_debug_packages level).
Proof. unfold enable_debug_packages. stable_auto. Qed.

Lemma no_serve_deliver s : stable no_serve (deliver s).
Proof. unfold deliver, handle_shutdown. stable_auto. Qed.

Lemma no_serve_before_serve args level st : no_serve st (before_serve args level st).
Proof.
  unfold before_serve.
  etransitivity; [apply no_serve_log_startup_lines |].
  etransitivity; [apply no_serve_apply_level | apply no_serve_enable_debug_packages].
Qed.

Lemma start_server_before_serve E args level st :
  start_server E args level st =
  match uvicorn_run E (serve_args_of args level) (before_serve args level st) with
  | (st4, Ok _) => (st4, Ok tt)
  | (st4, Raise e) =>
      if is_Exception e
      then (log logger ERROR ("Failed to start server: " +:+ exc_msg e) ;; sys_exit 1) st4
      else (st4, Raise e)
  end.
Proof. apply start_server_unfold. Qed.

(** The guarded block calls the server once, with the arguments of the
    command line and the effective level. *)
Lemma start_server_serve_calls E args level st :
  exists es,
    trace (start_server E args level st).1 = trace st ++ es /\
    serve_calls es = [serve_args_of args level].
Proof.
  rewrite start_server_before_serve.
  destruct (no_serve_before_serve args level st) as (es1 & Ht1 & Hc1).
  set (st3 := before_serve args level st) in *.
  unfold uvicorn_run, emit. rewrite bind_modify.
  set (a := serve_args_of args level).
  set (s3 := record_event (EvServe a) st3).
  set (k := match serve E a with
            | ServeReturns => ret tt
            | ServeRaises e => raise e
            | ServeSignal s => deliver s
            end).
  assert (Hk : no_serve s3 (k s3).1).
  { subst k. destruct (serve E a); [reflexivity | reflexivity | apply no_serve_deliver]. }
  assert (Hfin : no_serve s3
            (match k s3 with
             | (st4, Ok _) => (st4, Ok tt)
             | (st4, Raise e) =>
                 if is_Exception e
                 then (log logger ERROR ("Failed to start server: " +:+ exc_msg e) ;;
                       sys_exit 1) st4
                 else (st4, Raise e)
             end).1).
  { destruct (k s3) as [st4 [[] | e]]; simpl in Hk |- *; [exact Hk |].
    destruct (is_Exception e); [| exact Hk].
    etransitivity; [exact Hk |].
    apply (stable_bind no_serve); [apply no_serve_log | intros _; apply stable_sys_exit; apply _]. }
  destruct Hfin as (es2 & Ht2 & Hc2).
  exists (es1 ++ EvServe a :: es2). split.
  - rewrite Ht2. subst s3. simpl. rewrite Ht1. now rewrite <- !app_assoc.
  - rewrite serve_calls_app, Hc1. simpl. now rewrite Hc2.
Qed.

(** The script either reaches the guarded block, or ends without a call of
    the server. *)
Lemma script_reaches_or_not E argv st0 :
  (exists args st2, reaches_server E argv st0 args st2) \/
  no_serve st0 (script E argv st0).1.
Proof.
  pose proof (no_serve_module_level E st0) as Hm.
  destruct (module_level E st0) as [st_b [[] | e]] eqn:Him.
  2: { right. rewrite (script_import_fails _ _ _ _ _ Him). exact Hm. }
  simpl in Hm. rewrite (script_import_ok _ _ _ _ Him).
  destruct (parse_items argv default_args) as [args | opt v |] eqn:Hp.
  - pose proof (no_serve_reconcile_log_file E (log_file_arg args) st_b) as Hr.
    destruct (reconcile_log_file E (log_file_arg args) st_b) as [st2 [[] | e]] eqn:Hrec.
    + left. exists args, st2, st_b. now repeat split.
    + right. rewrite (main_parsed _ _ _ _ Hp), (bind_fail _ _ _ _ _ Hrec).
      simpl in *. etransitivity; eassumption.
  - right. rewrite (main_usage_error _ _ _ _ _ Hp). simpl.
    etransitivity; [exact Hm |]. eapply no_serve_intro; reflexivity.
  - right. rewrite (main_help _ _ _ Hp). simpl.
    etransitivity; [exact Hm |]. eapply no_serve_intro; reflexivity.
Qed.

Lemma reaches_server_no_serve E argv st0 args st2 :
  reaches_server E argv st0 args st2 -> no_serve st0 st2.
Proof.
  intros (st_b & Him & _ & Hrec).
  pose proof (no_serve_module_level E st0) as Hm. rewrite Him in Hm.
  pose proof (no_serve_reconcile_log_file E (log_file_arg args) st_b) as Hr.
  rewrite Hrec in Hr. simpl in *. etransitivity; eassumption.
Qed.

Lemma reaches_server_unique E argv st0 args st2 args' st2' :
  reaches_server E argv st0 args st2 -> reaches_server E argv st0 args' st2' ->
  args' = args /\ st2' = st2.
Proof.
  intros (sb & Hi & Hp & Hr) (sb' & Hi' & Hp' & Hr').
  rewrite Hi in Hi'. injection Hi' as <-.
  rewrite Hp in Hp'. injection Hp' as <-.
  rewrite Hr in Hr'. injection Hr' as <-. now split.
Qed.

(** X1.  The server is called exactly once, with the host, port and reload
    flag of the command line and the effective level, when the import, the
    parsing and the reconciliation of the log file all succeed; in every
    other run (a failing import, a usage error, --help, a log file that
    cannot be set up) it is never called. *)
Theorem server_called_once_iff_reached E argv st0 :
  let es := new_events st0 (run E argv st0).1 in
  (forall args st2,
     reaches_server E argv st0 args st2 ->
     serve_calls es = [serve_args_of args (effective_log_level E args)]) /\
  ((forall args st2, ~ reaches_server E argv st0 args st2) -> serve_calls es = []).
Proof.
  intros es. subst es. rewrite run_state. split.
  - intros args st2 Hreach.
    destruct (reaches_server_no_serve _ _ _ _ _ Hreach) as (es0 & Ht0 & Hc0).
    rewrite (reaches_server_script _ _ _ _ _ Hreach).
    destruct (start_server_serve_calls E args (effective_log_level E args) st2)
      as (es1 & Ht1 & Hc1).
    rewrite (new_events_app st0 _ (es0 ++ es1)).
    + now rewrite serve_calls_app, Hc0, Hc1.
    + now rewrite Ht1, Ht0, app_assoc.
  - intros Hnot. destruct (script_reaches_or_not E argv st0) as [(args & st2 & Hr) | Hn].
    + now destruct (Hnot args st2).
    + destruct Hn as (es & Ht & Hc). now rewrite (new_events_app _ _ _ Ht).
Qed.

Lemma server_called_once_iff_reached_witness :
  serve_calls (new_events fresh_state
                 (run (debug_env "1") [OptHost "0.0.0.0"; OptReload] fresh_state).1) =
    [{| sv_app := "src.server:app"; sv_host := "0.0.0.0"; sv_port := 8000;
        sv_reload := true; sv_log_level := "debug" |}] /\
  serve_calls (new_events fresh_state
                 (run plain_env [OptLogLevel "verbose"] fresh_state).1) = [].
Proof.
  split.
  - apply (proj1 (server_called_once_iff_reached (debug_env "1")
                    [OptHost "0.0.0.0"; OptReload] fresh_state)
             {| reload := true; host := "0.0.0.0"; port := 8000; log_level := "info";
                log_file_arg := None |}
             (module_level (debug_env "1") fresh_state).1).
    exists (module_level (debug_env "1") fresh_state).1. repeat split.
  - apply (proj2 (server_called_once_iff_reached plain_env
                    [OptLogLevel "verbose"] fresh_state)).
    intros args st2 (st_b & _ & Hp & _). discriminate Hp.
Defined.

(** ** A failing import *)

(** X2.  When the log directory cannot be made, the script ends with the
    OSError before it touches the logging state, whatever the command line.
    When the directory can be made but the default log file cannot be
    opened, the script ends with the OSError after the root logger was set
    to INFO and its handlers were replaced by the console sink alone: no
    file sink is attached, the signal dispositions are as before, and the
    command line is never parsed (not even --help is answered). *)
Theorem import_failure_precedes_parsing E argv st0 :
  (forall m, mkdir_error E AtImport log_dir = Some m ->
     run E argv st0 = (st0, Traceback {| exc_cls := OSError; exc_msg := m |})) /\
  (forall m, mkdir_error E AtImport log_dir = None ->
     open_error E AtImport log_file = Some m ->
     let st' := (run E argv st0).1 in
     (run E argv st0).2 = Traceback {| exc_cls := OSError; exc_msg := m |} /\
     root_level st' = INFO /\
     root_handlers st' = [length (heap st0)] /\
     heap st' !! length (heap st0) = Some console_obj /\
     file_sinks (heap st') (root_handlers st') = 0%nat /\
     on_sigterm st' = on_sigterm st0 /\ on_sigint st' = on_sigint st0 /\
     log_calls (new_events st0 st') = [] /\
     Forall (fun e => e <> EvHelp /\ forall o v, e <> EvUsage o v) (new_events st0 st')).
Proof.
  split.
  - intros m Hm. unfold run.
    now rewrite (script_import_fails _ _ _ _ _ (module_level_mkdir_fails E st0 m Hm)).
  - intros m Hm Ho st'. subst st'. rewrite run_result, run_state.
    rewrite (script_import_fails _ _ _ _ _ (module_level_open_fails E st0 m Hm Ho)).
    simpl fst. simpl snd.
    rewrite (new_events_app st0 (console_state st0) _ eq_refl).
    split; [reflexivity |]. split; [reflexivity |]. split; [reflexivity |].
    split; [apply heap_at_0 |]. split.
    { unfold file_sinks. simpl. unfold is_rotating. now rewrite heap_at_0. }
    split; [reflexivity |]. split; [reflexivity |]. split; [reflexivity |].
    simpl. repeat (constructor; [split; [discriminate | intros; discriminate] |]).
    constructor.
Qed.

Lemma import_failure_precedes_parsing_witness :
  run readonly_env [OptHelp] fresh_state =
    (fresh_state, Traceback {| exc_cls := OSError; exc_msg := "Read-only file system" |}) /\
  let st' := (run locked_env [OptHelp] fresh_state).1 in
  (run locked_env [OptHelp] fresh_state).2 =
    Traceback {| exc_cls := OSError; exc_msg := "Permission denied" |} /\
  root_level st' = INFO /\
  root_handlers st' = [0%nat] /\
  heap st' !! 0%nat = Some console_obj /\
  file_sinks (heap st') (root_handlers st') = 0%nat /\
  on_sigterm st' = SigDefault /\ on_sigint st' = SigDefault /\
  log_calls (new_events fresh_state st') = [] /\
  Forall (fun e => e <> EvHelp /\ forall o v, e <> EvUsage o v) (new_events fresh_state st').
Proof.
  split.
  - apply (proj1 (import_failure_precedes_parsing readonly_env [OptHelp] fresh_state)
             "Read-only file system" eq_refl).
  - apply (proj2 (import_failure_precedes_parsing locked_env [OptHelp] fresh_state)
             "Permission denied" eq_refl eq_refl).
Defined.

(** ** The numeric level *)

Lemma effective_level_is_choice E argv args :
  parse_items argv default_args = Parsed args ->
  In (effective_log_level E args) log_level_choices.
Proof.
  intros Hp. rewrite effective_log_level_spec.
  destruct (env_debug_truthy (getenv_DEBUG E)); [simpl; auto |].
  now apply (parsed_log_level_is_choice argv).
Qed.

(** X3.  For every command line that parses and every environment, the
    level name that the script looks up in the logging module is one of the
    five level constants: the numeric level is the severity that the
    effective level names, and the INFO fallback of the lookup is never
    used (any other fallback would give the same level). *)
Theorem level_lookup_never_falls_back E argv args fallback :
  parse_items argv default_args = Parsed args ->
  let level := effective_log_level E args in
  getattr_logging (Str.upper level) fallback = numeric_level level /\
  severity_of_choice level = Some (numeric_level level) /\
  In (numeric_level level) [DEBUG; INFO; WARNING; ERROR; CRITICAL].
Proof.
  intros Hp level.
  pose proof (effective_level_is_choice E argv args Hp) as Hin. fold level in Hin.
  destruct Hin as [<- | [<- | [<- | [<- | [<- | []]]]]];
    (split; [reflexivity | split; [reflexivity | simpl; auto 6]]).
Qed.

Lemma level_lookup_never_falls_back_witness :
  getattr_logging (Str.upper (effective_log_level (debug_env "yes")
                                (set_port 9000 default_args))) CRITICAL = DEBUG /\
  severity_of_choice (effective_log_level (debug_env "yes") (set_port 9000 default_args))
    = Some DEBUG /\
  In DEBUG [DEBUG; INFO; WARNING; ERROR; CRITICAL].
Proof.
  apply (level_lookup_never_falls_back (debug_env "yes") [OptPort "9000"]
           (set_port 9000 default_args) CRITICAL eq_refl).
Defined.

(** ** Runs without debug, and exceptions outside Exception *)

Lemma not_debug_lower level :
  In level log_level_choices -> level <> "debug" ->
  String.eqb (Str.lower level) "debug" = false.
Proof.
  intros [<- | [<- | [<- | [<- | [<- | []]]]]] Hne; (reflexivity || now destruct Hne).
Qed.

Lemma main_state_cases E argv args st :
  parse_items argv default_args = Parsed args ->
  let s1 := (reconcile_log_file E (log_file_arg args) st).1 in
  (main E argv st).1 = s1 \/
  (main E argv st).1 = (start_server E args (effective_log_level E args) s1).1.
Proof.
  intros Hp s1. subst s1. rewrite (main_parsed _ _ _ _ Hp). unfold bind.
  destruct (reconcile_log_file E (log_file_arg args) st) as [s [[] | e]]; simpl; auto.
Qed.

(** X4.  When the command line parses and the effective level is not debug,
    the script changes the level of no named logger, however it ends. *)
Theorem without_debug_named_loggers_untouched E argv args st0 :
  parse_items argv default_args = Parsed args ->
  effective_log_level E args <> "debug" ->
  logger_levels (run E argv st0).1 = logger_levels st0.
Proof.
  intros Hp Hne. rewrite run_state. unfold script, bind.
  pose proof (loggers_module_level E st0) as Hm.
  destruct (module_level E st0) as [st_b [[] | e]]; simpl in Hm; [| exact Hm].
  rewrite <- Hm.
  pose proof (loggers_reconcile_log_file E (log_file_arg args) st_b) as Hr.
  unfold keeps_loggers in Hr.
  destruct (main_state_cases E argv args st_b Hp) as [-> | ->]; [exact Hr |].
  rewrite start_server_loggers.
  rewrite not_debug_lower; [exact Hr | now apply (effective_level_is_choice E argv) | exact Hne].
Qed.

Lemma without_debug_named_loggers_untouched_witness :
  logger_levels (run failing_env [OptLogLevel "warning"] fresh_state).1 =
  logger_levels fresh_state.
Proof.
  apply (without_debug_named_loggers_untouched failing_env [OptLogLevel "warning"]
           {| reload := false; host := "localhost"; port := 8000; log_level := "warning";
              log_file_arg := None |} fresh_state eq_refl).
  discriminate.
Defined.

(** X5.  An exception of the server that is not an instance of Exception
    (SystemExit, KeyboardInterrupt) is not caught by the guarded block: it
    leaves the script as it is, nothing is logged after the call of the
    server, and the process ends as the interpreter ends it for that
    exception, not with the status 1 of a failed start. *)
Theorem base_exception_passes_through E argv st0 args st2 e :
  reaches_server E argv st0 args st2 ->
  let a := serve_args_of args (effective_log_level E args) in
  serve E a = ServeRaises e ->
  is_Exception e = false ->
  (script E argv st0).2 = Raise e /\
  (run E argv st0).2 =
    match exc_cls e with
    | SystemExit c => Exit c
    | Killed => Terminated
    | _ => Traceback e
    end /\
  trace (run E argv st0).1 =
    trace (before_serve args (effective_log_level E args) st2) ++ [EvServe a].
Proof.
  intros Hreach a He Hexc. rewrite run_result, run_state.
  rewrite (reaches_server_script _ _ _ _ _ Hreach), start_server_before_serve.
  fold a. rewrite (uvicorn_run_raises _ _ _ _ He), Hexc. simpl.
  split; [reflexivity |]. split; [| reflexivity].
  unfold is_Exception in Hexc. destruct (exc_cls e); (reflexivity || discriminate).
Qed.

Lemma base_exception_passes_through_witness :
  let e := {| exc_cls := OtherBaseException; exc_msg := "KeyboardInterrupt" |} in
  (script interrupted_env [] fresh_state).2 = Raise e /\
  (run interrupted_env [] fresh_state).2 = Traceback e /\
  trace (run interrupted_env [] fresh_state).1 =
    trace (before_serve default_args "info" (module_level interrupted_env fresh_state).1)
      ++ [EvServe (serve_args_of default_args "info")].
Proof.
  apply (base_exception_passes_through interrupted_env [] fresh_state default_args
           (module_level interrupted_env fresh_state).1
           {| exc_cls := OtherBaseException; exc_msg := "KeyboardInterrupt" |}
           (ex_intro _ (module_level interrupted_env fresh_state).1
              (conj eq_refl (conj eq_refl eq_refl))) eq_refl eq_refl).
Defined.

(** ** What the sinks receive *)

Lemma callHandlers_uniform name level msg st l :
  (forall h, In h (root_handlers st) -> h_level <$> heap st !! h = Some l) ->
  callHandlers name level msg st =
  if Z.leb l level then emissions (root_handlers st) name level msg else [].
Proof.
  unfold callHandlers, emissions.
  induction (root_handlers st) as [| h hs IH]; intros Hl.
  - now destruct (Z.leb l level).
  - simpl. rewrite IH by (intros h' Hin; apply Hl; now right).
    pose proof (Hl h (or_introl eq_refl)) as Hh.
    destruct (heap st !! h) as [H |]; [| discriminate].
    simpl in Hh. injection Hh as Hh. rewrite Hh.
    destruct (Z.leb l level); reflexivity.
Qed.

(** A log call on a logger without a level of its own, when all the
    attached handlers have the level [l]: the record is emitted to every
    handler if it reaches the level of the root logger and [l], and to none
    otherwise. *)
Lemma log_exact name level msg st l :
  logger_levels st !! name = None ->
  (forall h, In h (root_handlers st) -> h_level <$> heap st !! h = Some l) ->
  log name level msg st =
  (record_events
     (EvLogCall name level msg ::
      (if Z.leb (root_level st) level && Z.leb l level
       then emissions (root_handlers st) name level msg else [])) st, Ok tt).
Proof.
  intros Hn Hl. unfold log, modify, isEnabledFor, getEffectiveLevel. rewrite Hn.
  rewrite (callHandlers_uniform name level msg st l Hl).
  destruct (Z.leb (root_level st) level); destruct (Z.leb l level); reflexivity.
Qed.

Lemma main_logger_unset_debug (m : gmap string Z) :
  m !! logger = None ->
  (<["langgraph" := DEBUG]> (<["langchain" := DEBUG]> (<["src" := DEBUG]> m))) !! logger = None.
Proof. intros H. rewrite !lookup_insert_ne by discriminate. exact H. Qed.

(** The state in which the server is called. *)
Lemma before_serve_spec args level st :
  let st3 := before_serve args level st in
  root_level st3 = numeric_level level /\
  root_handlers st3 = root_handlers st /\
  (forall h, heap st3 !! h =
             if mem h (root_handlers st)
             then set_h_level (numeric_level level) <$> heap st !! h
             else heap st !! h) /\
  (on_sigterm st3 = on_sigterm st /\ on_sigint st3 = on_sigint st) /\
  (logger_levels st !! logger = None -> logger_levels st3 !! logger = None).
Proof.
  intros st3. subst st3. unfold before_serve.
  destruct (log_startup_lines_spec args level st) as (st1 & lines & Hrun1 & (_ & Hp1 & Hh1) & _).
  pose proof (signals_log_startup_lines args level st) as [s1 s2].
  pose proof (loggers_log_startup_lines args level st) as Hl1.
  rewrite Hrun1 in *. simpl fst in *.
  destruct (apply_level_spec level st1) as (st2 & Hrun2 & Hrl & Hhs & _ & Hheap).
  pose proof (signals_apply_level level st1) as [t1 t2].
  pose proof (loggers_apply_level level st1) as Hl2.
  rewrite Hrun2 in *. simpl fst in *.
  pose proof (levels_enable_debug_packages level st2) as (a1 & a2 & a3).
  pose proof (signals_enable_debug_packages level st2) as [u1 u2].
  pose proof (enable_debug_packages_loggers level st2) as Hl3.
  unfold keeps_loggers in Hl1, Hl2.
  split; [congruence |]. split; [congruence |]. split.
  { intros h. now rewrite a2, Hheap, Hh1, Hp1. }
  split; [split; congruence |].
  intros Hn. rewrite Hl3, Hl2, Hl1.
  destruct (String.eqb (Str.lower level) "debug"); [now apply main_logger_unset_debug | exact Hn].
Qed.

(** In a run that reaches the guarded block, when the server is called all
    attached handlers have the numeric level, and the logger of the script
    has no level of its own if it had none when the process started. *)
Lemma reaches_server_before_serve E argv st0 args st2 :
  reaches_server E argv st0 args st2 ->
  let level := effective_log_level E args in
  let st3 := before_serve args level st2 in
  root_level st3 = numeric_level level /\
  root_handlers st3 = root_handlers st2 /\
  (forall h, In h (root_handlers st3) ->
     h_level <$> heap st3 !! h = Some (numeric_level level)) /\
  (on_sigterm st3 = SigHandleShutdown /\ on_sigint st3 = SigHandleShutdown) /\
  (logger_levels st0 !! logger = None -> logger_levels st3 !! logger = None).
Proof.
  intros Hreach level st3.
  destruct (before_serve_spec args level st2) as (Hrl & Hhs & Hheap & (Ht & Hi) & Hlog).
  fold st3 in Hrl, Hhs, Hheap, Ht, Hi, Hlog.
  destruct (reaches_server_pipeline _ _ _ _ _ Hreach) as [_ Hlv].
  destruct (reaches_server_signals _ _ _ _ _ Hreach) as [Ht2 Hi2].
  split; [exact Hrl |]. split; [exact Hhs |]. split.
  { intros h Hin. rewrite Hhs in Hin. rewrite Hheap.
    pose proof (Hlv h Hin) as Hl. apply mem_In in Hin. rewrite Hin.
    destruct (heap st2 !! h); [reflexivity | discriminate]. }
  split; [split; congruence |].
  intros Hn. apply Hlog. now rewrite (reaches_server_loggers _ _ _ _ _ Hreach).
Qed.

(** X6.  When the start of the server fails with an exception and the
    logger of the script has no level of its own, the error line reaches
    every attached sink if the effective level is error or lower, and no
    sink at all if it is critical: the level set at startup also filters the
    report of the failure.  Nothing else is recorded after the call. *)
Theorem failed_start_emitted_by_level E argv st0 args st2 e :
  reaches_server E argv st0 args st2 ->
  logger_levels st0 !! logger = None ->
  let level := effective_log_level E args in
  let a := serve_args_of args level in
  let msg := "Failed to start server: " +:+ exc_msg e in
  let st' := (run E argv st0).1 in
  serve E a = ServeRaises e ->
  is_Exception e = true ->
  trace st' =
    trace (before_serve args level st2)
      ++ EvServe a :: EvLogCall logger ERROR msg
      :: (if Z.leb (numeric_level level) ERROR
          then emissions (root_handlers st') logger ERROR msg else []).
Proof.
  intros Hreach Hunset level a msg st' He Hexc. subst st'.
  destruct (reaches_server_before_serve _ _ _ _ _ Hreach) as (Hrl & Hhs & Hlv & _ & Hlog).
  fold level in Hrl, Hhs, Hlv, Hlog.
  rewrite run_state, (reaches_server_script _ _ _ _ _ Hreach), start_server_before_serve.
  fold level a. rewrite (uvicorn_run_raises _ _ _ _ He), Hexc.
  set (st3 := before_serve args level st2) in *.
  rewrite (bind_ok _ _ _ _ _
             (log_exact logger ERROR msg (record_event (EvServe a) st3)
                (numeric_level level) (Hlog Hunset) Hlv)).
  simpl. rewrite Hrl, andb_diag, <- app_assoc. reflexivity.
Qed.

Lemma failed_start_emitted_by_level_witness :
  let msg := "Failed to start server: [Errno 98] address already in use" in
  trace (run failing_env [OptLogLevel "critical"] fresh_state).1 =
    trace (before_serve
             {| reload := false; host := "localhost"; port := 8000;
                log_level := "critical"; log_file_arg := None |} "critical"
             (module_level failing_env fresh_state).1)
      ++ [EvServe (serve_args_of
                     {| reload := false; host := "localhost"; port := 8000;
                        log_level := "critical"; log_file_arg := None |} "critical");
          EvLogCall logger ERROR msg] /\
  trace (run failing_env [] fresh_state).1 =
    trace (before_serve default_args "info" (module_level failing_env fresh_state).1)
      ++ [EvServe (serve_args_of default_args "info");
          EvLogCall logger ERROR msg;
          EvEmit 0 logger ERROR msg; EvEmit 1 logger ERROR msg].
Proof.
  split.
  - apply (failed_start_emitted_by_level failing_env [OptLogLevel "critical"] fresh_state
             {| reload := false; host := "localhost"; port := 8000;
                log_level := "critical"; log_file_arg := None |}
             (module_level failing_env fresh_state).1
             {| exc_cls := OSError; exc_msg := "[Errno 98] address already in use" |}
             (ex_intro _ (module_level failing_env fresh_state).1
                (conj eq_refl (conj eq_refl eq_refl))) eq_refl eq_refl eq_refl).
  - apply (failed_start_emitted_by_level failing_env [] fresh_state default_args
             (module_level failing_env fresh_state).1
             {| exc_cls := OSError; exc_msg := "[Errno 98] address already in use" |}
             (ex_intro _ (module_level failing_env fresh_state).1
                (conj eq_refl (conj eq_refl eq_refl))) eq_refl eq_refl eq_refl).
Defined.

(** X7.  When a signal reaches the handler while the server runs and the
    logger of the script has no level of its own, the shutdown line reaches
    every attached sink if the effective level is debug or info, and no sink
    at all if it is warning or higher.  Nothing else is recorded after the
    delivery, and the process exits with status 0 either way. *)
Theorem shutdown_line_emitted_by_level E argv st0 args st2 s :
  reaches_server E argv st0 args st2 ->
  logger_levels st0 !! logger = None ->
  let level := effective_log_level E args in
  let a := serve_args_of args level in
  let st' := (run E argv st0).1 in
  serve E a = ServeSignal s ->
  (run E argv st0).2 = Exit 0 /\
  trace st' =
    trace (before_serve args level st2)
      ++ EvServe a :: EvSignal s :: EvLogCall logger INFO shutdown_message
      :: (if Z.leb (numeric_level level) INFO
          then emissions (root_handlers st') logger INFO shutdown_message else []).
Proof.
  intros Hreach Hunset level a st' Hsig. subst st'.
  destruct (reaches_server_before_serve _ _ _ _ _ Hreach)
    as (Hrl & Hhs & Hlv & (Ht & Hi) & Hlog).
  fold level in Hrl, Hhs, Hlv, Ht, Hi, Hlog.
  rewrite run_result, run_state.
  rewrite (reaches_server_script _ _ _ _ _ Hreach), start_server_before_serve.
  fold level a. rewrite (uvicorn_run_signal _ _ _ _ Hsig).
  set (st3 := before_serve args level st2) in *.
  rewrite deliver_installed by assumption.
  unfold handle_shutdown.
  rewrite (bind_ok _ _ _ _ _
             (log_exact logger INFO shutdown_message
                (record_event (EvSignal s) (record_event (EvServe a) st3))
                (numeric_level level) (Hlog Hunset) Hlv)).
  simpl. split; [reflexivity |].
  rewrite Hrl, andb_diag, <- !app_assoc. reflexivity.
Qed.

Lemma shutdown_line_emitted_by_level_witness :
  (run (signalled_env SIGINT) [OptLogLevel "warning"] fresh_state).2 = Exit 0 /\
  trace (run (signalled_env SIGINT) [OptLogLevel "warning"] fresh_state).1 =
    trace (before_serve
             {| reload := false; host := "localhost"; port := 8000;
                log_level := "warning"; log_file_arg := None |} "warning"
             (module_level (signalled_env SIGINT) fresh_state).1)
      ++ [EvServe (serve_args_of
                     {| reload := false; host := "localhost"; port := 8000;
                        log_level := "warning"; log_file_arg := None |} "warning");
          EvSignal SIGINT; EvLogCall logger INFO shutdown_message].
Proof.
  apply (shutdown_line_emitted_by_level (signalled_env SIGINT) [OptLogLevel "warning"]
           fresh_state
           {| reload := false; host := "localhost"; port := 8000;
              log_level := "warning"; log_file_arg := None |}
           (module_level (signalled_env SIGINT) fresh_state).1 SIGINT
           (ex_intro _ (module_level (signalled_env SIGINT) fresh_state).1
              (conj eq_refl (conj eq_refl eq_refl))) eq_refl eq_refl).
Defined.

Lemma log_startup_lines_exact args level st l :
  logger_levels st !! logger = None ->
  (forall h, In h (root_handlers st) -> h_level <$> heap st !! h = Some l) ->
  Z.leb (root_level st) INFO && Z.leb l INFO = true ->
  trace (log_startup_lines args level st).1 =
    trace st ++ flat_map (emitted_call (root_handlers st)) (startup_lines args level st).
Proof.
  intros Hn Hl Hen. unfold log_startup_lines, startup_lines.
  rewrite (bind_ok _ _ _ _ _ (log_exact logger INFO _ st l Hn Hl)). rewrite Hen.
  match goal with |- context [bind _ _ ?s] => set (st1 := s) end.
  assert (Hl1 : forall h, In h (root_handlers st1) -> h_level <$> heap st1 !! h = Some l)
    by exact Hl.
  assert (Hn1 : logger_levels st1 !! logger = None) by exact Hn.
  rewrite (bind_ok _ _ _ _ _ (log_exact logger INFO _ st1 l Hn1 Hl1)).
  change (root_level st1) with (root_level st). rewrite Hen.
  change (root_handlers st1) with (root_handlers st). rewrite bind_get.
  match goal with |- context [heap ?s] =>
    match s with record_events _ st1 => set (st2 := s) end end.
  change (heap st2) with (heap st). change (root_handlers st2) with (root_handlers st).
  destruct (List.filter (is_rotating (heap st)) (root_handlers st)) as [| h rest].
  - simpl. rewrite app_nil_r, <- !app_assoc. reflexivity.
  - assert (Hl2 : forall h, In h (root_handlers st2) -> h_level <$> heap st2 !! h = Some l)
      by exact Hl.
    assert (Hn2 : logger_levels st2 !! logger = None) by exact Hn.
    rewrite (log_exact logger INFO _ st2 l Hn2 Hl2).
    change (root_level st2) with (root_level st). rewrite Hen.
    simpl. rewrite app_nil_r, <- !app_assoc. reflexivity.
Qed.

Lemma start_server_trace_after_lines E args level st :
  exists rest,
    trace (start_server E args level st).1 =
      trace (log_startup_lines args level st).1
        ++ EvSetRootLevel (numeric_level level)
           :: level_events (numeric_level level) (root_handlers st) ++ rest.
Proof.
  rewrite start_server_unfold. cbv zeta.
  destruct (log_startup_lines_spec args level st)
    as (st1 & lines & -> & (_ & _ & Hh1) & _).
  simpl fst.
  destruct (apply_level_spec level st1) as (st2 & -> & _ & _ & Htr2 & _).
  simpl fst.
  pose proof (quiet_enable_debug_packages level st2) as Hq3.
  match goal with |- context [uvicorn_run E _ ?s] => set (st3 := s) in * end.
  pose proof (start_server_tail quiet E args level
                (quiet_uvicorn_run E) quiet_log st3) as Hq4.
  cbv zeta in Hq4.
  assert (Hq : quiet st2 (match uvicorn_run E (serve_args_of args level) st3 with
           | (st4, Ok _) => (st4, Ok tt)
           | (st4, Raise e) =>
               if is_Exception e
               then (log logger ERROR ("Failed to start server: " +:+ exc_msg e) ;;
                     sys_exit 1) st4
               else (st4, Raise e)
           end).1) by (etransitivity; eassumption).
  destruct Hq as (_ & _ & _ & rest & Htr & _).
  exists rest. rewrite Htr, Htr2, Hh1. now rewrite <- !app_assoc.
Qed.

(** X8.  In a run that reaches the guarded block, when the logger of the
    script has no level of its own, every startup line is emitted to every
    attached sink, whatever the effective level (also with [--log-level
    critical]): each log call is followed by its emission to each sink, and
    only then is the level set. *)
Theorem startup_lines_reach_every_sink E argv st0 args st2 :
  reaches_server E argv st0 args st2 ->
  logger_levels st0 !! logger = None ->
  let level := effective_log_level E args in
  exists rest,
    trace (run E argv st0).1 =
      trace st2
        ++ flat_map (emitted_call (root_handlers st2)) (startup_lines args level st2)
        ++ EvSetRootLevel (numeric_level level)
           :: level_events (numeric_level level) (root_handlers st2) ++ rest.
Proof.
  intros Hreach Hunset level.
  destruct (reaches_server_pipeline _ _ _ _ _ Hreach) as [Hrl Hlv].
  rewrite run_state, (reaches_server_script _ _ _ _ _ Hreach). fold level.
  destruct (start_server_trace_after_lines E args level st2) as (rest & ->).
  exists rest.
  rewrite (log_startup_lines_exact args level st2 INFO).
  - now rewrite <- app_assoc.
  - now rewrite (reaches_server_loggers _ _ _ _ _ Hreach).
  - exact Hlv.
  - now rewrite Hrl.
Qed.

Lemma reaches_server_disabled_critical :
  reaches_server plain_env [OptLogLevel "critical"; OptLogFile EmptyString] fresh_state
    {| reload := false; host := "localhost"; port := 8000;
       log_level := "critical"; log_file_arg := Some EmptyString |}
    (reconcile_log_file plain_env (Some EmptyString)
       (module_level plain_env fresh_state).1).1.
Proof.
  exists (module_level plain_env fresh_state).1.
  split; [vm_compute; reflexivity |]. split; [reflexivity |].
  vm_compute. reflexivity.
Qed.

Lemma startup_lines_reach_every_sink_witness :
  exists rest,
    trace (run plain_env [OptLogLevel "critical"; OptLogFile EmptyString] fresh_state).1 =
      trace (reconcile_log_file plain_env (Some EmptyString)
               (module_level plain_env fresh_state).1).1
        ++ [EvLogCall logger INFO "Starting DeerFlow API server on localhost:8000";
            EvEmit 0 logger INFO "Starting DeerFlow API server on localhost:8000";
            EvLogCall logger INFO "Log level: CRITICAL";
            EvEmit 0 logger INFO "Log level: CRITICAL"]
        ++ EvSetRootLevel CRITICAL :: level_events CRITICAL [0%nat] ++ rest.
Proof.
  destruct (startup_lines_reach_every_sink plain_env
              [OptLogLevel "critical"; OptLogFile EmptyString] fresh_state _ _
              reaches_server_disabled_critical eq_refl) as (rest & Hrest).
  exists rest. vm_compute in Hrest. vm_compute. exact Hrest.
Defined.

(** ** A custom log file *)

Lemma mem_pipeline_replaced n :
  mem n [n; S (S n)] = true /\ mem (S n) [n; S (S n)] = false /\
  mem (S (S n)) [n; S (S n)] = true.
Proof.
  assert (H1 : Nat.eqb n (S n) = false) by (apply Nat.eqb_neq; lia).
  assert (H2 : Nat.eqb (S (S n)) (S n) = false) by (apply Nat.eqb_neq; lia).
  assert (H3 : Nat.eqb n (S (S n)) = false) by (apply Nat.eqb_neq; lia).
  cbn [mem]. rewrite !Nat.eqb_refl, H1, H2, H3. cbn [orb]. repeat split; reflexivity.
Qed.

(** The pipeline right after a successful replacement of the file sink. *)
Lemma replaced_pipeline E st0 st_b path s1 s2 :
  module_level E st0 = (st_b, Ok tt) ->
  detached st_b s1 -> attached E path s1 s2 ->
  let n := length (heap st0) in
  root_handlers s2 = [n; S (S n)] /\
  heap s2 !! n = Some console_obj /\
  heap s2 !! S n = Some (set_h_closed (rotating_obj E log_file)) /\
  heap s2 !! S (S n) = Some (rotating_obj E path).
Proof.
  intros Him Hd Hat n.
  destruct (module_level_inv _ _ _ Him) as (Hq & Hl & _).
  destruct (import_pipeline E st0 st_b Hq Hl) as (Hhs & Hheap & Hc & Hf & Hlen & _).
  fold n in Hhs, Hc, Hf, Hlen.
  destruct (detach_events_pipeline _ n Hc Hf) as [_ Hoth].
  pose proof Hd as (Hh1 & _ & Hl1 & Hp1).
  pose proof Hat as (Hh2 & _ & Hp2 & _).
  rewrite Hh1, Hhs, Hoth, Hl1, Hlen, add_to_pipeline in Hh2.
  split; [exact Hh2 |].
  assert (Hn : heap s1 !! n = Some console_obj).
  { rewrite Hp1, Hc. simpl. rewrite Hheap. apply heap_at_0. }
  assert (Hsn : heap s1 !! S n = Some (set_h_closed (rotating_obj E log_file))).
  { rewrite Hp1, Hf, Hhs. simpl. rewrite Nat.eqb_refl, orb_true_r.
    rewrite Hheap. subst n. now rewrite heap_at_1. }
  split; [| split].
  - rewrite (attached_old_object _ _ _ _ _ Hat) by lia. exact Hn.
  - rewrite (attached_old_object _ _ _ _ _ Hat) by lia. exact Hsn.
  - rewrite Hp2, <- Hlen, <- Hl1. apply heap_at_0.
Qed.

(** X9.  When [--log-file] names a path whose parent directory can be made
    and that can be opened, the script ends with the console sink and one
    new rotating-file sink attached.  The new sink writes to the absolute
    path of the custom file with the thresholds of the default one (10 MiB,
    5 backups, utf-8) and the shared formatter, and both attached sinks have
    the effective level.  The default sink is closed and no longer attached,
    and its level is not changed.  The startup line names the custom file. *)
Theorem custom_log_file_replaces_default E argv st0 st_b args path :
  module_level E st0 = (st_b, Ok tt) ->
  parse_items argv default_args = Parsed args ->
  log_file_arg args = Some path ->
  path <> EmptyString ->
  mkdir_error E AtReconcile (path_parent E path) = None ->
  open_error E AtReconcile path = None ->
  let n := length (heap st0) in
  let num := numeric_level (effective_log_level E args) in
  let st' := (run E argv st0).1 in
  root_handlers st' = [n; S (S n)] /\
  heap st' !! n = Some (set_h_level num console_obj) /\
  heap st' !! S n = Some (set_h_closed (rotating_obj E log_file)) /\
  heap st' !! S (S n) = Some (set_h_level num (rotating_obj E path)) /\
  In (logger, INFO, "Log file: " +:+ abspath E path) (log_calls (new_events st0 st')).
Proof.
  intros Him Hp Harg Hne Hm Ho n num st'. subst st'.
  destruct (reconcile_custom_ok E path st_b Hne Hm Ho) as (s1 & s2 & Hrun & Hd & _ & Hat).
  destruct (replaced_pipeline E st0 st_b path s1 s2 Him Hd Hat) as (Hhs & Hn & Hsn & Hssn).
  fold n in Hhs, Hn, Hsn, Hssn.
  assert (Hreach : reaches_server E argv st0 args s2).
  { exists st_b. split; [exact Him |]. split; [exact Hp |]. now rewrite Harg. }
  rewrite run_state, (reaches_server_script _ _ _ _ _ Hreach).
  destruct (start_server_levels E args (effective_log_level E args) s2) as (_ & Hh' & Hp').
  destruct (mem_pipeline_replaced n) as (m1 & m2 & m3).
  split; [now rewrite Hh', Hhs |].
  split; [rewrite Hp', Hhs, m1, Hn; reflexivity |].
  split; [rewrite Hp', Hhs, m2, Hsn; reflexivity |].
  split; [rewrite Hp', Hhs, m3, Hssn; reflexivity |].
  destruct (reaches_server_no_serve _ _ _ _ _ Hreach) as (es0 & Ht0 & _).
  destruct (start_server_trace E args (effective_log_level E args) s2)
    as (lines & rest & Htr & _ & Hcalls).
  rewrite (new_events_app st0 _ (es0 ++ lines
             ++ EvSetRootLevel (numeric_level (effective_log_level E args))
                :: level_events (numeric_level (effective_log_level E args))
                     (root_handlers s2) ++ rest)).
  2: { rewrite Htr, Ht0. now rewrite <- !app_assoc. }
  rewrite !log_calls_app, Hcalls. apply in_or_app. right. apply in_or_app. left.
  unfold startup_lines. rewrite Hhs. simpl List.filter.
  unfold is_rotating. rewrite Hn, Hssn. simpl.
  right; right; left. rewrite Hssn. reflexivity.
Qed.

Lemma plain_import_returns :
  module_level plain_env fresh_state = ((module_level plain_env fresh_state).1, Ok tt).
Proof. vm_compute. reflexivity. Qed.

Lemma custom_log_file_replaces_default_witness :
  let st' := (run plain_env [OptLogFile "custom.log"; OptLogLevel "debug"] fresh_state).1 in
  root_handlers st' = [0%nat; 2%nat] /\
  heap st' !! 0%nat = Some (set_h_level DEBUG console_obj) /\
  heap st' !! 1%nat = Some (set_h_closed (rotating_obj plain_env log_file)) /\
  heap st' !! 2%nat = Some (set_h_level DEBUG (rotating_obj plain_env "custom.log")) /\
  In (logger, INFO, "Log file: /srv/custom.log") (log_calls (new_events fresh_state st')).
Proof.
  exact (custom_log_file_replaces_default plain_env
           [OptLogFile "custom.log"; OptLogLevel "debug"] fresh_state
           (module_level plain_env fresh_state).1
           {| reload := false; host := "localhost"; port := 8000; log_level := "debug";
              log_file_arg := Some "custom.log" |} "custom.log"
           plain_import_returns eq_refl eq_refl
           (fun H : "custom.log" = EmptyString => eq_ind "custom.log"
              (fun s => match s with EmptyString => False | String _ _ => True end)
              I EmptyString H)
           eq_refl eq_refl).
Defined.

(** ** The events of the import *)

Lemma attached_state_levels E st0 :
  forall h, In h (root_handlers (attached_state E st0)) ->
    h_level <$> heap (attached_state E st0) !! h = Some INFO.
Proof.
  intros h [<- | [<- | []]]; simpl.
  - now rewrite heap_at_0.
  - now rewrite heap_at_1.
Qed.

(** X10.  A successful import records, in this order: the log directory,
    the level INFO of the root logger, the clearing of its handlers, the
    console sink and the default file sink; then, on Windows only, the
    line about the event loop policy, which both sinks receive (when the
    logger of the script has no level of its own), and the setting of the
    policy.  On any other system the import makes no log call. *)
Theorem import_events E st0 st_b :
  module_level E st0 = (st_b, Ok tt) ->
  logger_levels st0 !! logger = None ->
  let n := length (heap st0) in
  new_events st0 st_b =
    [EvMkdir log_dir; EvSetRootLevel INFO; EvClear]
      ++ sink_events n ++ sink_events (S n)
      ++ (if String.eqb (os_name E) "nt"
          then emitted_call [n; S n] (logger, INFO, windows_policy_message)
                 ++ [EvSetEventLoopPolicy]
          else []).
Proof.
  intros Hrun Hunset n.
  destruct (mkdir_error E AtImport log_dir) as [m |] eqn:Hm.
  { rewrite (module_level_mkdir_fails E st0 m Hm) in Hrun. discriminate. }
  destruct (open_error E AtImport log_file) as [m |] eqn:Ho.
  { rewrite (module_level_open_fails E st0 m Hm Ho) in Hrun. discriminate. }
  unfold module_level in Hrun.
  rewrite (bind_ok _ _ _ _ _ (setup_logging_ok E st0 Hm Ho)) in Hrun.
  unfold windows_policy, register_signals, signal_signal, emit in Hrun.
  apply new_events_app.
  destruct (String.eqb (os_name E) "nt").
  - rewrite bind_assoc in Hrun.
    rewrite (bind_ok _ _ _ _ _
               (log_exact logger INFO windows_policy_message (attached_state E st0) INFO
                  Hunset (attached_state_levels E st0))) in Hrun.
    rewrite !bind_modify in Hrun. unfold modify in Hrun.
    injection Hrun as <-. simpl. rewrite <- !app_assoc. reflexivity.
  - rewrite bind_ret, bind_modify in Hrun. unfold modify in Hrun.
    injection Hrun as <-. simpl. rewrite <- ?app_assoc. reflexivity.
Qed.

Lemma import_events_witness :
  new_events fresh_state (module_level windows_env fresh_state).1 =
    [EvMkdir log_dir; EvSetRootLevel INFO; EvClear]
      ++ sink_events 0 ++ sink_events 1
      ++ [EvLogCall logger INFO windows_policy_message;
          EvEmit 0 logger INFO windows_policy_message;
          EvEmit 1 logger INFO windows_policy_message;
          EvSetEventLoopPolicy].
Proof.
  apply (import_events windows_env fresh_state (module_level windows_env fresh_state).1
           eq_refl eq_refl).
Defined.

(** ** The debug line *)

Lemma start_server_trace_serve E args level st :
  exists post,
    trace (start_server E args level st).1 =
      trace (before_serve args level st) ++ EvServe (serve_args_of args level) :: post.
Proof.
  rewrite start_server_before_serve.
  set (st3 := before_serve args level st).
  unfold uvicorn_run, emit. rewrite bind_modify.
  set (a := serve_args_of args level).
  set (s3 := record_event (EvServe a) st3).
  set (k := match serve E a with
            | ServeReturns => ret tt
            | ServeRaises e => raise e
            | ServeSignal s => deliver s
            end).
  assert (Hq : quiet s3 (k s3).1).
  { subst k. destruct (serve E a); [reflexivity | reflexivity | apply quiet_deliver]. }
  destruct (k s3) as [st4 [[] | e]]; simpl in Hq |- *.
  - destruct Hq as (_ & _ & _ & es & -> & _). exists es.
    subst s3. simpl. now rewrite <- app_assoc.
  - destruct Hq as (_ & _ & _ & es & Htr & _).
    destruct (is_Exception e).
    + unfold log. rewrite bind_modify. simpl. rewrite Htr.
      eexists. subst s3. simpl. rewrite <- !app_assoc. reflexivity.
    + simpl. rewrite Htr. exists es. subst s3. simpl. now rewrite <- app_assoc.
Qed.

(** X11.  In a run that reaches the guarded block with the effective level
    debug, when the logger of the script has no level of its own: after the
    level DEBUG is set on the root logger and on every attached sink, the
    three packages are set to DEBUG, then the line that announces it is
    logged and reaches every attached sink, and only then is the server
    called. *)
Theorem debug_line_reaches_every_sink E argv st0 args st2 :
  reaches_server E argv st0 args st2 ->
  logger_levels st0 !! logger = None ->
  effective_log_level E args = "debug" ->
  exists pre post,
    trace (run E argv st0).1 =
      pre ++ EvSetRootLevel DEBUG :: level_events DEBUG (root_handlers st2)
          ++ [EvSetLoggerLevel "src" DEBUG; EvSetLoggerLevel "langchain" DEBUG;
              EvSetLoggerLevel "langgraph" DEBUG]
          ++ emitted_call (root_handlers st2) (logger, INFO, debug_enabled_message)
          ++ EvServe (serve_args_of args "debug") :: post.
Proof.
  intros Hreach Hunset Hdbg.
  destruct (reaches_server_pipeline _ _ _ _ _ Hreach) as [_ Hlv].
  pose proof (reaches_server_loggers _ _ _ _ _ Hreach) as Hlog.
  rewrite run_state, (reaches_server_script _ _ _ _ _ Hreach), Hdbg.
  destruct (start_server_trace_serve E args "debug" st2) as (post & ->).
  unfold before_serve.
  destruct (log_startup_lines_spec args "debug" st2)
    as (st1 & lines & Hrun1 & (_ & Hp1 & Hh1) & _).
  pose proof (loggers_log_startup_lines args "debug" st2) as Hl1.
  rewrite Hrun1 in *. simpl fst in *.
  destruct (apply_level_spec "debug" st1) as (s & Hrun2 & Hrl & Hhs & Htr & Hheap).
  pose proof (loggers_apply_level "debug" st1) as Hl2.
  rewrite Hrun2 in *. simpl fst in *.
  unfold keeps_loggers in Hl1, Hl2.
  change (numeric_level "debug") with DEBUG in *.
  unfold enable_debug_packages.
  change (String.eqb (Str.lower "debug") "debug") with true. cbv iota.
  unfold Logger_setLevel.
  match goal with |- context [isEnabledFor logger INFO ?x] => set (s' := x) end.
  assert (Hn' : logger_levels s' !! logger = None).
  { subst s'. simpl. apply main_logger_unset_debug. now rewrite Hl2, Hl1, Hlog. }
  assert (Hl' : forall h, In h (root_handlers s') ->
                  h_level <$> heap s' !! h = Some DEBUG).
  { intros h Hin. subst s'. simpl in Hin |- *. rewrite Hhs, Hh1 in Hin.
    rewrite Hheap, Hh1, Hp1.
    pose proof (Hlv h Hin) as Hl. apply mem_In in Hin. rewrite Hin.
    destruct (heap st2 !! h); [reflexivity | discriminate]. }
  assert (Hen : isEnabledFor logger INFO s' = true).
  { unfold isEnabledFor, getEffectiveLevel. rewrite Hn'. subst s'. simpl.
    now rewrite Hrl. }
  rewrite Hen, (callHandlers_uniform logger INFO _ s' DEBUG Hl').
  change (Z.leb DEBUG INFO) with true. cbv iota.
  exists (trace st1), post.
  subst s'. simpl. rewrite Htr, Hhs, Hh1. simpl.
  rewrite <- !app_assoc. reflexivity.
Qed.

Lemma reaches_server_debug_env :
  reaches_server (debug_env "true") [] fresh_state default_args
    (module_level (debug_env "true") fresh_state).1.
Proof.
  exists (module_level (debug_env "true") fresh_state).1.
  split; [vm_compute; reflexivity |]. split; reflexivity.
Qed.

Lemma debug_line_reaches_every_sink_witness :
  exists pre post,
    trace (run (debug_env "true") [] fresh_state).1 =
      pre ++ EvSetRootLevel DEBUG :: level_events DEBUG [0%nat; 1%nat]
          ++ [EvSetLoggerLevel "src" DEBUG; EvSetLoggerLevel "langchain" DEBUG;
              EvSetLoggerLevel "langgraph" DEBUG]
          ++ [EvLogCall logger INFO debug_enabled_message;
              EvEmit 0 logger INFO debug_enabled_message;
              EvEmit 1 logger INFO debug_enabled_message]
          ++ EvServe (serve_args_of default_args "debug") :: post.
Proof.
  destruct (debug_line_reaches_every_sink (debug_env "true") [] fresh_state _ _
              reaches_server_debug_env eq_refl eq_refl) as (pre & post & H).
  exists pre, post. vm_compute in H. vm_compute. exact H.
Defined.

(** ** The default log file, and a parent directory that cannot be made *)

Lemma quiet_events_keep_sinks Q :
  forallb quiet_event Q = true ->
  Forall (fun e => forall h, e <> EvRemoveHandler h /\ e <> EvClose h) Q.
Proof.
  induction Q as [| e Q IH]; intros Hq; [constructor |].
  simpl in Hq. apply andb_true_iff in Hq as [He Hq].
  constructor; [| now apply IH].
  intros h. split; intros ->; discriminate.
Qed.

(** X12.  Without [--log-file] the default sink of the import stays: the
    script ends with the console sink and the default rotating-file sink
    attached, both with the effective level, no handler was ever removed or
    closed, and the startup line names the default log file. *)
Theorem absent_log_file_keeps_default E argv st0 st_b args :
  module_level E st0 = (st_b, Ok tt) ->
  parse_items argv default_args = Parsed args ->
  log_file_arg args = None ->
  let n := length (heap st0) in
  let num := numeric_level (effective_log_level E args) in
  let st' := (run E argv st0).1 in
  root_handlers st' = [n; S n] /\
  heap st' !! n = Some (set_h_level num console_obj) /\
  heap st' !! S n = Some (set_h_level num (rotating_obj E log_file)) /\
  Forall (fun e => forall h, e <> EvRemoveHandler h /\ e <> EvClose h)
    (new_events st0 st') /\
  In (logger, INFO, "Log file: " +:+ abspath E log_file) (log_calls (new_events st0 st')).
Proof.
  intros Him Hp Harg n num st'. subst st'.
  destruct (module_level_inv _ _ _ Him) as (Hq & Hl & _).
  destruct (import_pipeline E st0 st_b Hq Hl)
    as (Hhs & Hheap & Hc & Hf & Hlen & Q1 & Htr1 & HQ1).
  fold n in Hhs, Hc, Hf, Hlen, Htr1.
  assert (Hreach : reaches_server E argv st0 args st_b).
  { exists st_b. split; [exact Him |]. split; [exact Hp |]. now rewrite Harg. }
  rewrite run_state, (reaches_server_script _ _ _ _ _ Hreach).
  destruct (start_server_levels E args (effective_log_level E args) st_b) as (_ & Hh' & Hp').
  assert (Hn : heap st_b !! n = Some console_obj) by (rewrite Hheap; apply heap_at_0).
  assert (Hsn : heap st_b !! S n = Some (rotating_obj E log_file))
    by (rewrite Hheap; subst n; apply heap_at_1).
  assert (m1 : mem n [n; S n] = true) by (simpl; now rewrite Nat.eqb_refl).
  assert (m2 : mem (S n) [n; S n] = true)
    by (simpl; now rewrite Nat.eqb_refl, orb_true_r).
  split; [now rewrite Hh', Hhs |].
  split; [rewrite Hp', Hhs, m1, Hn; reflexivity |].
  split; [rewrite Hp', Hhs, m2, Hsn; reflexivity |].
  destruct (start_server_trace E args (effective_log_level E args) st_b)
    as (lines & rest & Htr & _ & Hcalls).
  pose proof (quiet_start_server E args (effective_log_level E args) st_b)
    as (_ & _ & _ & Q2 & Htr2 & HQ2).
  split.
  - rewrite (new_events_app st0 _
               (([EvMkdir log_dir; EvSetRootLevel INFO; EvClear]
                   ++ sink_events n ++ sink_events (S n)) ++ Q1 ++ Q2)).
    2: { rewrite Htr2, Htr1. now rewrite <- !app_assoc. }
    apply Forall_app. split; [| apply Forall_app; split; now apply quiet_events_keep_sinks].
    simpl. repeat (constructor; [intros h; split; discriminate |]). constructor.
  - rewrite (new_events_app st0 _
               (([EvMkdir log_dir; EvSetRootLevel INFO; EvClear]
                   ++ sink_events n ++ sink_events (S n) ++ Q1)
                ++ lines
                ++ EvSetRootLevel (numeric_level (effective_log_level E args))
                   :: level_events (numeric_level (effective_log_level E args))
                        (root_handlers st_b) ++ rest)).
    2: { rewrite Htr, Htr1. now rewrite <- !app_assoc. }
    rewrite !log_calls_app, Hcalls. apply in_or_app. right. apply in_or_app. left.
    unfold startup_lines. rewrite Hhs. simpl List.filter. rewrite Hc, Hf. simpl.
    right; right; left. rewrite Hsn. reflexivity.
Qed.

Lemma absent_log_file_keeps_default_witness :
  let st' := (run plain_env [OptPort "8080"] fresh_state).1 in
  root_handlers st' = [0%nat; 1%nat] /\
  heap st' !! 0%nat = Some (set_h_level INFO console_obj) /\
  heap st' !! 1%nat = Some (set_h_level INFO (rotating_obj plain_env log_file)) /\
  Forall (fun e => forall h, e <> EvRemoveHandler h /\ e <> EvClose h)
    (new_events fresh_state st') /\
  In (logger, INFO, "Log file: /srv/logs/academic-agent.log")
    (log_calls (new_events fresh_state st')).
Proof.
  exact (absent_log_file_keeps_default plain_env [OptPort "8080"] fresh_state
           (module_level plain_env fresh_state).1 (set_port 8080 default_args)
           plain_import_returns eq_refl eq_refl).
Defined.

(** X13.  When [--log-file] names a path whose parent directory cannot be
    made, the OSError leaves the main block before any handler is touched:
    the state is exactly the one in which the main block started, so the
    file sink that was attached is still attached and open. *)
Theorem failed_mkdir_leaves_pipeline E argv args st path m :
  parse_items argv default_args = Parsed args ->
  log_file_arg args = Some path ->
  path <> EmptyString ->
  mkdir_error E AtReconcile (path_parent E path) = Some m ->
  main E argv st = (st, Raise {| exc_cls := OSError; exc_msg := m |}) /\
  finish (main E argv st).2 = Traceback {| exc_cls := OSError; exc_msg := m |}.
Proof.
  intros Hp Harg Hne Hm.
  rewrite (main_parsed _ _ _ _ Hp), Harg.
  rewrite (bind_fail _ _ _ _ _ (reconcile_mkdir_fails E path st m Hne Hm)).
  split; reflexivity.
Qed.

Lemma failed_mkdir_leaves_pipeline_witness :
  let st := (module_level nodir_env fresh_state).1 in
  main nodir_env [OptLogFile "/etc/passwd/agent.log"] st =
    (st, Raise {| exc_cls := OSError; exc_msg := "Not a directory" |}) /\
  finish (main nodir_env [OptLogFile "/etc/passwd/agent.log"] st).2 =
    Traceback {| exc_cls := OSError; exc_msg := "Not a directory" |}.
Proof.
  apply (failed_mkdir_leaves_pipeline nodir_env [OptLogFile "/etc/passwd/agent.log"]
           {| reload := false; host := "localhost"; port := 8000; log_level := "info";
              log_file_arg := Some "/etc/passwd/agent.log" |}
           _ "/etc/passwd/agent.log" "Not a directory");
    [reflexivity | reflexivity | discriminate | reflexivity].
Defined.

(** ** Applying the level twice *)

(** X14.  Applying a level is idempotent on the pipeline: a second
    application right after the first leaves the level of the root logger,
    every handler object, the attached handlers and the named loggers as
    the first one left them. *)
Theorem apply_level_idempotent level st :
  let s1 := (apply_level level st).1 in
  let s2 := (apply_level level s1).1 in
  root_level s2 = root_level s1 /\
  heap s2 = heap s1 /\
  root_handlers s2 = root_handlers s1 /\
  logger_levels s2 = logger_levels s1.
Proof.
  intros s1 s2. subst s2 s1.
  destruct (apply_level_spec level st) as (s1 & Hrun1 & Hrl1 & Hhs1 & _ & Hheap1).
  rewrite Hrun1. simpl fst.
  destruct (apply_level_spec level s1) as (s2 & Hrun2 & Hrl2 & Hhs2 & _ & Hheap2).
  pose proof (loggers_apply_level level s1) as Hl. rewrite Hrun2 in *. simpl fst in *.
  split; [congruence |]. split; [| split; [exact Hhs2 | exact Hl]].
  apply list_eq. intros h. rewrite Hheap2, Hhs1, Hheap1.
  destruct (mem h (root_handlers st)); [apply set_h_level_idem | reflexivity].
Qed.


(** ** The outcome of the call of the server *)

(** C6, as the script behaves.  Once the script has reached the guarded
    block: if the call of the server raises an instance of Exception (the
    class that the except clause names), the script makes one log call at
    ERROR with the text of the exception right after the call, nothing else
    follows but what that call emits, and the process exits with status 1;
    when the logger of the script has no level of its own, the line is
    emitted to every attached sink if the effective level is error or lower
    and to no sink if it is critical.  An exception that is not an instance
    of Exception (SystemExit, KeyboardInterrupt) is not caught: nothing is
    logged after the call and the process ends as that exception ends it.
    If the call returns, the process exits with status 0. *)
Theorem serve_exception_exits_1 E argv st0 args st2 :
  reaches_server E argv st0 args st2 ->
  let level := effective_log_level E args in
  let a := serve_args_of args level in
  let st3 := before_serve args level st2 in
  let st' := (run E argv st0).1 in
  (forall e, serve E a = ServeRaises e -> is_Exception e = true ->
     let msg := "Failed to start server: " +:+ exc_msg e in
     (run E argv st0).2 = Exit 1 /\
     (exists emits,
        trace st' = trace st3 ++ EvServe a :: EvLogCall logger ERROR msg :: emits /\
        forallb is_log_event emits = true /\ log_calls emits = []) /\
     (logger_levels st0 !! logger = None ->
      trace st' =
        trace st3 ++ EvServe a :: EvLogCall logger ERROR msg
          :: (if Z.leb (numeric_level level) ERROR
              then emissions (root_handlers st') logger ERROR msg else []))) /\
  (forall e, serve E a = ServeRaises e -> is_Exception e = false ->
     (run E argv st0).2 =
       match exc_cls e with
       | SystemExit c => Exit c
       | Killed => Terminated
       | _ => Traceback e
       end /\
     trace st' = trace st3 ++ [EvServe a]) /\
  (serve E a = ServeReturns ->
     (run E argv st0).2 = Exit 0 /\ trace st' = trace st3 ++ [EvServe a]).
Proof.
  intros Hreach level a st3 st'. subst st'.
  destruct (reaches_server_before_serve _ _ _ _ _ Hreach) as (Hrl & Hhs & Hlv & _ & Hlog).
  fold level in Hrl, Hhs, Hlv, Hlog. fold st3 in Hrl, Hhs, Hlv, Hlog.
  rewrite run_result, run_state.
  rewrite (reaches_server_script _ _ _ _ _ Hreach), start_server_before_serve.
  fold level a st3.
  split; [| split].
  - intros e He Hexc msg. rewrite (uvicorn_run_raises _ _ _ _ He), Hexc.
    split; [| split].
    + destruct (log_state logger ERROR msg (record_event (EvServe a) st3))
        as (emits & Hl & _).
      now rewrite (bind_ok _ _ _ _ _ Hl).
    + destruct (log_state logger ERROR msg (record_event (EvServe a) st3))
        as (emits & Hl & Hf & Hc).
      rewrite (bind_ok _ _ _ _ _ Hl). exists emits. split; [| now split].
      simpl. now rewrite <- app_assoc.
    + intros Hunset.
      rewrite (bind_ok _ _ _ _ _
                 (log_exact logger ERROR msg (record_event (EvServe a) st3)
                    (numeric_level level) (Hlog Hunset) Hlv)).
      simpl. rewrite Hrl, andb_diag, <- app_assoc. reflexivity.
  - intros e He Hexc. rewrite (uvicorn_run_raises _ _ _ _ He), Hexc. simpl.
    split; [| reflexivity].
    unfold is_Exception in Hexc. destruct (exc_cls e); (reflexivity || discriminate).
  - intros Hret. rewrite (uvicorn_run_returns _ _ _ Hret). now split.
Qed.

Lemma serve_exception_exits_1_witness :
  let msg := "Failed to start server: [Errno 98] address already in use" in
  ((run failing_env [] fresh_state).2 = Exit 1 /\
   trace (run failing_env [] fresh_state).1 =
     trace (before_serve default_args "info" (module_level failing_env fresh_state).1)
       ++ [EvServe (serve_args_of default_args "info");
           EvLogCall logger ERROR msg;
           EvEmit 0 logger ERROR msg; EvEmit 1 logger ERROR msg]) /\
  ((run exiting_env [] fresh_state).2 = Exit 3 /\
   trace (run exiting_env [] fresh_state).1 =
     trace (before_serve default_args "info" (module_level exiting_env fresh_state).1)
       ++ [EvServe (serve_args_of default_args "info")]) /\
  (run plain_env [] fresh_state).2 = Exit 0.
Proof.
  split; [| split].
  - destruct (proj1 (serve_exception_exits_1 failing_env [] fresh_state default_args
                       (module_level failing_env fresh_state).1
                       (ex_intro _ (module_level failing_env fresh_state).1
                          (conj eq_refl (conj eq_refl eq_refl))))
                {| exc_cls := OSError; exc_msg := "[Errno 98] address already in use" |}
                eq_refl eq_refl) as (Hexit & _ & Hemit).
    split; [exact Hexit | exact (Hemit eq_refl)].
  - exact (proj1 (proj2 (serve_exception_exits_1 exiting_env [] fresh_state default_args
                           (module_level exiting_env fresh_state).1
                           (ex_intro _ (module_level exiting_env fresh_state).1
                              (conj eq_refl (conj eq_refl eq_refl)))))
             {| exc_cls := SystemExit 3; exc_msg := "3" |} eq_refl eq_refl).
  - exact (proj1 (proj2 (proj2 (serve_exception_exits_1 plain_env [] fresh_state
                                  default_args (module_level plain_env fresh_state).1
                                  (ex_intro _ (module_level plain_env fresh_state).1
                                     (conj eq_refl (conj eq_refl eq_refl)))))
                    eq_refl)).
Defined.

(** C6, as the specification words it, fails: when the call of the server
    raises SystemExit(3), the process exits with status 3, not 1. *)
Lemma non_Exception_from_server_not_reported :
  ~ any_exception_logged_and_exits_1 exiting_env [] fresh_state.
Proof.
  intros H.
  destruct (H default_args (module_level exiting_env fresh_state).1
              {| exc_cls := SystemExit 3; exc_msg := "3" |}
              (ex_intro _ (module_level exiting_env fresh_state).1
                 (conj eq_refl (conj eq_refl eq_refl))) eq_refl) as [Hc _].
  vm_compute in Hc. discriminate.
Qed.
